(** * CoolishReader: the rating subsystem, the reader controller's rating
      trigger and the static file server

    A shallow embedding of the JavaScript sources

      - [reader/reader/js/reader.js]: [rtrim], [get_rating], [push_rating],
        [hashCreate], the vendored js-sha256 (0.9.0) and the tryte codec
        of the vendored IOTA client ([toTrytes], [fromTrytes]);
      - [reader/src/controllers/reader_controller.js]: the [relocated]
        handler and the vote submission handler;
      - [server.js] and [unnamed/part_001], the two scripts of the
        server: the Express router and the listening port of each;
      - [reader/reader/js/reader.js], further: [getBookPath], the
        addresses of resources ([EPUBJS.core.folder], [uri],
        [resolveUrl]), the search in a sorted array ([locationOf],
        [insert], [indexOfSorted]) and the bookmarks and notes of
        [EPUBJS.Reader].

    JavaScript strings are sequences of UTF-16 code units and are modelled
    as [list Z]; 32-bit words are [Z] with the wrap-around written out. *)

From Stdlib Require Import ZArith List String Ascii QArith Lia Bool.
From stdpp Require Import gmap sorting.

Set Warnings "-register-all".

Close Scope Q_scope.
Open Scope Z_scope.

(** ** JavaScript strings *)

Module JS.

Abbreviation jsstring := (list Z).

Definition char (a : ascii) : Z := Z.of_N (N_of_ascii a).

(** A string literal of the source. *)
Definition str (s : string) : jsstring := List.map char (list_ascii_of_string s).

(** [s[i]]: [None] is [undefined]. *)
Definition index (s : jsstring) (i : nat) : option Z := s !! i.

(** [s[i] == c] for a one-character literal [c]. *)
Definition index_is (s : jsstring) (i : nat) (c : ascii) : bool :=
  match index s i with
  | Some x => x =? char c
  | None => false
  end.

(** [s.substr(0, i)] and [s.substr(i)] for an index [i >= 0]. *)
Definition substr_to (s : jsstring) (i : nat) : jsstring := firstn i s.
Definition substr_from (s : jsstring) (i : nat) : jsstring := skipn i s.

(** [s.slice(a, b)]: a negative index counts from the end, and both are
    clamped to the string. *)
Definition slice_index (len a : Z) : Z :=
  if a <? 0 then Z.max (len + a) 0 else Z.min a len.

Definition slice (s : jsstring) (a b : Z) : jsstring :=
  let len := Z.of_nat (length s) in
  let from := slice_index len a in
  let to := slice_index len b in
  firstn (Z.to_nat (to - from)) (skipn (Z.to_nat from) s).

(** [s.slice(a)]. *)
Definition slice_from (s : jsstring) (a : Z) : jsstring :=
  slice s a (Z.of_nat (length s)).

(** [s.toUpperCase()] on the Basic Latin block; the only string the
    program uppercases is a hexadecimal digest. *)
Definition upper (c : Z) : Z :=
  if (97 <=? c) && (c <=? 122) then c - 32 else c.

Definition toUpperCase (s : jsstring) : jsstring := List.map upper s.

Definition jsstring_eqb (a b : jsstring) : bool :=
  if decide (a = b) then true else false.

End JS.

Import JS.

(** ** js-sha256 0.9.0, as vendored in reader.js *)

Module Sha256.

Definition wrap (x : Z) : Z := x mod 2 ^ 32.

(** [x >>> n | x << (32 - n)] on a 32-bit word. *)
Definition rotr (n x : Z) : Z :=
  Z.lor (Z.shiftr x n) (wrap (Z.shiftl x (32 - n))).

Definition add32 (x y : Z) : Z := wrap (x + y).

(** The table [p] of the source. *)
Definition K : list Z :=
  [ 1116352408; 1899447441; 3049323471; 3921009573; 961987163; 1508970993;
    2453635748; 2870763221; 3624381080; 310598401; 607225278; 1426881987;
    1925078388; 2162078206; 2614888103; 3248222580; 3835390401; 4022224774;
    264347078; 604807628; 770255983; 1249150122; 1555081692; 1996064986;
    2554220882; 2821834349; 2952996808; 3210313671; 3336571891; 3584528711;
    113926993; 338241895; 666307205; 773529912; 1294757372; 1396182291;
    1695183700; 1986661051; 2177026350; 2456956037; 2730485921; 2820302411;
    3259730800; 3345764771; 3516065817; 3600352804; 4094571909; 275423344;
    430227734; 506948616; 659060556; 883997877; 958139571; 1322822218;
    1537002063; 1747873779; 1955562222; 2024104815; 2227730452; 2361852424;
    2428436474; 2756734187; 3204031479; 3329325298 ].

(** The fields [h0] .. [h7] of the hasher object. *)
Record state := mkState {
  h0 : Z; h1 : Z; h2 : Z; h3 : Z; h4 : Z; h5 : Z; h6 : Z; h7 : Z }.

(** The constructor with [is224] false. *)
Definition init : state :=
  mkState 1779033703 3144134277 1013904242 2773480762
          1359893119 2600822924 528734635 1541459225.

(** The UTF-8 bytes [update] writes for a string: one to three bytes for
    a code unit outside the surrogate range, four for a surrogate, which
    is combined with the code unit after it ([charCodeAt] past the end is
    [NaN], and [1023 & NaN] is 0). *)
Fixpoint utf8 (fuel : nat) (s : jsstring) : list Z :=
  match fuel, s with
  | O, _ | _, [] => []
  | S k, c :: rest =>
      if c <? 128 then c :: utf8 k rest
      else if c <? 2048 then
        Z.lor 192 (Z.shiftr c 6) :: Z.lor 128 (Z.land 63 c) :: utf8 k rest
      else if (c <? 55296) || (57344 <=? c) then
        Z.lor 224 (Z.shiftr c 12)
          :: Z.lor 128 (Z.land (Z.shiftr c 6) 63)
          :: Z.lor 128 (Z.land 63 c) :: utf8 k rest
      else
        let low := match rest with [] => 0 | d :: _ => Z.land 1023 d end in
        let cp := 65536 + Z.lor (Z.shiftl (Z.land 1023 c) 10) low in
        Z.lor 240 (Z.shiftr cp 18)
          :: Z.lor 128 (Z.land (Z.shiftr cp 12) 63)
          :: Z.lor 128 (Z.land (Z.shiftr cp 6) 63)
          :: Z.lor 128 (Z.land 63 cp) :: utf8 k (tl rest)
  end.

(** What [update] and [finalize] leave in [blocks] over the run: the
    bytes, the marker 128, zeros up to 56 modulo 64, and the bit length
    on two words ([hBytes << 3 | bytes >>> 29] and [bytes << 3]). *)
Definition padded (bytes : list Z) : list Z :=
  let n := Z.of_nat (length bytes) in
  let bits := (8 * n) mod 2 ^ 64 in
  bytes ++ [128] ++ repeat 0 (Z.to_nat ((55 - n) mod 64))
    ++ List.map (fun i => Z.land (Z.shiftr bits (8 * i)) 255) [7; 6; 5; 4; 3; 2; 1; 0].

(** Four bytes make a word, the first one in the high bits
    ([a[e >> 2] |= byte << y[3 & e]] with [y = [24, 16, 8, 0]]). *)
Fixpoint words (fuel : nat) (bytes : list Z) : list Z :=
  match fuel, bytes with
  | S k, b0 :: b1 :: b2 :: b3 :: rest =>
      Z.lor (Z.shiftl b0 24) (Z.lor (Z.shiftl b1 16) (Z.lor (Z.shiftl b2 8) b3))
        :: words k rest
  | _, _ => []
  end.

Fixpoint chunks (fuel : nat) (ws : list Z) : list (list Z) :=
  match fuel, ws with
  | O, _ | _, [] => []
  | S k, _ => firstn 16 ws :: chunks k (skipn 16 ws)
  end.

Definition word (b : list Z) (t : nat) : Z := nth t b 0.

(** The first loop of [hash]: [b[t] = b[t-16] + i + b[t-7] + h << 0]. *)
Definition schedule_step (b : list Z) : list Z :=
  let t := length b in
  let s := word b (t - 15) in
  let i := Z.lxor (Z.lxor (rotr 7 s) (rotr 18 s)) (Z.shiftr s 3) in
  let s' := word b (t - 2) in
  let h := Z.lxor (Z.lxor (rotr 17 s') (rotr 19 s')) (Z.shiftr s' 10) in
  b ++ [wrap (word b (t - 16) + i + word b (t - 7) + h)].

Definition schedule (block : list Z) : list Z :=
  Nat.iter 48 schedule_step block.

(** One round of the second loop of [hash]. The source unrolls the loop
    four rounds at a time, renaming the eight working variables instead
    of moving them, and replaces the very first round of the first block
    by its precomputed value; the rounds are given here one at a time. *)
Definition round (b : list Z) (v : state) (t : nat) : state :=
  let '(mkState a b' c d e f g h) := v in
  let S1 := Z.lxor (Z.lxor (rotr 6 e) (rotr 11 e)) (rotr 25 e) in
  let ch := Z.lxor (Z.land e f) (Z.land (Z.lxor e (2 ^ 32 - 1)) g) in
  let t1 := h + S1 + ch + nth t K 0 + word b t in
  let S0 := Z.lxor (Z.lxor (rotr 2 a) (rotr 13 a)) (rotr 22 a) in
  let maj := Z.lxor (Z.lxor (Z.land a b') (Z.land a c)) (Z.land b' c) in
  mkState (wrap (t1 + S0 + maj)) a b' c (wrap (d + t1)) e f g.

(** [hash]: the schedule, the 64 rounds, and [this.h0 = this.h0 + f << 0]
    and so on. *)
Definition hash (st : state) (block : list Z) : state :=
  let b := schedule block in
  let v := fold_left (round b) (seq 0 64) st in
  mkState (add32 (h0 st) (h0 v)) (add32 (h1 st) (h1 v))
          (add32 (h2 st) (h2 v)) (add32 (h3 st) (h3 v))
          (add32 (h4 st) (h4 v)) (add32 (h5 st) (h5 v))
          (add32 (h6 st) (h6 v)) (add32 (h7 st) (h7 v)).

(** [new Sha256(false, true).update(message)] followed by [finalize]. *)
Definition digest_state (message : jsstring) : state :=
  let bytes := padded (utf8 (length message) message) in
  fold_left hash (chunks (length bytes) (words (length bytes) bytes)) init.

(** The table [u]. *)
Definition HEX_CHARS : jsstring := str "0123456789abcdef".

Definition u (k : Z) : Z := nth (Z.to_nat k) HEX_CHARS 0.

(** The eight characters [hex] writes for one word:
    [u[t >> 28 & 15] + u[t >> 24 & 15] + ... + u[15 & t]]. *)
Definition hex_word (t : Z) : jsstring :=
  [ u (Z.land (Z.shiftr t 28) 15); u (Z.land (Z.shiftr t 24) 15);
    u (Z.land (Z.shiftr t 20) 15); u (Z.land (Z.shiftr t 16) 15);
    u (Z.land (Z.shiftr t 12) 15); u (Z.land (Z.shiftr t 8) 15);
    u (Z.land (Z.shiftr t 4) 15); u (Z.land 15 t) ].

(** [hex] with [is224] false. *)
Definition hex (st : state) : jsstring :=
  hex_word (h0 st) ++ hex_word (h1 st) ++ hex_word (h2 st) ++ hex_word (h3 st)
    ++ hex_word (h4 st) ++ hex_word (h5 st) ++ hex_word (h6 st)
    ++ hex_word (h7 st).

(** The exported function, applied to a string. *)
Definition sha256 (message : jsstring) : jsstring := hex (digest_state message).

End Sha256.

Import Sha256.

(** ** Address derivation (reader.js, [hashCreate]) *)

Module Address.

(** [str.substr(0,i) + 'G' + str.substr(i+1)]. *)
Definition splice (s : jsstring) (i : nat) (g : ascii) : jsstring :=
  substr_to s i ++ [char g] ++ substr_from s (i + 1).

(** One statement of the loop:
    [if (str[i] == d) str = str.substr(0,i) + g + str.substr(i+1);]. *)
Definition replace_if (d g : ascii) (i : nat) (s : jsstring) : jsstring :=
  if index_is s i d then splice s i g else s.

(** The body of the loop: nine such statements in sequence, each on the
    string the one before left. *)
Definition remap_at (i : nat) (s : jsstring) : jsstring :=
  let s := replace_if "0" "G" i s in
  let s := replace_if "1" "H" i s in
  let s := replace_if "2" "I" i s in
  let s := replace_if "3" "J" i s in
  let s := replace_if "4" "K" i s in
  let s := replace_if "5" "L" i s in
  let s := replace_if "6" "M" i s in
  let s := replace_if "7" "N" i s in
  let s := replace_if "8" "O" i s in
  s.

(** The loop, from [i] on and for a number of iterations. *)
Fixpoint remap_loop (iterations : nat) (i : nat) (s : jsstring) : jsstring :=
  match iterations with
  | O => s
  | S k => remap_loop k (S i) (remap_at i s)
  end.

(** [hashCreate] with the bound of its loop as a parameter. *)
Definition hashCreate_bound (bound : nat) (s : jsstring) : jsstring :=
  let s := sha256 s in
  let s := toUpperCase s in
  let s := remap_loop bound 0 s in
  s ++ str "99999999999999999".

(** [hashCreate] of the source: the loop runs for [i < 65]. *)
Definition hashCreate (s : jsstring) : jsstring := hashCreate_bound 65 s.

(** The variant that stops at the end of a 64-character digest. *)
Definition hashCreate64 (s : jsstring) : jsstring := hashCreate_bound 64 s.

(** The mapping of the specification: the digits 0 to 8 go to the
    letters G to O, every other character to itself. *)
Definition remap_char (c : Z) : Z :=
  if c =? char "0" then char "G"
  else if c =? char "1" then char "H"
  else if c =? char "2" then char "I"
  else if c =? char "3" then char "J"
  else if c =? char "4" then char "K"
  else if c =? char "5" then char "L"
  else if c =? char "6" then char "M"
  else if c =? char "7" then char "N"
  else if c =? char "8" then char "O"
  else c.

End Address.

Import Address.

(** ** JavaScript numbers and values *)

Module Value.

(** Numbers are kept exact. The doubles this program meets are integers
    of magnitude at most 2^53, which doubles hold exactly, and one
    quotient of two of them, kept as the reduced fraction whose rounding
    the double is. The sign of zero is not recorded. *)
Inductive number :=
  | NaN
  | Infinity (negative : bool)
  | Fin (q : Q).

Definition int (z : Z) : number := Fin (z # 1).

Definition negative (q : Q) : bool := Qnum q <? 0.

Definition is_zero (q : Q) : bool := Qnum q =? 0.

(** [a + b] on numbers. *)
Definition add (a b : number) : number :=
  match a, b with
  | NaN, _ | _, NaN => NaN
  | Infinity s, Infinity t => if eqb s t then Infinity s else NaN
  | Infinity s, Fin _ | Fin _, Infinity s => Infinity s
  | Fin p, Fin q => Fin (Qred (Qplus p q))
  end.

(** [a / b] on numbers. *)
Definition div (a b : number) : number :=
  match a, b with
  | NaN, _ | _, NaN => NaN
  | Infinity _, Infinity _ => NaN
  | Infinity s, Fin q => Infinity (xorb s (negative q))
  | Fin _, Infinity _ => int 0
  | Fin p, Fin q =>
      if is_zero q then (if is_zero p then NaN else Infinity (negative p))
      else Fin (Qred (Qdiv p q))
  end.

Inductive value :=
  | Undefined
  | Null
  | Bool (b : bool)
  | Num (n : number)
  | Str (s : jsstring)
  | Arr (items : list value)
  | Obj (props : list (jsstring * value)).

(** The exceptions the program meets; [PlainError] is an [Error] with
    its message. *)
Inductive exn :=
  | SyntaxError
  | TypeError
  | RangeError
  | PlainError (message : jsstring).

(** What evaluating an expression comes to: a value, an exception, or
    [Unmodelled] where the embedding says nothing (a number that is not
    an integer below 2^53 turned into text or read from it, a member
    inherited from [Object.prototype]). *)
Inductive outcome (A : Type) :=
  | Returns (a : A)
  | Throws (e : exn)
  | Unmodelled.

Arguments Returns {A} a.
Arguments Throws {A} e.
Arguments Unmodelled {A}.

Definition obind {A B} (m : outcome A) (f : A -> outcome B) : outcome B :=
  match m with
  | Returns a => f a
  | Throws e => Throws e
  | Unmodelled => Unmodelled
  end.

(** Decimal digits of a natural number, most significant first. *)
Fixpoint digits_of (fuel : nat) (n : Z) (acc : jsstring) : jsstring :=
  match fuel with
  | O => acc
  | S k =>
      let acc := (48 + n mod 10) :: acc in
      if n <? 10 then acc else digits_of k (n / 10) acc
  end.

Definition decimal (z : Z) : jsstring :=
  let d := digits_of (S (Z.to_nat (Z.log2 (Z.abs z)))) (Z.abs z) [] in
  if z <? 0 then char "-" :: d else d.

Definition SAFE : Z := 2 ^ 53.

(** [String(n)] for a number. *)
Definition number_to_string (n : number) : outcome jsstring :=
  match n with
  | NaN => Returns (str "NaN")
  | Infinity false => Returns (str "Infinity")
  | Infinity true => Returns (str "-Infinity")
  | Fin q =>
      if (Zpos (Qden q) =? 1) && (Z.abs (Qnum q) <=? SAFE)
      then Returns (decimal (Qnum q))
      else Unmodelled
  end.

Definition has_key (k : jsstring) (props : list (jsstring * value)) : bool :=
  existsb (fun p => jsstring_eqb (fst p) k) props.

(** [ToString(v)]. An array joins the texts of its items with commas, an
    item that is [null] or [undefined] giving the empty text. A parsed
    object that carries its own [toString] member, which is no function,
    is left with [Object.prototype.valueOf], which returns no primitive:
    a [TypeError]. *)
Fixpoint ToString (v : value) : outcome jsstring :=
  match v with
  | Undefined => Returns (str "undefined")
  | Null => Returns (str "null")
  | Bool true => Returns (str "true")
  | Bool false => Returns (str "false")
  | Num n => number_to_string n
  | Str s => Returns s
  | Arr items =>
      (fix join (l : list value) : outcome jsstring :=
         match l with
         | [] => Returns []
         | x :: rest =>
             obind (match x with
                    | Undefined | Null => Returns []
                    | _ => ToString x
                    end) (fun sx =>
             match rest with
             | [] => Returns sx
             | _ => obind (join rest) (fun sr => Returns (sx ++ char "," :: sr))
             end)
         end) items
  | Obj props =>
      if has_key (str "toString") props then Throws TypeError
      else Returns (str "[object Object]")
  end.

(** [v[key]] for a value that came out of [JSON.parse]: the last of the
    members of that name in an object; nothing of that name on the
    prototypes of the other kinds, for the one key the program reads. *)
Fixpoint lookup_last (k : jsstring) (props : list (jsstring * value))
    (found : value) : value :=
  match props with
  | [] => found
  | (k', v) :: rest =>
      lookup_last k rest (if jsstring_eqb k' k then v else found)
  end.

Definition get_rating_member (v : value) : outcome value :=
  match v with
  | Undefined | Null => Throws TypeError
  | Obj props => Returns (lookup_last (str "rating") props Undefined)
  | _ => Returns Undefined
  end.

(** White space and line ends that [parseInt] skips. *)
Definition is_space (c : Z) : bool :=
  ((9 <=? c) && (c <=? 13)) || (c =? 32) || (c =? 160) || (c =? 5760)
  || ((8192 <=? c) && (c <=? 8202)) || (c =? 8232) || (c =? 8233)
  || (c =? 8239) || (c =? 8287) || (c =? 12288) || (c =? 65279).

Fixpoint trim_start (s : jsstring) : jsstring :=
  match s with
  | c :: rest => if is_space c then trim_start rest else s
  | [] => []
  end.

Definition digit_value (c : Z) : option Z :=
  if (48 <=? c) && (c <=? 57) then Some (c - 48)
  else if (97 <=? c) && (c <=? 122) then Some (c - 87)
  else if (65 <=? c) && (c <=? 90) then Some (c - 55)
  else None.

(** The longest prefix of digits of the radix, read as a number. *)
Fixpoint read_digits (radix : Z) (s : jsstring) (acc : option Z) : option Z :=
  match s with
  | [] => acc
  | c :: rest =>
      match digit_value c with
      | Some d =>
          if d <? radix
          then read_digits radix rest
                 (Some (radix * match acc with Some a => a | None => 0 end + d))
          else acc
      | None => acc
      end
  end.

(** [parseInt(v)] with no radix. *)
Definition parseInt_string (s : jsstring) : outcome number :=
  let s := trim_start s in
  let '(sign, s) :=
    match s with
    | 45 :: rest => (-1, rest)
    | 43 :: rest => (1, rest)
    | _ => (1, s)
    end in
  let '(radix, s) :=
    match s with
    | 48 :: 120 :: rest | 48 :: 88 :: rest => (16, rest)
    | _ => (10, s)
    end in
  match read_digits radix s None with
  | None => Returns NaN
  | Some n => if n <=? SAFE then Returns (int (sign * n)) else Unmodelled
  end.

Definition parseInt (v : value) : outcome number :=
  obind (ToString v) parseInt_string.

End Value.

Import Value.

(** ** JSON.parse and JSON.stringify *)

Module Json.

Definition is_ws (c : Z) : bool :=
  (c =? 32) || (c =? 9) || (c =? 10) || (c =? 13).

Fixpoint skip_ws (s : jsstring) : jsstring :=
  match s with
  | c :: rest => if is_ws c then skip_ws rest else s
  | [] => []
  end.

Definition is_digit (c : Z) : bool := (48 <=? c) && (c <=? 57).

Fixpoint take_digits (s : jsstring) (acc : Z) : Z * jsstring :=
  match s with
  | c :: rest => if is_digit c then take_digits rest (10 * acc + (c - 48)) else (acc, s)
  | [] => (acc, [])
  end.

(** What follows the integer part of a number: a fraction or an exponent
    is outside the embedding. *)
Definition after_integer (sign n : Z) (rest : jsstring)
  : outcome (value * jsstring) :=
  match rest with
  | 46 :: _ | 101 :: _ | 69 :: _ => Unmodelled
  | _ => if n <=? SAFE then Returns (Num (int (sign * n)), rest) else Unmodelled
  end.

(** An optional minus sign, then a single 0 or digits that start with
    none. *)
Definition parse_number (s : jsstring) : outcome (value * jsstring) :=
  let '(sign, s) :=
    match s with
    | 45 :: rest => (-1, rest)
    | _ => (1, s)
    end in
  match s with
  | 48 :: rest => after_integer sign 0 rest
  | c :: rest =>
      if is_digit c
      then let '(n, rest) := take_digits s 0 in after_integer sign n rest
      else Throws SyntaxError
  | [] => Throws SyntaxError
  end.

Definition hex4 (a b c d : Z) : option Z :=
  match digit_value a, digit_value b, digit_value c, digit_value d with
  | Some x, Some y, Some z, Some w =>
      if (x <? 16) && (y <? 16) && (z <? 16) && (w <? 16)
      then Some (((x * 16 + y) * 16 + z) * 16 + w)
      else None
  | _, _, _, _ => None
  end.

(** The characters of a string literal after its opening quote. *)
Fixpoint parse_chars (fuel : nat) (s acc : jsstring)
  : outcome (jsstring * jsstring) :=
  match fuel with
  | O => Unmodelled
  | S k =>
      match s with
      | [] => Throws SyntaxError
      | 34 :: rest => Returns (rev acc, rest)
      | 92 :: e :: rest =>
          if e =? 34 then parse_chars k rest (34 :: acc)
          else if e =? 92 then parse_chars k rest (92 :: acc)
          else if e =? 47 then parse_chars k rest (47 :: acc)
          else if e =? 98 then parse_chars k rest (8 :: acc)
          else if e =? 102 then parse_chars k rest (12 :: acc)
          else if e =? 110 then parse_chars k rest (10 :: acc)
          else if e =? 114 then parse_chars k rest (13 :: acc)
          else if e =? 116 then parse_chars k rest (9 :: acc)
          else if e =? 117 then
            match rest with
            | a :: b :: c :: d :: rest' =>
                match hex4 a b c d with
                | Some u => parse_chars k rest' (u :: acc)
                | None => Throws SyntaxError
                end
            | _ => Throws SyntaxError
            end
          else Throws SyntaxError
      | c :: rest =>
          if c <? 32 then Throws SyntaxError else parse_chars k rest (c :: acc)
      end
  end.

Definition expect (lit : string) (v : value) (s : jsstring)
  : outcome (value * jsstring) :=
  let l := str lit in
  if jsstring_eqb (firstn (length l) s) l
  then Returns (v, skipn (length l) s)
  else Throws SyntaxError.

(** A value, the items of an array after its bracket, the members of an
    object after its brace. [first] tells that nothing was read yet, so
    that the closing bracket may come at once. *)
Fixpoint parse_value (fuel : nat) (s : jsstring) : outcome (value * jsstring) :=
  match fuel with
  | O => Unmodelled
  | S k =>
      match skip_ws s with
      | 123 :: rest => parse_members k true rest []
      | 91 :: rest => parse_items k true rest []
      | 34 :: rest =>
          obind (parse_chars k rest []) (fun '(t, rest) => Returns (Str t, rest))
      | 116 :: _ => expect "true" (Bool true) (skip_ws s)
      | 102 :: _ => expect "false" (Bool false) (skip_ws s)
      | 110 :: _ => expect "null" Null (skip_ws s)
      | _ => parse_number (skip_ws s)
      end
  end
with parse_items (fuel : nat) (first : bool) (s : jsstring) (acc : list value)
  : outcome (value * jsstring) :=
  match fuel with
  | O => Unmodelled
  | S k =>
      match skip_ws s, first with
      | 93 :: rest, true => Returns (Arr [], rest)
      | _, _ =>
          obind (parse_value k s) (fun '(v, rest) =>
          match skip_ws rest with
          | 44 :: rest' => parse_items k false rest' (v :: acc)
          | 93 :: rest' => Returns (Arr (rev (v :: acc)), rest')
          | _ => Throws SyntaxError
          end)
      end
  end
with parse_members (fuel : nat) (first : bool) (s : jsstring)
    (acc : list (jsstring * value)) : outcome (value * jsstring) :=
  match fuel with
  | O => Unmodelled
  | S k =>
      match skip_ws s, first with
      | 125 :: rest, true => Returns (Obj [], rest)
      | 34 :: rest, _ =>
          obind (parse_chars k rest []) (fun '(key, rest) =>
          match skip_ws rest with
          | 58 :: rest' =>
              obind (parse_value k rest') (fun '(v, rest'') =>
              match skip_ws rest'' with
              | 44 :: r => parse_members k false r ((key, v) :: acc)
              | 125 :: r => Returns (Obj (rev ((key, v) :: acc)), r)
              | _ => Throws SyntaxError
              end)
          | _ => Throws SyntaxError
          end)
      | _, _ => Throws SyntaxError
      end
  end.

(** [JSON.parse(text)]: one value and nothing but white space after it. *)
Definition parse_text (text : jsstring) : outcome value :=
  obind (parse_value (2 * length text + 2) text) (fun '(v, rest) =>
  match skip_ws rest with
  | [] => Returns v
  | _ => Throws SyntaxError
  end).

(** [JSON.parse(x)] where [x] is a string or [null]: the argument is
    turned into text first, and [null] becomes the text of the literal. *)
Definition JSON_parse (x : option jsstring) : outcome value :=
  match x with
  | Some text => parse_text text
  | None => parse_text (str "null")
  end.

Definition hex_digit (k : Z) : Z := nth (Z.to_nat k) (str "0123456789abcdef") 0.

(** [\uXXXX] for a code unit. *)
Definition escape (c : Z) : jsstring :=
  [92; 117; hex_digit (c / 4096 mod 16); hex_digit (c / 256 mod 16);
   hex_digit (c / 16 mod 16); hex_digit (c mod 16)].

Definition is_high (c : Z) : bool := (55296 <=? c) && (c <=? 56319).
Definition is_low (c : Z) : bool := (56320 <=? c) && (c <=? 57343).

(** The characters of a string between its quotes in [JSON.stringify]:
    the quote, the backslash and the control characters are escaped, and
    so is a surrogate that has no partner. *)
Fixpoint quote_chars (s : jsstring) : jsstring :=
  match s with
  | [] => []
  | c :: rest =>
      if is_high c then
        match rest with
        | d :: rest' =>
            if is_low d then c :: d :: quote_chars rest'
            else escape c ++ quote_chars rest
        | [] => escape c
        end
      else if is_low c then escape c ++ quote_chars rest
      else if c =? 34 then 92 :: 34 :: quote_chars rest
      else if c =? 92 then 92 :: 92 :: quote_chars rest
      else if c =? 8 then 92 :: 98 :: quote_chars rest
      else if c =? 12 then 92 :: 102 :: quote_chars rest
      else if c =? 10 then 92 :: 110 :: quote_chars rest
      else if c =? 13 then 92 :: 114 :: quote_chars rest
      else if c =? 9 then 92 :: 116 :: quote_chars rest
      else if c <? 32 then escape c ++ quote_chars rest
      else c :: quote_chars rest
  end.

Definition quote (s : jsstring) : jsstring := 34 :: quote_chars s ++ [34].

Fixpoint join (sep : jsstring) (parts : list jsstring) : jsstring :=
  match parts with
  | [] => []
  | [x] => x
  | x :: rest => x ++ sep ++ join sep rest
  end.

(** [JSON.stringify(v)]; [None] is [undefined]. An [Obj] lists its
    members in the order the engine enumerates them. A member whose value
    is [undefined] is left out, an item that is [undefined] is written
    [null], and so is a number that is not finite. *)
Fixpoint stringify (v : value) : outcome (option jsstring) :=
  match v with
  | Undefined => Returns None
  | Null => Returns (Some (str "null"))
  | Bool true => Returns (Some (str "true"))
  | Bool false => Returns (Some (str "false"))
  | Num NaN | Num (Infinity _) => Returns (Some (str "null"))
  | Num n => obind (number_to_string n) (fun t => Returns (Some t))
  | Str s => Returns (Some (quote s))
  | Arr items =>
      obind
        ((fix go (l : list value) : outcome (list jsstring) :=
            match l with
            | [] => Returns []
            | x :: rest =>
                obind (stringify x) (fun sx =>
                obind (go rest) (fun sr =>
                Returns (match sx with Some t => t | None => str "null" end :: sr)))
            end) items)
        (fun parts => Returns (Some (str "[" ++ join (str ",") parts ++ str "]")))
  | Obj props =>
      obind
        ((fix go (l : list (jsstring * value)) : outcome (list jsstring) :=
            match l with
            | [] => Returns []
            | (k, x) :: rest =>
                obind (stringify x) (fun sx =>
                obind (go rest) (fun sr =>
                Returns (match sx with
                         | Some t => (quote k ++ str ":" ++ t) :: sr
                         | None => sr
                         end)))
            end) props)
        (fun parts => Returns (Some (str "{" ++ join (str ",") parts ++ str "}")))
  end.

Definition JSON_stringify (v : value) : outcome (option jsstring) := stringify v.

End Json.

Import Json.

(** ** The tryte codec of the IOTA client ([asciiToTrytes]) and [rtrim] *)

Module Trytes.

Definition tryteAlphabet : jsstring := str "9ABCDEFGHIJKLMNOPQRSTUVWXYZ".

(** [t[k]]. *)
Definition tryte (k : Z) : Z := nth (Z.to_nat k) tryteAlphabet 0.

(** [toTrytes] on a string; [None] is [null], returned at the first code
    unit above 255. *)
Fixpoint toTrytes (e : jsstring) : option jsstring :=
  match e with
  | [] => Some []
  | i :: rest =>
      if 255 <? i then None
      else
        let o := i mod 27 in
        match toTrytes rest with
        | Some r => Some (tryte o :: tryte ((i - o) / 27) :: r)
        | None => None
        end
  end.

(** [t.indexOf(c)]: -1 when [c] is not in the alphabet. *)
Fixpoint index_from (c : Z) (t : jsstring) (k : Z) : Z :=
  match t with
  | [] => -1
  | x :: rest => if x =? c then k else index_from c rest (k + 1)
  end.

Definition indexOf (c : Z) : Z := index_from c tryteAlphabet 0.

(** [String.fromCharCode(o)]: the code is taken modulo 2^16. *)
Definition fromCharCode (o : Z) : Z := o mod 65536.

Fixpoint fromTrytes_pairs (e : jsstring) : jsstring :=
  match e with
  | a :: b :: rest =>
      fromCharCode (indexOf a + 27 * indexOf b) :: fromTrytes_pairs rest
  | _ => []
  end.

(** [fromTrytes] on a string; [None] is [null], returned for a string of
    odd length. *)
Definition fromTrytes (e : jsstring) : option jsstring :=
  if Nat.odd (length e) then None else Some (fromTrytes_pairs e).

(** [rtrim(char, str)]. The recursion of the source ends when the string
    no longer ends in [char]; for the empty [char] it never does, and
    the fuel runs out ([None]). *)
Fixpoint rtrim_rec (fuel : nat) (char s : jsstring) : option jsstring :=
  match fuel with
  | O => None
  | S k =>
      let n := Z.of_nat (length s) in
      let m := Z.of_nat (length char) in
      if jsstring_eqb (slice_from s (n - m)) char
      then rtrim_rec k char (slice s 0 (0 - m))
      else Some s
  end.

Definition rtrim (char s : jsstring) : option jsstring :=
  rtrim_rec (S (length s)) char s.

End Trytes.

Import Trytes.

(** ** The world the scripts act on *)

Module Effects.

(** An [Error] object handed to a callback by the ledger client. *)
Inductive error := Error (message : jsstring).

(** A transaction object, of which the program reads one field. *)
Record transaction := { signatureMessageFragment : jsstring }.

(** An element of the [transfers] array; a [message] of [None] is [null]. *)
Record transfer := {
  transfer_value : Z;
  transfer_address : jsstring;
  transfer_message : option jsstring }.

Inductive logged :=
  | LogValue (v : value)
  | LogError (e : error)
  | LogTransactions (txs : list transaction).

(** The calls the program makes on [iota.api]. *)
Inductive request :=
  | FindTransactionObjects (addresses : list jsstring)
  | SendTransfer (seed : jsstring) (depth minWeightMagnitude : Z)
      (transfers : list transfer).

(** The arguments [(error, success)] of an error-first callback. *)
Inductive reply (A : Type) :=
  | Failure (e : error)
  | Success (a : A).

Arguments Failure {A} e.
Arguments Success {A} a.

(** The ledger client: what it answers to each call. *)
Record IOTA := {
  findTransactionObjects_reply : list jsstring -> reply (list transaction);
  sendTransfer_reply :
    jsstring -> Z -> Z -> list transfer -> reply (list transaction) }.

(** The console, the calls made on the ledger client, the exceptions that
    left a callback of the client uncaught, and the classes of the page's
    elements by selector. *)
Record world := mkWorld {
  console : list (list logged);
  requests : list request;
  uncaught : list exn;
  classes : gmap jsstring (gset jsstring) }.

Definition M (A : Type) : Type := world -> outcome A * world.

#[export] Instance M_ret : MRet M := fun A a w => (Returns a, w).

#[export] Instance M_bind : MBind M := fun A B f m w =>
  match m w with
  | (Returns a, w') => f a w'
  | (Throws e, w') => (Throws e, w')
  | (Unmodelled, w') => (Unmodelled, w')
  end.

(** An expression evaluated inside a statement. *)
Definition eval {A} (o : outcome A) : M A := fun w => (o, w).

(** The world once lines are written to the console. *)
Definition logging (lines : list (list logged)) (w : world) : world :=
  mkWorld (console w ++ lines) (requests w) (uncaught w) (classes w).

(** [console.log(...)]. *)
Definition console_log (args : list logged) : M unit := fun w =>
  (Returns tt, logging [args] w).

(** What the client makes of the run of a callback: an exception does
    not reach the caller of the client, it is left uncaught. *)
Definition settle (r : outcome unit * world) : outcome unit * world :=
  match r with
  | (Returns _, w') => (Returns tt, w')
  | (Throws e, w') =>
      (Returns tt,
       mkWorld (console w') (requests w') (uncaught w' ++ [e]) (classes w'))
  | (Unmodelled, w') => (Unmodelled, w')
  end.

(** The world once a call on the client is recorded. *)
Definition requested (r : request) (w : world) : world :=
  mkWorld (console w) (requests w ++ [r]) (uncaught w) (classes w).

(** A call on [iota.api] with its callback. The call is recorded and the
    reply is handed to the callback, once. The source runs the callback
    after its caller has returned; the callbacks of this program write to
    the console only, so the order is not kept. *)
Definition call {A} (r : request) (answer : reply A) (callback : reply A -> M unit)
  : M unit := fun w => settle (callback answer (requested r w)).

Definition class_set (w : world) (selector : jsstring) : gset jsstring :=
  default ∅ (classes w !! selector).

(** [$(selector).addClass(name)] and [removeClass]. *)
Definition addClass (selector name : jsstring) : M unit := fun w =>
  (Returns tt,
   mkWorld (console w) (requests w) (uncaught w)
     (<[selector := class_set w selector ∪ {[name]}]> (classes w))).


Definition hasClass (w : world) (selector name : jsstring) : Prop :=
  name ∈ class_set w selector.

(** A [for] loop over the elements of an array, threading the variables
    the body assigns. *)
Fixpoint for_each {A S} (l : list A) (body : A -> S -> M S) (s : S) : M S :=
  match l with
  | [] => mret s
  | x :: rest => s' ← body x s; for_each rest body s'
  end.

End Effects.

Import Effects.

(** ** The rating store (reader.js, [get_rating] and [push_rating]) *)

Module Rating.

(** The members every object inherits from [Object.prototype]. *)
Definition Object_prototype : list jsstring :=
  List.map str
    [ "constructor"; "hasOwnProperty"; "isPrototypeOf"; "propertyIsEnumerable";
      "toLocaleString"; "toString"; "valueOf"; "__proto__";
      "__defineGetter__"; "__defineSetter__"; "__lookupGetter__";
      "__lookupSetter__" ]%string.

(** [rating[key] += 1] on an object whose own members are numbers. A
    member the object lacks reads [undefined], and [undefined + 1] is
    [NaN]. *)
Definition increment (rating : gmap jsstring number) (key : jsstring)
  : outcome (gmap jsstring number) :=
  match rating !! key with
  | Some n => Returns (<[key := add n (int 1)]> rating)
  | None =>
      if existsb (jsstring_eqb key) Object_prototype then Unmodelled
      else Returns (<[key := NaN]> rating)
  end.

(** The object literal [get_rating] starts from. *)
Definition initial_rating (total : number) : gmap jsstring number :=
  <[str "avg" := int 0]> (
  <[str "total" := total]> (
  <[str "1" := int 0]> (
  <[str "2" := int 0]> (
  <[str "3" := int 0]> (
  <[str "4" := int 0]> (
  <[str "5" := int 0]> ∅)))))).

(** The body of the loop of [get_rating], on the record [x] and the
    variables [rating] and [sum]. *)
Definition get_rating_step (x : transaction)
    (vars : gmap jsstring number * number)
  : M (gmap jsstring number * number) :=
  let '(rating, sum) := vars in
  let tmp := signatureMessageFragment x in
  tmp ← eval (match rtrim (str "9") tmp with
              | Some t => Returns t
              | None => Throws RangeError
              end);
  let res := fromTrytes tmp in
  console_log [LogValue (match res with Some t => Str t | None => Null end)];;
  res ← eval (JSON_parse res);
  member ← eval (get_rating_member res);
  key ← eval (ToString member);
  rating ← eval (increment rating key);
  n ← eval (parseInt member);
  let sum := add sum n in
  console_log [LogValue (Num sum)];;
  mret (rating, sum).

(** The callback [get_rating] hands to [findTransactionObjects]. *)
Definition get_rating_callback (callback : gmap jsstring number -> M unit)
    (answer : reply (list transaction)) : M unit :=
  match answer with
  | Failure error => console_log [LogError error]
  | Success success =>
      let total := int (Z.of_nat (length success)) in
      let rating := initial_rating total in
      let sum := int 0 in
      '(rating, sum) ← for_each success get_rating_step (rating, sum);
      let avg := div sum total in
      let rating := <[str "avg" := avg]> rating in
      callback rating
  end.

Definition get_rating (iota : IOTA) (book_addr : jsstring)
    (callback : gmap jsstring number -> M unit) : M unit :=
  call (FindTransactionObjects [book_addr])
       (findTransactionObjects_reply iota [book_addr])
       (get_rating_callback callback).




(** The rating codec of the specification, put together from the steps
    of the source: [encode] is [JSON.stringify] of the object the vote
    handler builds followed by the [toTrytes] of [push_rating]; [decode]
    is what the loop of [get_rating] does to a message fragment to get
    the number it adds to [sum]. *)
Definition encode_value (v : value) : outcome (option jsstring) :=
  obind (JSON_stringify (Obj [(str "rating", v)])) (fun json =>
  match json with
  | Some text => Returns (toTrytes text)
  | None => Returns None
  end).

Definition encode (r : Z) : outcome (option jsstring) :=
  encode_value (Num (int r)).

Definition decode (payload : jsstring) : outcome number :=
  obind (match rtrim (str "9") payload with
         | Some t => Returns t
         | None => Throws RangeError
         end) (fun tmp =>
  obind (JSON_parse (fromTrytes tmp)) (fun res =>
  obind (get_rating_member res) parseInt)).

(** [isTrytes(e, n)] and [isAddress] of the client's input validator
    (the test [/^[9A-Z]{n}$/]), which [sendTransfer] applies to the
    address of a transfer. *)
Definition is_tryte (c : Z) : bool := (c =? 57) || ((65 <=? c) && (c <=? 90)).

Definition isTrytes (e : jsstring) (n : nat) : bool :=
  (length e =? n)%nat && forallb is_tryte e.

Definition isAddress (e : jsstring) : bool :=
  if (length e =? 90)%nat then isTrytes e 90 else isTrytes e 81.

End Rating.

Import Rating.

(** ** The reader controller (reader_controller.js) *)

Module Reader.

(** [location.end.displayed] of the rendition's [relocated] event. *)
Record displayed := { total : Z; page : Z }.

Record location := {
  end_displayed : displayed;
  atStart : bool;
  atEnd : bool }.

Definition voting : jsstring := str "#votingModal".
Definition next : jsstring := str "#next".
Definition prev : jsstring := str "#prev".

(** The handler of [rendition.on('relocated', ...)]. *)
Definition relocated (location : location) : M unit :=
  let total := total (end_displayed location) in
  let page := page (end_displayed location) in
  (if page =? total - 1
   then
     console_log [LogValue (Str (str "relocated %d")); LogValue (Num (int page))];;
     addClass voting (str "md-show")
   else mret tt);;
  (if atStart location then addClass prev (str "disabled") else mret tt);;
  (if atEnd location then addClass next (str "disabled") else mret tt).

End Reader.

Import Reader.

(** ** The static file server (server.js and unnamed/part_001)

    The repository holds the script of the server twice. The two build
    the same application: a router with two static directories, a
    logging middleware and four routes, mounted at the root, and after
    it a handler for every address that answers with the page 404. They
    differ in the mount of the second static directory, in the last
    route and in the port. Express and serve-static are not part of the
    sources: what [send] makes of a root and a path is a parameter, and
    a request is a GET request, given by the path of its address. *)

Module Server.

(** What is mounted on the router, in the order of the source:
    [router.use(mount, express.static(root))] (the mount is [/] when
    none is given), the logging middleware, which writes to the console
    and passes on, and [router.get(path, ...)] with the file its handler
    hands to [res.sendFile]. *)
Inductive layer :=
  | Static (mount root : jsstring)
  | Log
  | Route (path file : jsstring).

(** A script: its router, and the port it hands to [listen] and to
    [app.listen], given the environment. *)
Record script := {
  router : list layer;
  port : gmap jsstring jsstring -> value }.

(** src/server.js: both static directories at the root, the route
    [/sleep], and the port 3000. *)
Definition server_js : script :=
  {| router :=
       [ Static (str "/") (str "public");
         Static (str "/") (str "reader/reader");
         Log;
         Route (str "/") (str "index.html");
         Route (str "/about") (str "about.html");
         Route (str "/contact") (str "contact.html");
         Route (str "/sleep") (str "reader/reader/reader.html") ];
     port := fun _ => Num (int 3000) |}.

(** src/unnamed/part_001: [reader/reader] under [/books], the route
    [/books], and [process.env.PORT || 3000]: a variable of the
    environment is a string, and the empty string counts as unset. *)
Definition part_001 : script :=
  {| router :=
       [ Static (str "/") (str "public");
         Static (str "/books") (str "reader/reader");
         Log;
         Route (str "/") (str "index.html");
         Route (str "/about") (str "about.html");
         Route (str "/contact") (str "contact.html");
         Route (str "/books") (str "reader/reader/reader.html") ];
     port := fun env =>
       match env !! str "PORT" with
       | Some (c :: t) => Str (c :: t)
       | _ => Num (int 3000)
       end |}.

(** [app.use("*", ...)], which answers what the router passed on. *)
Definition fallback : jsstring := str "404.html".

Definition lower (c : Z) : Z :=
  if (65 <=? c) && (c <=? 90) then c + 32 else c.

Definition without_slash (p : jsstring) : jsstring :=
  match rev p with
  | 47 :: r => rev r
  | _ => p
  end.

(** Express matches the path of a route without regard to case and with
    or without one trailing slash. *)
Definition route_matches (pattern path : jsstring) : bool :=
  let base := List.map lower (without_slash pattern) in
  let p := List.map lower path in
  jsstring_eqb p base || jsstring_eqb p (base ++ str "/").

(** The path a middleware mounted at [mount] is given, [None] when the
    mount does not cover the path. The mount [/] covers every path and
    takes nothing off. Another mount covers the paths that continue it
    at a slash or end with it, without regard to case; the mount is
    taken off, with the slash after it when the path ends there or
    another slash follows. *)
Definition under (mount path : jsstring) : option jsstring :=
  if jsstring_eqb mount (str "/") then Some path
  else
    let base := List.map lower (without_slash mount) in
    let n := length base in
    if jsstring_eqb (List.map lower (firstn n path)) base
    then match skipn n path with
         | [] => Some (str "/")
         | 47 :: [] => Some (str "/")
         | 47 :: 47 :: r => Some (47 :: r)
         | 47 :: r => Some (47 :: r)
         | _ => None
         end
    else None.

(** What [send] of serve-static does for a root and a path: it streams
    a file (the file at the path, or the index of a directory asked with
    its slash), meets a directory asked without its slash, finds nothing
    it may send (an error below 500, which express.static passes over),
    or fails (an error from 500 on, which express.static passes on as an
    error). *)
Inductive sent := Stream | Directory | NotFound | Broken.

(** The answers: a file of a static directory, the redirection (301) to
    the address of the request with a slash appended, the error passed
    on, and the file a handler hands to [res.sendFile]. *)
Inductive response :=
  | Asset (root relative : jsstring)
  | Redirect (address : jsstring)
  | ServerError
  | SendFile (file : jsstring).

Definition ends_with_slash (path : jsstring) : bool :=
  match rev path with
  | 47 :: _ => true
  | _ => false
  end.

(** The path serve-static asks [send] for: the empty path in place of
    [/] when the address of the request does not end in a slash, so that
    the redirection happens at the mount. *)
Definition asked (relative original : jsstring) : jsstring :=
  if jsstring_eqb relative (str "/") && negb (ends_with_slash original)
  then [] else relative.

Section Dispatch.

Variable send : jsstring -> jsstring -> sent.

(** The directory of the script ([__dirname + "/"]). *)
Variable path : jsstring.

(** [express.static(root)] on a request: [None] when it passes on. *)
Definition static (root relative original : jsstring) : option response :=
  match send root (asked relative original) with
  | Stream => Some (Asset root (asked relative original))
  | Directory => Some (Redirect original)
  | NotFound => None
  | Broken => Some ServerError
  end.

Fixpoint dispatch (layers : list layer) (url : jsstring) : response :=
  match layers with
  | [] => SendFile (path ++ fallback)
  | Static mount root :: rest =>
      match under mount url with
      | Some relative =>
          match static root relative url with
          | Some answer => answer
          | None => dispatch rest url
          end
      | None => dispatch rest url
      end
  | Log :: rest => dispatch rest url
  | Route pattern file :: rest =>
      if route_matches pattern url
      then SendFile (path ++ file)
      else dispatch rest url
  end.

(** The answer of a script to a GET request for [url]. *)
Definition serve (s : script) (url : jsstring) : response :=
  dispatch (router s) url.

End Dispatch.

(** The paths registered with [router.get], with the files of their
    handlers. *)
Definition routes (s : script) : list (jsstring * jsstring) :=
  flat_map (fun l => match l with Route p f => [(p, f)] | _ => [] end)
    (router s).

(** The directories handed to [express.static], with their mounts. *)
Definition static_roots (s : script) : list (jsstring * jsstring) :=
  flat_map (fun l => match l with Static m r => [(m, r)] | _ => [] end)
    (router s).

(** No static directory of the script answers the request: [send] finds
    nothing under any root whose mount covers the path. *)
Definition unanswered (send : jsstring -> jsstring -> sent) (s : script)
    (url : jsstring) : Prop :=
  forall mount root relative,
    (mount, root) ∈ static_roots s ->
    under mount url = Some relative ->
    send root (asked relative url) = NotFound.

(** Two file systems: one without any file, and one in which the
    directory [reader/reader] exists, with the file [js/reader.js]. *)
Definition no_files : jsstring -> jsstring -> sent := fun _ _ => NotFound.

Definition reader_files : jsstring -> jsstring -> sent := fun root p =>
  if jsstring_eqb root (str "reader/reader")
  then if jsstring_eqb p [] then Directory
       else if jsstring_eqb p (str "/js/reader.js") then Stream
       else NotFound
  else NotFound.

End Server.

Import Server.

(** ** The vocabulary of the specification *)

Module Spec.

(** The digits and the letters a to f, and the same with A to F. *)
Definition is_hex_lower (c : Z) : bool :=
  ((48 <=? c) && (c <=? 57)) || ((97 <=? c) && (c <=? 102)).

Definition is_hex_upper (c : Z) : bool :=
  ((48 <=? c) && (c <=? 57)) || ((65 <=? c) && (c <=? 70)).

(** An address made of [head] characters of the alphabet 9, A to Z
    followed by [tail] fillers and nothing else. *)
Definition address_pattern (head tail : nat) (a : jsstring) : Prop :=
  length a = (head + tail)%nat
  /\ Forall (fun c => is_tryte c = true) (take head a)
  /\ drop head a = replicate tail (char "9").

(** The summary object with its seven members. *)
Definition summary (c1 c2 c3 c4 c5 total avg : number) : gmap jsstring number :=
  <[str "avg" := avg]> (
  <[str "total" := total]> (
  <[str "1" := c1]> (
  <[str "2" := c2]> (
  <[str "3" := c3]> (
  <[str "4" := c4]> (
  <[str "5" := c5]> ∅)))))).

(** The message of a vote [r], and the record the ledger holds for it:
    the message followed by fillers (the client pads a fragment). *)
Definition payload (r : Z) : jsstring :=
  match encode r with
  | Returns (Some t) => t
  | _ => []
  end.

Definition stored (vote : Z * nat) : transaction :=
  {| signatureMessageFragment :=
       payload (fst vote) ++ replicate (snd vote) (char "9") |}.

(** How many of the votes are [r], and the sum of the votes. *)
Definition tally (r : Z) (votes : list Z) : Z :=
  Z.of_nat (length (filter (fun v => v = r) votes)).

Definition sum_of (votes : list Z) : Z := foldr Z.add 0 votes.

(** The count of the value [i] once a vote [r] is added to [c]. *)
Definition bump (r i c : Z) : Z := if r =? i then c + 1 else c.

(** What [get_rating] writes to the console for the votes, from the
    running sum [sum] on: the text of each record and the sum so far. *)
Fixpoint rating_log (sum : Z) (votes : list Z) : list (list logged) :=
  match votes with
  | [] => []
  | r :: rest =>
      [LogValue (match fromTrytes (payload r) with
                 | Some t => Str t
                 | None => Null
                 end)]
        :: [LogValue (Num (int (sum + r)))]
        :: rating_log (sum + r) rest
  end.

End Spec.

Import Spec.

(** ** Sample ledgers and worlds *)

Module Sample.

(** A world in which nothing happened yet. *)
Definition quiet : world := mkWorld [] [] [] ∅.

(** A callback that writes the average it is given to the console. *)
Definition report (rating : gmap jsstring number) : M unit :=
  console_log [LogValue (Num (default NaN (rating !! str "avg")))].

(** A ledger that holds the votes 5, 5 and 3 at every address. *)
Definition ledger_5_5_3 : IOTA :=
  {| findTransactionObjects_reply := fun _ =>
       Success (stored <$> [(5, 0%nat); (5, 2%nat); (3, 1%nat)]);
     sendTransfer_reply := fun _ _ _ _ => Success [] |}.

(** A ledger that holds no record. *)
Definition empty_ledger : IOTA :=
  {| findTransactionObjects_reply := fun _ => Success [];
     sendTransfer_reply := fun _ _ _ _ => Success [] |}.

(** A ledger whose every call fails. *)
Definition failing_ledger : IOTA :=
  {| findTransactionObjects_reply := fun _ => Failure (Error (str "Request Error"));
     sendTransfer_reply := fun _ _ _ _ => Failure (Error (str "Request Error")) |}.

End Sample.

Import Sample.

(** ** Tactics *)

(** The code of a character literal, computed. *)
Ltac eval_chars :=
  repeat match goal with
         | H : context [char ?a] |- _ =>
             let v := eval vm_compute in (char a) in
             change (char a) with v in H
         | |- context [char ?a] =>
             let v := eval vm_compute in (char a) in
             change (char a) with v
         end.

(** Cases on the character a variable holds, one test at a time. *)
Ltac split_on_char :=
  repeat match goal with
         | |- context [?x =? char ?a] =>
             is_var x;
             destruct (Z.eqb_spec x (char a)) as [-> | ?]; [reflexivity |]
         end.

(** The five values of a vote. *)
Ltac vote_cases r :=
  match goal with
  | H : 1 <= r <= 5 |- _ =>
      assert (r = 1 \/ r = 2 \/ r = 3 \/ r = 4 \/ r = 5) as
        [-> | [-> | [-> | [-> | ->]]]] by lia;
      clear H
  end.

(** Two keys given by literals differ. *)
Ltac distinct_keys :=
  let E := fresh in intros E; vm_compute in E; discriminate E.

(** * Further parts of the program *)

(** ** Ranges of bytes and characters, and the ballots of the page *)

(** A byte, a UTF-16 code unit, and a character the tryte codec can
    encode. *)
Definition is_byte (b : Z) : Prop := 0 <= b < 256.

Definition is_code_unit (c : Z) : Prop := 0 <= c < 65536.

Definition is_latin1 (c : Z) : Prop := 0 <= c <= 255.

(** What the vote handler makes of the value of the field: the chosen
    digit as a string, or the number 0 when nothing is chosen. *)
Definition ballot_value (b : option Z) : value :=
  match b with
  | Some r => Str (decimal r)
  | None => Num (int 0)
  end.

(** The number the summary adds for it. *)
Definition ballot_number (b : option Z) : Z := default 0 b.

(** The message the handler sends for it, and the record the ledger
    holds: the message followed by fillers. *)
Definition ballot_payload (b : option Z) : jsstring :=
  match encode_value (ballot_value b) with
  | Returns (Some t) => t
  | _ => []
  end.

(** A record of the ledger for a ballot, with a number of fillers. *)
Definition cast (ballot : option Z * nat) : transaction :=
  {| signatureMessageFragment :=
       ballot_payload (fst ballot) ++ replicate (snd ballot) (char "9") |}.

(** A ballot the page can produce: one of the five values, or none. *)
Definition from_page (b : option Z) : Prop :=
  match b with
  | Some r => 1 <= r <= 5
  | None => True
  end.

(** The summary with the member "0" that a vote without value adds. *)
Definition summary0 (unset : bool) (c1 c2 c3 c4 c5 total avg : number)
  : gmap jsstring number :=
  if unset
  then <[str "0" := NaN]> (summary c1 c2 c3 c4 c5 total avg)
  else summary c1 c2 c3 c4 c5 total avg.

(** No value was chosen. *)
Definition is_unset (b : option Z) : bool :=
  match b with
  | Some _ => false
  | None => true
  end.

(** What the loop of [get_rating] writes to the console for the ballots:
    the decoded message and the running sum, for each. *)
Fixpoint ballot_log (sum : Z) (ballots : list (option Z)) : list (list logged) :=
  match ballots with
  | [] => []
  | b :: rest =>
      [LogValue (match fromTrytes (ballot_payload b) with
                 | Some t => Str t
                 | None => Null
                 end)]
        :: [LogValue (Num (int (sum + ballot_number b)))]
        :: ballot_log (sum + ballot_number b) rest
  end.

(** A ledger with a vote of 5 and a vote without value. *)
Definition ledger_5_unset : IOTA :=
  {| findTransactionObjects_reply := fun _ =>
       Success (cast <$> [(Some 5, 0%nat); (None, 4%nat)]);
     sendTransfer_reply := fun _ _ _ _ => Success [] |}.


(** A ledger with a record that holds fillers only, between two votes. *)
Definition ledger_with_blank : IOTA :=
  {| findTransactionObjects_reply := fun _ =>
       Success ((cast <$> [(Some 5, 0%nat)])
                  ++ {| signatureMessageFragment := replicate 6 (char "9") |}
                  :: [cast (Some 4, 0%nat)]);
     sendTransfer_reply := fun _ _ _ _ => Success [] |}.

(** ** The book path (reader_controller.js, [getBookPath]) *)

Module BookPath.

(** [s.split(sep)] for a separator of one character: the pieces between
    its occurrences, at least one piece. *)
Fixpoint split (sep : Z) (s : jsstring) : list jsstring :=
  match s with
  | [] => [[]]
  | c :: rest =>
      if c =? sep then [] :: split sep rest
      else match split sep rest with
           | piece :: pieces => (c :: piece) :: pieces
           | [] => [[c]]
           end
  end.

(** [pairs[key] = v] on the object literal [{}]: the member is set,
    except that a string or [undefined] assigned to [__proto__] is
    dropped by the setter of the prototype. [None] is [undefined]. *)
Definition assign (pairs : gmap jsstring (option jsstring)) (key : jsstring)
    (v : option jsstring) : gmap jsstring (option jsstring) :=
  if jsstring_eqb key (str "__proto__") then pairs else <[key := v]> pairs.

(** The body of the loop over the parameters. *)
Definition getBookPath_step (param : jsstring)
    (pairs : gmap jsstring (option jsstring))
  : M (gmap jsstring (option jsstring)) :=
  let pair := split (char "=") param in
  let pairs := assign pairs (default [] (pair !! 0%nat)) (pair !! 1%nat) in
  console_log [LogValue (match pair !! 1%nat with
                         | Some v => Str v
                         | None => Undefined
                         end)];;
  mret pairs.

(** [getBookPath()] for the address [href] of the page. The empty object
    comes back when the address has no query; a query without the
    parameter [bookPath], or with one that has no value, ends in the
    [TypeError] of [undefined.split]. *)
Definition getBookPath (href : jsstring) : M value :=
  match split (char "?") href !! 1%nat with
  | None | Some [] => mret (Obj [])
  | Some query =>
      let params := split (char "&") query in
      pairs ← for_each params getBookPath_step ∅;
      match pairs !! str "bookPath" with
      | Some (Some v) =>
          let res := split (char "#") v in
          mret (Str (default [] (res !! 0%nat)))
      | _ => eval (Throws TypeError)
      end
  end.

End BookPath.

Import BookPath.

(** ** The vote handler (reader_controller.js, [$votingSubmit]) *)



(** The name of a parameter: what stands before its first [=]. *)
Definition param_name (param : jsstring) : jsstring :=
  default [] (split (char "=") param !! 0%nat).

(** ** Addresses of resources (reader.js, [EPUBJS.core.folder], [uri] and
      [resolveUrl]) *)

Module Url.

(** [s.lastIndexOf(c)] for a character: -1 when there is none. *)
Fixpoint last_from (c : Z) (s : jsstring) (i found : Z) : Z :=
  match s with
  | [] => found
  | x :: rest => last_from c rest (i + 1) (if x =? c then i else found)
  end.

Definition lastIndexOf (c : Z) (s : jsstring) : Z := last_from c s 0 (-1).

Fixpoint starts_with (pat s : jsstring) : bool :=
  match pat, s with
  | [], _ => true
  | _ :: _, [] => false
  | p :: pat', x :: s' => (p =? x) && starts_with pat' s'
  end.

(** [s.indexOf(pat)] for a string: the first place where [pat] stands,
    -1 when there is none. *)
Fixpoint index_of_from (pat s : jsstring) (i : Z) : Z :=
  if starts_with pat s then i
  else match s with
       | [] => -1
       | _ :: rest => index_of_from pat rest (i + 1)
       end.

Definition indexOf (pat s : jsstring) : Z := index_of_from pat s 0.

(** [s.replace(pat, '')] for a string [pat]: its first occurrence is
    taken out. *)
Fixpoint remove_first (pat s : jsstring) : jsstring :=
  if starts_with pat s then skipn (length pat) s
  else match s with
       | [] => []
       | x :: rest => x :: remove_first pat rest
       end.

(** [EPUBJS.core.folder]: everything up to the last slash, with it. *)
Definition folder (url : jsstring) : jsstring :=
  let lastSlash := lastIndexOf (char "/") url in
  slice url 0 (lastSlash + 1).

(** The object [uri] returns. The member [search] is set only when the
    address has a question mark; [base] is a number in the branch of a
    [blob:] address and a string otherwise. *)
Record uri_parts := {
  protocol : jsstring;
  host : jsstring;
  path : jsstring;
  origin : jsstring;
  directory : jsstring;
  base : value;
  filename : jsstring;
  extension : jsstring;
  fragment : jsstring;
  href : jsstring;
  search : option jsstring }.

(** [url.indexOf(0, fragment)]: the place of the character 0 from the
    position [fragment] on (a negative position counts as 0). *)
Definition indexOf_zero_from (url : jsstring) (position : Z) : Z :=
  let start := Z.min (Z.max position 0) (Z.of_nat (length url)) in
  let found := indexOf (str "0") (skipn (Z.to_nat start) url) in
  if found <? 0 then -1 else start + found.

(** [EPUBJS.core.uri]. The assignment [href = uri.href] to a global of
    the page is left out. *)
Definition uri (url : jsstring) : uri_parts :=
  let blob := indexOf (str "blob:") url in
  let doubleSlash := indexOf (str "://") url in
  let search_at := indexOf (str "?") url in
  let fragment_at := indexOf (str "#") url in
  if blob =? 0 then
    {| protocol := str "blob"; host := []; path := []; origin := [];
       directory := [];
       base := Num (int (indexOf_zero_from url fragment_at));
       filename := []; extension := []; fragment := []; href := url;
       search := None |}
  else
    let uri_fragment :=
      if fragment_at =? -1 then [] else slice_from url (fragment_at + 1) in
    let url1 := if fragment_at =? -1 then url else slice url 0 fragment_at in
    let uri_search :=
      if search_at =? -1 then None else Some (slice_from url1 (search_at + 1)) in
    let url2 := if search_at =? -1 then url1 else slice url1 0 search_at in
    if doubleSlash =? -1 then
      let directory := folder url2 in
      let filename := remove_first directory url2 in
      let dot := lastIndexOf (char ".") filename in
      {| protocol := []; host := []; path := url2; origin := [];
         directory := directory; base := Str directory;
         filename := filename;
         extension := if dot =? -1 then [] else slice_from filename (dot + 1);
         fragment := uri_fragment; href := url; search := uri_search |}
    else
      let protocol := slice url2 0 doubleSlash in
      let withoutProtocol := slice_from url2 (doubleSlash + 3) in
      let firstSlash := indexOf (str "/") withoutProtocol in
      (* with no slash the host is taken from [uri.path], empty so far *)
      let host :=
        if firstSlash =? -1 then [] else slice withoutProtocol 0 firstSlash in
      let path :=
        if firstSlash =? -1 then [] else slice_from withoutProtocol firstSlash in
      let origin := protocol ++ str "://" ++ host in
      let directory := folder path in
      let base := origin ++ directory in
      let filename := remove_first base url2 in
      let dot := lastIndexOf (char ".") filename in
      {| protocol := protocol; host := host; path := path; origin := origin;
         directory := directory; base := Str base;
         filename := filename;
         extension := if dot =? -1 then [] else slice_from filename (dot + 1);
         fragment := uri_fragment; href := url; search := uri_search |}.

(** The loop of [resolveUrl] over the pieces of the path: [".."] takes
    the last folder away, any other piece is kept. *)
Fixpoint resolve_pieces (paths : list jsstring)
    (folders segments : list jsstring) : list jsstring * list jsstring :=
  match paths with
  | [] => (folders, segments)
  | p :: rest =>
      if jsstring_eqb p (str "..")
      then resolve_pieces rest (removelast folders) segments
      else resolve_pieces rest folders (segments ++ [p])
  end.

(** [EPUBJS.core.resolveUrl]. *)
Definition resolveUrl (base path : jsstring) : jsstring :=
  let u := uri path in
  let folders := split (char "/") base in
  match host u with
  | _ :: _ => path
  | [] =>
      let folders := removelast folders in
      let paths := split (char "/") path in
      let '(folders, segments) := resolve_pieces paths folders [] in
      join (str "/") (folders ++ segments)
  end.

End Url.

(** ** [EPUBJS.core]: search and insertion in a sorted array

    The arrays hold integers. [None] is [undefined]: an argument that is
    not passed, an element read outside the array, a comparison without
    result. The functions call themselves on a smaller range; the fuel
    bounds the depth, and the length of the array is always enough. *)

Module Core.

(** The comparison that is used when none is passed. Its last test is
    the assignment [a = b], which yields [b]: for a falsy [b] the
    function falls through and returns [undefined]. *)
Definition compare_default (a : option Z) (b : Z) : option Z :=
  match a with
  | Some a =>
      if a >? b then Some 1
      else if a <? b then Some (-1)
      else if b =? 0 then None else Some 0
  | None => if b =? 0 then None else Some 0
  end.

(** [x || d] for an optional number. *)
Definition or_else (x : option Z) (d : Z) : Z :=
  match x with
  | Some v => if v =? 0 then d else v
  | None => d
  end.

(** [array[i]]. *)
Definition element (array : list Z) (i : Z) : option Z :=
  if i <? 0 then None else array !! Z.to_nat i.

(** [compared > 0], [compared === 0] and [compared === -1]. *)
Definition positive (compared : option Z) : bool :=
  match compared with Some c => 0 <? c | None => false end.

Definition equals (compared : option Z) (n : Z) : bool :=
  match compared with Some c => c =? n | None => false end.

Definition comparison := option Z -> Z -> option Z.

(** [EPUBJS.core.locationOf(item, array, compareFunction, _start, _end)]. *)
Fixpoint locationOf_rec (fuel : nat) (item : Z) (array : list Z)
    (compareFunction : option comparison) (_start _end : option Z)
  : option Z :=
  match fuel with
  | O => None
  | S fuel =>
      let start := or_else _start 0 in
      let end_ := or_else _end (Z.of_nat (length array)) in
      let pivot := Z.quot (start + end_) 2 in
      let compareFunction := default compare_default compareFunction in
      if end_ - start <=? 0 then Some pivot
      else
        let compared := compareFunction (element array pivot) item in
        if end_ - start =? 1
        then Some (if positive compared then pivot else pivot + 1)
        else if equals compared 0 then Some pivot
        else if equals compared (-1)
        then locationOf_rec fuel item array (Some compareFunction)
               (Some pivot) (Some end_)
        else locationOf_rec fuel item array (Some compareFunction)
               (Some start) (Some pivot)
  end.

Definition locationOf (item : Z) (array : list Z)
    (compareFunction : option comparison) : option Z :=
  locationOf_rec (S (length array)) item array compareFunction None None.

(** [array.splice(location, 0, item)]: the array with [item] put in at
    [location], which counts from the end when negative and is clamped
    to the array. *)
Definition splice (array : list Z) (location : Z) (item : Z) : list Z :=
  let len := Z.of_nat (length array) in
  let at_ := if location <? 0 then Z.max (len + location) 0
             else Z.min location len in
  take (Z.to_nat at_) array ++ item :: drop (Z.to_nat at_) array.

(** [EPUBJS.core.insert(item, array, compareFunction)]: the location
    returned and the array afterwards. *)
Definition insert (item : Z) (array : list Z)
    (compareFunction : option comparison) : option (Z * list Z) :=
  match locationOf item array compareFunction with
  | Some location => Some (location, splice array location item)
  | None => None
  end.

(** [EPUBJS.core.indexOfSorted(item, array, compareFunction, _start, _end)]. *)
Fixpoint indexOfSorted_rec (fuel : nat) (item : Z) (array : list Z)
    (compareFunction : option comparison) (_start _end : option Z)
  : option Z :=
  match fuel with
  | O => None
  | S fuel =>
      let start := or_else _start 0 in
      let end_ := or_else _end (Z.of_nat (length array)) in
      let pivot := Z.quot (start + end_) 2 in
      let compareFunction := default compare_default compareFunction in
      if end_ - start <=? 0 then Some (-1)
      else
        let compared := compareFunction (element array pivot) item in
        if end_ - start =? 1
        then Some (if equals compared 0 then pivot else -1)
        else if equals compared 0 then Some pivot
        else if equals compared (-1)
        then indexOfSorted_rec fuel item array (Some compareFunction)
               (Some pivot) (Some end_)
        else indexOfSorted_rec fuel item array (Some compareFunction)
               (Some start) (Some pivot)
  end.

Definition indexOfSorted (item : Z) (array : list Z)
    (compareFunction : option comparison) : option Z :=
  indexOfSorted_rec (S (length array)) item array compareFunction None None.

End Core.

(** ** [EPUBJS.Reader]: bookmarks and notes

    The settings of the reader hold the bookmarks, an array of strings,
    and the notes, an array of objects. A note is compared by identity
    and is modelled by its reference; [None] in the array of notes is a
    hole left by [delete]. The events passed to [trigger] are recorded
    in the order in which they are triggered. *)

Module Bookmarks.

Inductive event :=
| Bookmarked (cfi : jsstring)
| Unbookmarked (index : Z).

Record reader := {
  bookmarks : list jsstring;
  annotations : list (option nat);
  triggered : list event }.

(** [array.indexOf(x)]: the first index at which [x] stands; a hole is
    skipped. *)
Fixpoint index_from {A} `{EqDecision A} (x : A) (array : list (option A))
    (i : Z) : Z :=
  match array with
  | [] => -1
  | y :: rest =>
      if decide (y = Some x) then i else index_from x rest (i + 1)
  end.

Definition indexOf {A} `{EqDecision A} (x : A) (array : list (option A)) : Z :=
  index_from x array 0.

Definition trigger (e : event) (r : reader) : reader :=
  {| bookmarks := bookmarks r; annotations := annotations r;
     triggered := triggered r ++ [e] |}.

Definition isBookmarked (r : reader) (cfi : jsstring) : Z :=
  indexOf cfi (Some <$> bookmarks r).

Definition addBookmark (cfi : jsstring) (r : reader) : reader :=
  let present := isBookmarked r cfi in
  if present >? -1 then r
  else
    trigger (Bookmarked cfi)
      {| bookmarks := bookmarks r ++ [cfi]; annotations := annotations r;
         triggered := triggered r |}.

(** [bookmarks.splice(bookmark, 1)] takes out the element at the index. *)
Definition removeBookmark (cfi : jsstring) (r : reader) : reader :=
  let bookmark := isBookmarked r cfi in
  if bookmark =? -1 then r
  else
    trigger (Unbookmarked bookmark)
      {| bookmarks := delete (Z.to_nat bookmark) (bookmarks r);
         annotations := annotations r; triggered := triggered r |}.

Definition clearBookmarks (r : reader) : reader :=
  {| bookmarks := []; annotations := annotations r; triggered := triggered r |}.

Definition addNote (note : nat) (r : reader) : reader :=
  {| bookmarks := bookmarks r; annotations := annotations r ++ [Some note];
     triggered := triggered r |}.

(** [delete annotations[index]] leaves a hole at the index. *)
Definition removeNote (note : nat) (r : reader) : reader :=
  let index := indexOf note (annotations r) in
  if index =? -1 then r
  else
    {| bookmarks := bookmarks r;
       annotations := <[Z.to_nat index := None]> (annotations r);
       triggered := triggered r |}.

Definition clearNotes (r : reader) : reader :=
  {| bookmarks := bookmarks r; annotations := []; triggered := triggered r |}.

End Bookmarks.

(** A reader with one bookmark. *)
Definition shelf : Bookmarks.reader :=
  {| Bookmarks.bookmarks := [str "epubcfi(/6/4!/4/2)"];
     Bookmarks.annotations := []; Bookmarks.triggered := [] |}.

(** * Properties *)

(** ** The digest *)

Example sha256_empty :
  sha256 (str "")
  = str "e3b0c44298fc1c149afbf4c8996fb92427ae41e4649b934ca495991b7852b855".
Proof. vm_compute. reflexivity. Qed.

Example sha256_abc :
  sha256 (str "abc")
  = str "ba7816bf8f01cfea414140de5dae2223b00361a396177a9cb410ff61f20015ad".
Proof. vm_compute. reflexivity. Qed.

(** A message of 56 bytes, whose padding takes a second block. *)
Example sha256_two_blocks :
  sha256 (str "abcdbcdecdefdefgefghfghighijhijkijkljklmklmnlmnomnopnopq")
  = str "248d6a61d20638b8e5c026930c3e6039a33ce45964ff2167f6ecedd419db06c1".
Proof. vm_compute. reflexivity. Qed.

Lemma nibble_range (x : Z) : 0 <= Z.land x 15 < 16.
Proof.
  change 15 with (Z.ones 4). rewrite Z.land_ones by lia.
  apply Z.mod_pos_bound. lia.
Qed.

Lemma u_hex (k : Z) : 0 <= k < 16 -> is_hex_lower (u k) = true.
Proof.
  intros Hk.
  assert (Hcases : k = 0 \/ k = 1 \/ k = 2 \/ k = 3 \/ k = 4 \/ k = 5 \/ k = 6
                   \/ k = 7 \/ k = 8 \/ k = 9 \/ k = 10 \/ k = 11 \/ k = 12
                   \/ k = 13 \/ k = 14 \/ k = 15) by lia.
  repeat (destruct Hcases as [-> | Hcases]; [reflexivity |]).
  subst k. reflexivity.
Qed.

Lemma hex_word_hex (t : Z) : Forall (fun c => is_hex_lower c = true) (hex_word t).
Proof.
  unfold hex_word.
  repeat (constructor;
          [apply u_hex;
           first [apply nibble_range | rewrite Z.land_comm; apply nibble_range] |]).
  constructor.
Qed.

Lemma hex_length (st : state) : length (hex st) = 64%nat.
Proof. reflexivity. Qed.

Lemma hex_hex (st : state) : Forall (fun c => is_hex_lower c = true) (hex st).
Proof.
  unfold hex. repeat (apply Forall_app; split); apply hex_word_hex.
Qed.

Lemma sha256_length (m : jsstring) : length (sha256 m) = 64%nat.
Proof. apply hex_length. Qed.

Lemma upper_hex (c : Z) : is_hex_lower c = true -> is_hex_upper (upper c) = true.
Proof.
  unfold is_hex_lower, is_hex_upper, upper. intros H.
  destruct ((97 <=? c) && (c <=? 122)) eqn:E; lia.
Qed.

Lemma digest_length (m : jsstring) : length (toUpperCase (sha256 m)) = 64%nat.
Proof. unfold toUpperCase. rewrite length_map. apply sha256_length. Qed.

Lemma digest_hex (m : jsstring) :
  Forall (fun c => is_hex_upper c = true) (toUpperCase (sha256 m)).
Proof.
  unfold toUpperCase, sha256. apply Forall_map.
  eapply Forall_impl; [apply hex_hex | intros c; apply upper_hex].
Qed.

(** ** Address derivation *)

Lemma alter_lookup_Some (f : Z -> Z) (s : jsstring) (i : nat) (c : Z) :
  s !! i = Some c -> alter f i s = take i s ++ f c :: drop (S i) s.
Proof.
  intros E. pose proof (lookup_lt_Some _ _ _ E) as Hi.
  rewrite <- (take_drop_middle s i c E) at 1.
  rewrite alter_app_r_alt by (rewrite length_take; lia).
  rewrite length_take_le by lia. rewrite Nat.sub_diag. reflexivity.
Qed.

Lemma alter_lookup_None (f : Z -> Z) (s : jsstring) (i : nat) :
  s !! i = None -> alter f i s = s.
Proof.
  intros E. apply list_eq. intros j. rewrite list_lookup_alter.
  case_decide; [subst j; rewrite E; reflexivity | reflexivity].
Qed.

(** One statement of the loop rewrites the character at [i], if any. *)
Lemma replace_if_alter (d g : ascii) (i : nat) (s : jsstring) :
  replace_if d g i s
  = alter (fun c => if c =? char d then char g else c) i s.
Proof.
  unfold replace_if, index_is, index, splice, substr_to, substr_from.
  destruct (s !! i) as [c |] eqn:E.
  - rewrite (alter_lookup_Some _ s i c E).
    destruct (c =? char d).
    + rewrite Nat.add_1_r. reflexivity.
    + symmetry. apply take_drop_middle, E.
  - symmetry. apply alter_lookup_None, E.
Qed.

Lemma remap_char_steps (c : Z) :
  (fun c => if c =? char "8" then char "O" else c)
    ((fun c => if c =? char "7" then char "N" else c)
    ((fun c => if c =? char "6" then char "M" else c)
    ((fun c => if c =? char "5" then char "L" else c)
    ((fun c => if c =? char "4" then char "K" else c)
    ((fun c => if c =? char "3" then char "J" else c)
    ((fun c => if c =? char "2" then char "I" else c)
    ((fun c => if c =? char "1" then char "H" else c)
    ((fun c => if c =? char "0" then char "G" else c) c))))))))
  = remap_char c.
Proof.
  unfold remap_char. cbv beta. split_on_char. reflexivity.
Qed.

(** The body of the loop applies the mapping at position [i]. *)
Lemma remap_at_alter (i : nat) (s : jsstring) :
  remap_at i s = alter remap_char i s.
Proof.
  unfold remap_at. rewrite !replace_if_alter, !list_alter_alter_eq.
  apply list_alter_ext; [| reflexivity].
  intros c _. apply remap_char_steps.
Qed.

(** The loop applies it at the positions it visits and nowhere else. *)
Lemma remap_loop_lookup (n i : nat) (s : jsstring) (j : nat) :
  remap_loop n i s !! j
  = if decide (i <= j < i + n)%nat then remap_char <$> s !! j else s !! j.
Proof.
  revert i s. induction n as [| n IH]; intros i s; simpl.
  - case_decide; [lia | reflexivity].
  - rewrite IH, remap_at_alter, list_lookup_alter.
    repeat case_decide; try lia; subst; reflexivity.
Qed.

Lemma remap_loop_length (n i : nat) (s : jsstring) :
  length (remap_loop n i s) = length s.
Proof.
  revert i s. induction n as [| n IH]; intros i s; simpl; [reflexivity |].
  rewrite IH, remap_at_alter. apply length_alter.
Qed.

(** On a string no longer than the bound the loop is the mapping applied
    to every character. *)
Lemma remap_loop_fmap (n : nat) (s : jsstring) :
  (length s <= n)%nat -> remap_loop n 0 s = remap_char <$> s.
Proof.
  intros Hn. apply list_eq. intros j.
  rewrite remap_loop_lookup, list_lookup_fmap.
  case_decide; [reflexivity |].
  rewrite (lookup_ge_None_2 s j) by lia. reflexivity.
Qed.

Lemma remap_char_tryte (c : Z) :
  is_hex_upper c = true -> is_tryte (remap_char c) = true.
Proof.
  unfold remap_char. intros H. split_on_char.
  unfold is_hex_upper, is_tryte in *. eval_chars. lia.
Qed.

Lemma hashCreate_bound_fmap (bound : nat) (p : jsstring) :
  (64 <= bound)%nat ->
  hashCreate_bound bound p
  = (remap_char <$> toUpperCase (sha256 p)) ++ str "99999999999999999".
Proof.
  intros Hb. unfold hashCreate_bound.
  rewrite remap_loop_fmap by (rewrite digest_length; exact Hb).
  reflexivity.
Qed.

(** The address is one the ledger client accepts: 81 trytes. *)
Lemma hashCreate_length (p : jsstring) : length (hashCreate p) = 81%nat.
Proof.
  unfold hashCreate. rewrite hashCreate_bound_fmap by lia.
  rewrite length_app, length_fmap, digest_length. reflexivity.
Qed.

Lemma hashCreate_head (p : jsstring) :
  take 64 (hashCreate p) = remap_char <$> toUpperCase (sha256 p).
Proof.
  unfold hashCreate. rewrite hashCreate_bound_fmap by lia.
  apply take_app_length'. rewrite length_fmap, digest_length. reflexivity.
Qed.

Lemma hashCreate_tail (p : jsstring) :
  drop 64 (hashCreate p) = replicate 17 (char "9").
Proof.
  unfold hashCreate. rewrite hashCreate_bound_fmap by lia.
  rewrite drop_app_length'
    by (rewrite length_fmap, digest_length; reflexivity).
  reflexivity.
Qed.

Lemma hashCreate_trytes (p : jsstring) :
  Forall (fun c => is_tryte c = true) (hashCreate p).
Proof.
  unfold hashCreate. rewrite hashCreate_bound_fmap by lia.
  apply Forall_app. split.
  - apply Forall_fmap. eapply Forall_impl; [apply digest_hex |].
    intros c. apply remap_char_tryte.
  - vm_compute. repeat constructor.
Qed.

(** C1, as the source has it: for every book path, [hashCreate] returns
    64 characters of the alphabet 9, A to Z (no lowercase letter and no
    digit from 0 to 8) followed by exactly 17 fillers '9', 81 characters
    in all. *)
Theorem hashCreate_pattern_64_17 (p : jsstring) :
  address_pattern 64 17 (hashCreate p).
Proof.
  unfold address_pattern. split; [apply hashCreate_length |]. split.
  - apply Forall_take, hashCreate_trytes.
  - apply hashCreate_tail.
Qed.

(** C1, as stated (65 characters and 17 fillers, 82 in all), fails for
    the book path "moby-dick.epub", whose address has 81 characters. *)
Lemma hashCreate_pattern_65_17_fails :
  length (hashCreate (str "moby-dick.epub")) = 81%nat
  /\ ~ address_pattern 65 17 (hashCreate (str "moby-dick.epub")).
Proof.
  split; [apply hashCreate_length |].
  intros [Hlen _]. rewrite hashCreate_length in Hlen. discriminate Hlen.
Qed.


(** C4: in the loop of [hashCreate], every position of the uppercased
    digest that holds a digit from 0 to 8 receives, at that position,
    the letter of the mapping 0 to G, 1 to H, 2 to I, 3 to J, 4 to K,
    5 to L, 6 to M, 7 to N, 8 to O, and a position that holds 9 or a
    letter from A to F keeps its character. *)
Theorem remap_loop_digest (p : jsstring) (i : nat) (c : Z) :
  toUpperCase (sha256 p) !! i = Some c ->
  remap_loop 65 0 (toUpperCase (sha256 p)) !! i
  = Some (if c =? char "0" then char "G"
          else if c =? char "1" then char "H"
          else if c =? char "2" then char "I"
          else if c =? char "3" then char "J"
          else if c =? char "4" then char "K"
          else if c =? char "5" then char "L"
          else if c =? char "6" then char "M"
          else if c =? char "7" then char "N"
          else if c =? char "8" then char "O"
          else c)
  /\ (c = char "9" \/ char "A" <= c <= char "F" ->
      remap_loop 65 0 (toUpperCase (sha256 p)) !! i = Some c).
Proof.
  intros Hc. pose proof (lookup_lt_Some _ _ _ Hc) as Hi.
  rewrite digest_length in Hi.
  assert (Hr : remap_loop 65 0 (toUpperCase (sha256 p)) !! i
               = Some (remap_char c)).
  { rewrite remap_loop_lookup, Hc. case_decide; [reflexivity | lia]. }
  split; [exact Hr |].
  intros Hkeep. rewrite Hr. f_equal. unfold remap_char.
  eval_chars.
  repeat match goal with
         | |- context [c =? ?k] => destruct (Z.eqb_spec c k); [lia |]
         end.
  reflexivity.
Qed.

Lemma remap_loop_digest_witness :
  remap_loop 65 0 (toUpperCase (sha256 (str "moby-dick.epub"))) !! 0%nat
  = Some (char "K").
Proof.
  apply (remap_loop_digest (str "moby-dick.epub") 0 (char "4")).
  vm_compute. reflexivity.
Defined.

(** C5: when the uppercased digest has 64 characters, [hashCreate] with
    its 65 iterations returns what the variant with 64 iterations
    returns: the iteration at position 64, past the end of the digest,
    leaves the string as it is. *)
Theorem hashCreate_65_is_64 (p : jsstring) :
  length (toUpperCase (sha256 p)) = 64%nat ->
  hashCreate p = hashCreate64 p
  /\ remap_at 64 (remap_loop 64 0 (toUpperCase (sha256 p)))
     = remap_loop 64 0 (toUpperCase (sha256 p)).
Proof.
  intros Hlen. split.
  - unfold hashCreate, hashCreate64, hashCreate_bound.
    rewrite !remap_loop_fmap by lia. reflexivity.
  - rewrite remap_at_alter. apply alter_lookup_None.
    apply lookup_ge_None_2. rewrite remap_loop_length. lia.
Qed.

Lemma hashCreate_65_is_64_witness :
  hashCreate (str "moby-dick.epub") = hashCreate64 (str "moby-dick.epub").
Proof.
  refine (proj1 (hashCreate_65_is_64 (str "moby-dick.epub") _)).
  vm_compute. reflexivity.
Defined.

(** ** Numbers *)

Lemma Qred_int (n : Z) : Qred (n # 1) = (n # 1)%Q.
Proof.
  unfold Qred.
  pose proof (Z.ggcd_gcd n 1) as Hg.
  pose proof (Z.ggcd_correct_divisors n 1) as Hd.
  destruct (Z.ggcd n 1) as [g [a b]]. simpl in *.
  rewrite Z.gcd_1_r in Hg. subst g. destruct Hd as [Ha Hb].
  rewrite Z.mul_1_l in Ha, Hb. subst n b. reflexivity.
Qed.

Lemma add_int (a b : Z) : add (int a) (int b) = int (a + b).
Proof.
  unfold add, int, Qplus. simpl.
  rewrite !Z.mul_1_r. rewrite Qred_int. reflexivity.
Qed.

(** ** Trimming the fillers *)

Lemma slice_last (t : jsstring) (c : Z) :
  slice_from (t ++ [c]) (Z.of_nat (length (t ++ [c])) - 1) = [c].
Proof.
  unfold slice_from, slice, slice_index. rewrite length_app. simpl length.
  destruct (Z.ltb_spec (Z.of_nat (length t + 1) - 1) 0) as [? | _]; [lia |].
  destruct (Z.ltb_spec (Z.of_nat (length t + 1)) 0) as [? | _]; [lia |].
  replace (Z.to_nat (Z.min (Z.of_nat (length t + 1) - 1) (Z.of_nat (length t + 1))))
    with (length t) by lia.
  replace (Z.to_nat (Z.min (Z.of_nat (length t + 1)) (Z.of_nat (length t + 1))
                     - Z.min (Z.of_nat (length t + 1) - 1) (Z.of_nat (length t + 1))))
    with 1%nat by lia.
  rewrite drop_app_length. reflexivity.
Qed.

Lemma slice_init (t : jsstring) (c : Z) : slice (t ++ [c]) 0 (0 - 1) = t.
Proof.
  unfold slice, slice_index. rewrite length_app. simpl length.
  change (0 <? 0) with false. change (0 - 1 <? 0) with true. cbv iota.
  replace (Z.to_nat (Z.min 0 (Z.of_nat (length t + 1)))) with 0%nat by lia.
  replace (Z.to_nat (Z.max (Z.of_nat (length t + 1) + (0 - 1)) 0
                     - Z.min 0 (Z.of_nat (length t + 1))))
    with (length t) by lia.
  rewrite drop_0. apply take_app_length.
Qed.

(** One filler at the end is dropped, and the rest is trimmed in turn. *)
Lemma rtrim_nine_snoc (t : jsstring) :
  rtrim (str "9") (t ++ [char "9"]) = rtrim (str "9") t.
Proof.
  unfold rtrim.
  replace (S (length (t ++ [char "9"]))) with (S (S (length t)))
    by (rewrite length_app; simpl; lia).
  change (rtrim_rec (S (S (length t))) (str "9") (t ++ [char "9"]))
    with (if jsstring_eqb
               (slice_from (t ++ [char "9"])
                  (Z.of_nat (length (t ++ [char "9"])) - 1)) (str "9")
          then rtrim_rec (S (length t)) (str "9")
                 (slice (t ++ [char "9"]) 0 (0 - 1))
          else Some (t ++ [char "9"])).
  rewrite slice_last, slice_init. reflexivity.
Qed.

Lemma rtrim_nine_fillers (t : jsstring) (k : nat) :
  rtrim (str "9") (t ++ replicate k (char "9")) = rtrim (str "9") t.
Proof.
  induction k as [| k IH]; simpl replicate.
  - rewrite app_nil_r. reflexivity.
  - rewrite replicate_cons_app, app_assoc, rtrim_nine_snoc. exact IH.
Qed.

(** For the one-character filler the recursion of [rtrim] always ends. *)
Lemma rtrim_nine_total (s : jsstring) : is_Some (rtrim (str "9") s).
Proof.
  induction s as [| c t IH] using rev_ind.
  - exists []. reflexivity.
  - destruct (decide (c = char "9")) as [-> | Hc].
    + rewrite rtrim_nine_snoc. exact IH.
    + exists (t ++ [c]). unfold rtrim.
      replace (S (length (t ++ [c]))) with (S (S (length t)))
        by (rewrite length_app; simpl; lia).
      change (rtrim_rec (S (S (length t))) (str "9") (t ++ [c]))
        with (if jsstring_eqb
                   (slice_from (t ++ [c]) (Z.of_nat (length (t ++ [c])) - 1))
                   (str "9")
              then rtrim_rec (S (length t)) (str "9") (slice (t ++ [c]) 0 (0 - 1))
              else Some (t ++ [c])).
      rewrite slice_last. unfold jsstring_eqb.
      destruct (decide ([c] = str "9")) as [E | _]; [| reflexivity].
      exfalso. apply Hc. injection E as E. exact E.
Qed.

(** ** The rating codec *)

Lemma encode_payload (r : Z) :
  1 <= r <= 5 -> encode r = Returns (Some (payload r)).
Proof. intros Hr. vote_cases r; vm_compute; reflexivity. Qed.

Lemma rtrim_payload (r : Z) (k : nat) :
  1 <= r <= 5 ->
  rtrim (str "9") (payload r ++ replicate k (char "9")) = Some (payload r).
Proof.
  intros Hr. rewrite rtrim_nine_fillers.
  vote_cases r; vm_compute; reflexivity.
Qed.

Lemma parse_payload (r : Z) :
  1 <= r <= 5 ->
  JSON_parse (fromTrytes (payload r))
  = Returns (Obj [(str "rating", Num (int r))]).
Proof. intros Hr. vote_cases r; vm_compute; reflexivity. Qed.

Lemma ToString_vote (r : Z) :
  1 <= r <= 5 -> ToString (Num (int r)) = Returns (decimal r).
Proof. intros Hr. vote_cases r; vm_compute; reflexivity. Qed.

Lemma parseInt_vote (r : Z) :
  1 <= r <= 5 -> parseInt (Num (int r)) = Returns (int r).
Proof. intros Hr. vote_cases r; vm_compute; reflexivity. Qed.

(** C3: for every integer rating [r] from 1 to 5, the message [encode]
    makes of it ([JSON.stringify] of the object with the one member
    [rating], then [toTrytes]) is decoded to [r] ([rtrim] of the fillers,
    [fromTrytes], [JSON.parse], the member [rating], [parseInt]), also
    with the fillers the ledger puts after a message. *)
Theorem decode_encode (r : Z) (fillers : nat) :
  1 <= r <= 5 ->
  exists message,
    encode r = Returns (Some message)
    /\ decode message = Returns (int r)
    /\ decode (message ++ replicate fillers (char "9")) = Returns (int r).
Proof.
  intros Hr. exists (payload r).
  split; [apply encode_payload, Hr |].
  assert (Hd : forall k,
             decode (payload r ++ replicate k (char "9")) = Returns (int r)).
  { intros k. unfold decode. rewrite rtrim_payload by exact Hr.
    cbv beta iota delta [obind]. rewrite parse_payload by exact Hr.
    cbv beta iota delta [get_rating_member lookup_last].
    replace (jsstring_eqb (str "rating") (str "rating")) with true
      by reflexivity.
    apply parseInt_vote, Hr. }
  split; [| apply Hd].
  specialize (Hd 0%nat). simpl replicate in Hd. rewrite app_nil_r in Hd.
  exact Hd.
Qed.

Lemma decode_encode_witness :
  exists message,
    encode 5 = Returns (Some message)
    /\ decode message = Returns (int 5)
    /\ decode (message ++ replicate 3 (char "9")) = Returns (int 5).
Proof. apply (decode_encode 5 3). lia. Defined.

(** The vote handler sends the value of the field as a string; the
    message of such a vote is decoded to the number as well. *)
Lemma decode_encode_value_string :
  exists message,
    encode_value (Str (str "4")) = Returns (Some message)
    /\ decode message = Returns (int 4).
Proof.
  exists (match encode_value (Str (str "4")) with
          | Returns (Some t) => t
          | _ => []
          end).
  split; vm_compute; reflexivity.
Qed.

(** ** The rating store *)

Lemma logging_logging (l1 l2 : list (list logged)) (w : world) :
  logging l2 (logging l1 w) = logging (l1 ++ l2) w.
Proof. unfold logging. simpl. rewrite <- app_assoc. reflexivity. Qed.

Lemma logging_nil (w : world) : logging [] w = w.
Proof. destruct w. unfold logging. simpl. rewrite app_nil_r. reflexivity. Qed.

(** The body of the loop, once each of its expressions has a value. *)
Lemma get_rating_step_eval (x : transaction) (rating rating' : gmap jsstring number)
    (sum n : number) (w : world) (tmp key : jsstring) (res member : value) :
  rtrim (str "9") (signatureMessageFragment x) = Some tmp ->
  JSON_parse (fromTrytes tmp) = Returns res ->
  get_rating_member res = Returns member ->
  ToString member = Returns key ->
  increment rating key = Returns rating' ->
  parseInt member = Returns n ->
  get_rating_step x (rating, sum) w
  = (Returns (rating', add sum n),
     logging [ [LogValue (match fromTrytes tmp with
                          | Some t => Str t
                          | None => Null
                          end)];
               [LogValue (Num (add sum n))] ] w).
Proof.
  intros H1 H2 H3 H4 H5 H6.
  unfold get_rating_step, mbind, M_bind, eval, console_log, mret, M_ret.
  rewrite H1, H2, H3, H4, H5, H6. rewrite logging_logging. reflexivity.
Qed.

Lemma initial_rating_summary (total : number) :
  initial_rating total
  = summary (int 0) (int 0) (int 0) (int 0) (int 0) total (int 0).
Proof. reflexivity. Qed.

(** [rating[r] += 1] on a summary adds one to the count of [r]. *)
Lemma increment_summary (r c1 c2 c3 c4 c5 : Z) (total avg : number) :
  1 <= r <= 5 ->
  increment (summary (int c1) (int c2) (int c3) (int c4) (int c5) total avg)
            (decimal r)
  = Returns (summary (int (bump r 1 c1)) (int (bump r 2 c2))
                     (int (bump r 3 c3)) (int (bump r 4 c4))
                     (int (bump r 5 c5)) total avg).
Proof.
  intros Hr. unfold increment, summary.
  vote_cases r;
    match goal with
    | |- context [decimal ?r] =>
        let k := eval vm_compute in (decimal r) in change (decimal r) with k
    end;
    repeat (rewrite lookup_insert_ne by distinct_keys);
    rewrite lookup_insert_eq, add_int; f_equal;
    repeat first
      [ rewrite insert_insert_eq; reflexivity
      | rewrite insert_insert_ne by distinct_keys; f_equal ].
Qed.

Lemma tally_cons (r v : Z) (votes : list Z) :
  tally r (v :: votes) = bump v r 0 + tally r votes.
Proof.
  unfold tally, bump. rewrite filter_cons.
  destruct (Z.eqb_spec v r) as [E | E]; case_decide; try contradiction;
    simpl length; lia.
Qed.

Lemma for_each_cons {A S} (x : A) (l : list A) (body : A -> S -> M S)
    (s : S) (w : world) :
  for_each (x :: l) body s w
  = match body x s w with
    | (Returns s', w') => for_each l body s' w'
    | (Throws e, w') => (Throws e, w')
    | (Unmodelled, w') => (Unmodelled, w')
    end.
Proof. reflexivity. Qed.

(** The loop of [get_rating] over the records of the votes. *)
Lemma for_each_votes (votes : list (Z * nat)) :
  forall (c1 c2 c3 c4 c5 sum : Z) (total avg : number) (w : world),
  Forall (fun v => 1 <= fst v <= 5) votes ->
  for_each (stored <$> votes) get_rating_step
    (summary (int c1) (int c2) (int c3) (int c4) (int c5) total avg, int sum) w
  = (Returns
       (summary (int (c1 + tally 1 (fst <$> votes)))
                (int (c2 + tally 2 (fst <$> votes)))
                (int (c3 + tally 3 (fst <$> votes)))
                (int (c4 + tally 4 (fst <$> votes)))
                (int (c5 + tally 5 (fst <$> votes))) total avg,
        int (sum + sum_of (fst <$> votes))),
     logging (rating_log sum (fst <$> votes)) w).
Proof.
  induction votes as [| [r k] votes IH]; intros c1 c2 c3 c4 c5 sum total avg w Hv.
  - simpl. unfold mret, M_ret, tally. simpl.
    rewrite !Z.add_0_r, logging_nil. reflexivity.
  - apply Forall_cons in Hv as [Hr Hv]. simpl in Hr.
    rewrite fmap_cons, for_each_cons.
    rewrite (get_rating_step_eval (stored (r, k)) _ _ _ (int r) w (payload r)
               (decimal r) (Obj [(str "rating", Num (int r))]) (Num (int r))
               (rtrim_payload r k Hr) (parse_payload r Hr) eq_refl
               (ToString_vote r Hr) (increment_summary r _ _ _ _ _ _ _ Hr)
               (parseInt_vote r Hr)).
    rewrite add_int, IH by exact Hv.
    rewrite logging_logging, fmap_cons, !tally_cons. simpl fst.
    unfold bump. simpl sum_of. simpl rating_log.
    assert (Hb : forall i c,
               (if r =? i then c + 1 else c) + tally i (fst <$> votes)
               = c + ((if r =? i then 0 + 1 else 0) + tally i (fst <$> votes)))
      by (intros i c; destruct (r =? i); lia).
    rewrite (Hb 1 c1), (Hb 2 c2), (Hb 3 c3), (Hb 4 c4), (Hb 5 c5).
    rewrite <- (Z.add_assoc sum r). reflexivity.
Qed.

(** C6: [get_rating] folds the votes of the records found at the address
    into a count for each of the values 1 to 5, a total equal to the
    number of records, and an average equal to the sum of the votes
    divided by the total, and hands this summary to its callback. Over
    the votes 5, 5, 3 the counts are 2 for 5 and 1 for 3, the total is 3
    and the average 13/3. *)
Theorem get_rating_summary (iota : IOTA) (book_addr : jsstring)
    (callback : gmap jsstring number -> M unit) (w : world)
    (votes : list (Z * nat)) :
  Forall (fun v => 1 <= fst v <= 5) votes ->
  findTransactionObjects_reply iota [book_addr] = Success (stored <$> votes) ->
  get_rating iota book_addr callback w
  = settle
      (callback
         (summary (int (tally 1 (fst <$> votes))) (int (tally 2 (fst <$> votes)))
                  (int (tally 3 (fst <$> votes))) (int (tally 4 (fst <$> votes)))
                  (int (tally 5 (fst <$> votes)))
                  (int (Z.of_nat (length votes)))
                  (div (int (sum_of (fst <$> votes)))
                       (int (Z.of_nat (length votes)))))
         (logging (rating_log 0 (fst <$> votes))
            (requested (FindTransactionObjects [book_addr]) w))).
Proof.
  intros Hv Hreply. unfold get_rating, call. rewrite Hreply.
  unfold get_rating_callback. rewrite initial_rating_summary.
  unfold mbind at 1. unfold M_bind at 1.
  rewrite for_each_votes by exact Hv.
  rewrite length_fmap, !Z.add_0_l.
  unfold summary. rewrite insert_insert_eq. reflexivity.
Qed.

Lemma get_rating_summary_witness :
  get_rating ledger_5_5_3 (str "BOOK") report quiet
  = settle
      (report
         (summary (int 0) (int 0) (int 1) (int 0) (int 2) (int 3)
                  (Fin (13 # 3)))
         (logging (rating_log 0 [5; 5; 3])
            (requested (FindTransactionObjects [str "BOOK"]) quiet))).
Proof.
  apply (get_rating_summary ledger_5_5_3 (str "BOOK") report quiet
           [(5, 0%nat); (5, 2%nat); (3, 1%nat)]).
  - repeat constructor; simpl; lia.
  - reflexivity.
Defined.

(** C2, on the source: over zero records the summary [get_rating] hands
    to its callback has the counts and the total 0, and the average is
    [NaN], the quotient of 0 by 0, not 0. *)
Theorem get_rating_no_records (iota : IOTA) (book_addr : jsstring)
    (callback : gmap jsstring number -> M unit) (w : world) :
  findTransactionObjects_reply iota [book_addr] = Success [] ->
  get_rating iota book_addr callback w
  = settle
      (callback
         (summary (int 0) (int 0) (int 0) (int 0) (int 0) (int 0) NaN)
         (requested (FindTransactionObjects [book_addr]) w)).
Proof.
  intros Hreply. unfold get_rating, call. rewrite Hreply.
  unfold get_rating_callback. rewrite initial_rating_summary.
  unfold mbind, M_bind. simpl for_each. unfold mret, M_ret.
  unfold summary. rewrite insert_insert_eq. reflexivity.
Qed.

Lemma get_rating_no_records_witness :
  get_rating empty_ledger (str "BOOK") report quiet
  = settle
      (report
         (summary (int 0) (int 0) (int 0) (int 0) (int 0) (int 0) NaN)
         (requested (FindTransactionObjects [str "BOOK"]) quiet)).
Proof.
  apply (get_rating_no_records empty_ledger (str "BOOK") report quiet).
  reflexivity.
Defined.

(** With that callback the console shows the average [NaN]. *)
Lemma get_rating_no_records_console :
  get_rating empty_ledger (str "BOOK") report quiet
  = (Returns tt,
     logging [[LogValue (Num NaN)]]
       (requested (FindTransactionObjects [str "BOOK"]) quiet)).
Proof.
  unfold get_rating, call. simpl findTransactionObjects_reply.
  unfold get_rating_callback, mbind, M_bind. simpl for_each.
  unfold mret, M_ret, report. cbv beta iota.
  rewrite lookup_insert_eq. reflexivity.
Qed.

(** C10: when the query of the ledger reports an error, [get_rating]
    writes the error to the console and returns; whatever the address and
    the callback, the callback is not run: nothing of it is in the
    result, which is the console line and the recorded call alone. *)
Theorem get_rating_error (iota : IOTA) (book_addr : jsstring)
    (callback : gmap jsstring number -> M unit) (w : world) (e : error) :
  findTransactionObjects_reply iota [book_addr] = Failure e ->
  get_rating iota book_addr callback w
  = (Returns tt,
     logging [[LogError e]] (requested (FindTransactionObjects [book_addr]) w)).
Proof.
  intros Hreply. unfold get_rating, call. rewrite Hreply. reflexivity.
Qed.

Lemma get_rating_error_witness :
  get_rating failing_ledger (str "BOOK") report quiet
  = (Returns tt,
     logging [[LogError (Error (str "Request Error"))]]
       (requested (FindTransactionObjects [str "BOOK"]) quiet)).
Proof.
  apply (get_rating_error failing_ledger (str "BOOK") report quiet).
  reflexivity.
Defined.



(** ** The reader controller *)

Lemma class_set_logging (lines : list (list logged)) (w : world) (sel : jsstring) :
  class_set (logging lines w) sel = class_set w sel.
Proof. reflexivity. Qed.

Lemma class_set_addClass (sel name : jsstring) (w : world) :
  class_set (snd (addClass sel name w)) sel = class_set w sel ∪ {[name]}.
Proof.
  unfold addClass, class_set at 1. simpl. rewrite lookup_insert_eq. reflexivity.
Qed.

Lemma class_set_addClass_ne (sel sel' name : jsstring) (w : world) :
  sel <> sel' ->
  class_set (snd (addClass sel name w)) sel' = class_set w sel'.
Proof.
  intros Hne. unfold addClass, class_set at 1. simpl.
  rewrite lookup_insert_ne by exact Hne. reflexivity.
Qed.

Lemma prev_not_voting : prev <> voting.
Proof. distinct_keys. Qed.

Lemma next_not_voting : next <> voting.
Proof. distinct_keys. Qed.

(** What the marks on the two buttons leave of the voting modal: its
    classes are those it had. *)
Lemma buttons_keep_voting (a b : bool) (w : world) :
  class_set
    (snd (((if a then addClass prev (str "disabled") else mret tt);;
           (if b then addClass next (str "disabled") else mret tt)) w))
    voting
  = class_set w voting.
Proof.
  unfold mbind, M_bind, mret, M_ret, addClass.
  destruct a, b; cbv beta iota; unfold class_set at 1; cbn [snd classes];
    repeat (rewrite lookup_insert_ne
              by first [exact prev_not_voting | exact next_not_voting]);
    reflexivity.
Qed.

(** The handler is its first statement followed by the two marks. *)
Lemma relocated_eq (location : location) (w : world) :
  relocated location w
  = ((if atStart location then addClass prev (str "disabled") else mret tt);;
     (if atEnd location then addClass next (str "disabled") else mret tt))
      (if page (end_displayed location) =? total (end_displayed location) - 1
       then snd (addClass voting (str "md-show")
                   (logging
                      [[LogValue (Str (str "relocated %d"));
                        LogValue (Num (int (page (end_displayed location))))]]
                      w))
       else w).
Proof.
  unfold relocated.
  destruct (page (end_displayed location) =? total (end_displayed location) - 1);
    reflexivity.
Qed.

(** C7, as the source has it: the handler of [relocated] returns, and
    after it the voting modal has the class [md-show] exactly when the
    displayed page number is the displayed total minus one, or the modal
    had the class before: the handler shows the prompt on that page and
    on no other. *)
Theorem relocated_prompt (location : location) (w : world) :
  fst (relocated location w) = Returns tt
  /\ (hasClass (snd (relocated location w)) voting (str "md-show")
      <-> page (end_displayed location) = total (end_displayed location) - 1
          \/ hasClass w voting (str "md-show")).
Proof.
  rewrite relocated_eq. split.
  - unfold mbind, M_bind, mret, M_ret, addClass.
    destruct (atStart location), (atEnd location); reflexivity.
  - unfold hasClass. rewrite buttons_keep_voting.
    destruct (Z.eqb_spec (page (end_displayed location))
                         (total (end_displayed location) - 1)) as [E | E].
    + rewrite class_set_addClass, class_set_logging.
      rewrite elem_of_union, elem_of_singleton. tauto.
    + tauto.
Qed.

(** C7, as stated, fails: on the final page (page 10 of 10) the handler
    does not show the prompt, and on the page before (page 9 of 10) it
    does. *)
Lemma relocated_final_page_no_prompt :
  ~ hasClass
      (snd (relocated
              {| end_displayed := {| total := 10; page := 10 |};
                 atStart := false; atEnd := true |} quiet))
      voting (str "md-show")
  /\ hasClass
       (snd (relocated
               {| end_displayed := {| total := 10; page := 9 |};
                  atStart := false; atEnd := false |} quiet))
       voting (str "md-show").
Proof.
  rewrite !relocated_eq. unfold hasClass. rewrite !buttons_keep_voting.
  cbn [page total end_displayed].
  change (10 =? 10 - 1) with false. change (9 =? 10 - 1) with true.
  cbv iota. split.
  - unfold class_set, quiet. cbn [classes]. rewrite lookup_empty.
    cbn [default]. apply not_elem_of_empty.
  - rewrite class_set_addClass. apply elem_of_union_r, elem_of_singleton.
    reflexivity.
Qed.

(** ** The static file server *)

Lemma asked_same (url : jsstring) : asked url url = url.
Proof.
  unfold asked, jsstring_eqb. destruct (decide (url = str "/")) as [-> | _];
    reflexivity.
Qed.

Lemma dispatch_static_pass (send : jsstring -> jsstring -> sent)
    (dirname mount root : jsstring) (rest : list layer) (url : jsstring) :
  (forall relative,
     under mount url = Some relative ->
     send root (asked relative url) = NotFound) ->
  dispatch send dirname (Static mount root :: rest) url
  = dispatch send dirname rest url.
Proof.
  intros Hpass. cbn [dispatch].
  destruct (under mount url) as [relative |]; [| reflexivity].
  unfold static. rewrite (Hpass relative eq_refl). reflexivity.
Qed.

Lemma route_matches_true (pattern url : jsstring) :
  route_matches pattern url = true ->
  List.map lower url = List.map lower (without_slash pattern)
  \/ List.map lower url = List.map lower (without_slash pattern) ++ str "/".
Proof.
  unfold route_matches, jsstring_eqb. cbv zeta.
  destruct (decide (_ = _)) as [E | _]; [left; exact E |].
  destruct (decide (_ = _)) as [E | _]; [right; exact E | discriminate].
Qed.

(** A request that the static directories do not answer reaches the
    routes, and after them the handler of every address. *)
Lemma dispatch_unanswered (send : jsstring -> jsstring -> sent)
    (dirname : jsstring) (s : script) (url : jsstring) :
  s = part_001 \/ s = server_js ->
  unanswered send s url ->
  serve send dirname s url
  = dispatch send dirname
      (List.map (fun r => Route (fst r) (snd r)) (routes s)) url.
Proof.
  intros [-> | ->] Hun; unfold serve; cbn [router part_001 server_js].
  - rewrite dispatch_static_pass
      by (intros rel; apply (Hun (str "/") (str "public"));
          apply elem_of_cons; left; reflexivity).
    rewrite dispatch_static_pass
      by (intros rel; apply (Hun (str "/books") (str "reader/reader"));
          apply elem_of_cons; right; apply elem_of_cons; left; reflexivity).
    reflexivity.
  - rewrite dispatch_static_pass
      by (intros rel; apply (Hun (str "/") (str "public"));
          apply elem_of_cons; left; reflexivity).
    rewrite dispatch_static_pass
      by (intros rel; apply (Hun (str "/") (str "reader/reader"));
          apply elem_of_cons; right; apply elem_of_cons; left; reflexivity).
    reflexivity.
Qed.

Ltac route_found Hm :=
  destruct (route_matches_true _ _ Hm) as [E | E];
  cbn [List.map fst snd dispatch]; unfold route_matches; cbv zeta;
  rewrite E; reflexivity.

Lemma routes_answer (send : jsstring -> jsstring -> sent)
    (dirname : jsstring) (s : script) (url p f : jsstring) :
  s = part_001 \/ s = server_js ->
  (p, f) ∈ routes s -> route_matches p url = true ->
  dispatch send dirname
    (List.map (fun r => Route (fst r) (snd r)) (routes s)) url
  = SendFile (dirname ++ f).
Proof.
  intros [-> | ->] Hin Hm;
    change (routes part_001)
      with [(str "/", str "index.html"); (str "/about", str "about.html");
            (str "/contact", str "contact.html");
            (str "/books", str "reader/reader/reader.html")] in *;
    change (routes server_js)
      with [(str "/", str "index.html"); (str "/about", str "about.html");
            (str "/contact", str "contact.html");
            (str "/sleep", str "reader/reader/reader.html")] in *;
    repeat (apply elem_of_cons in Hin as [Hin | Hin];
            [injection Hin as -> ->; route_found Hm |]);
    apply elem_of_nil in Hin; contradiction.
Qed.

Lemma routes_pass (send : jsstring -> jsstring -> sent)
    (dirname : jsstring) (table : list (jsstring * jsstring)) (url : jsstring) :
  (forall p f, (p, f) ∈ table -> route_matches p url = false) ->
  dispatch send dirname (List.map (fun r => Route (fst r) (snd r)) table) url
  = SendFile (dirname ++ fallback).
Proof.
  induction table as [| [p f] table IH]; intros Hnone; [reflexivity |].
  cbn [List.map fst snd dispatch].
  rewrite (Hnone p f) by (apply elem_of_cons; left; reflexivity).
  apply IH. intros q g Hq. apply (Hnone q g). apply elem_of_cons. right. exact Hq.
Qed.

(** C9, as the sources have it. The script unnamed/part_001 listens on
    the port the variable [PORT] of the environment gives, and on 3000
    when it is not set or empty; src/server.js listens on 3000 whatever
    the environment. Both register four routes, the last of which sends
    the reader page: /, /about, /contact and /books in part_001, and
    /sleep in place of /books in server.js; the static directories are
    [public] at the root and [reader/reader], under /books in part_001
    and at the root in server.js. In either script a GET request that
    the static directories do not answer gets the file of the route its
    path matches, and the page 404 when it matches none; and in
    part_001 a file found under [public], or under [reader/reader] for
    a path under /books, is the answer, and a directory met there
    without its slash is answered with the redirection. *)
Theorem server_port_and_routes :
  (forall env,
     env !! str "PORT" = None \/ env !! str "PORT" = Some [] ->
     port part_001 env = Num (int 3000))
  /\ (forall env c t,
        env !! str "PORT" = Some (c :: t) -> port part_001 env = Str (c :: t))
  /\ (forall env, port server_js env = Num (int 3000))
  /\ routes part_001
     = [(str "/", str "index.html"); (str "/about", str "about.html");
        (str "/contact", str "contact.html");
        (str "/books", str "reader/reader/reader.html")]
  /\ routes server_js
     = [(str "/", str "index.html"); (str "/about", str "about.html");
        (str "/contact", str "contact.html");
        (str "/sleep", str "reader/reader/reader.html")]
  /\ static_roots part_001
     = [(str "/", str "public"); (str "/books", str "reader/reader")]
  /\ static_roots server_js
     = [(str "/", str "public"); (str "/", str "reader/reader")]
  /\ (forall s send dirname url,
        s = part_001 \/ s = server_js ->
        unanswered send s url ->
        (forall p f,
           (p, f) ∈ routes s -> route_matches p url = true ->
           serve send dirname s url = SendFile (dirname ++ f))
        /\ ((forall p f, (p, f) ∈ routes s -> route_matches p url = false) ->
            serve send dirname s url = SendFile (dirname ++ fallback)))
  /\ (forall send dirname url,
        (send (str "public") url = Stream ->
         serve send dirname part_001 url = Asset (str "public") url)
        /\ (send (str "public") url = Directory ->
            serve send dirname part_001 url = Redirect url)
        /\ (forall relative,
              send (str "public") url = NotFound ->
              under (str "/books") url = Some relative ->
              (send (str "reader/reader") (asked relative url) = Stream ->
               serve send dirname part_001 url
               = Asset (str "reader/reader") (asked relative url))
              /\ (send (str "reader/reader") (asked relative url) = Directory ->
                  serve send dirname part_001 url = Redirect url)))
  /\ (forall send dirname c tail,
        c <> char "/" ->
        send (str "public") (str "/books/" ++ c :: tail) = NotFound ->
        send (str "reader/reader") (char "/" :: c :: tail) = Stream ->
        serve send dirname part_001 (str "/books/" ++ c :: tail)
        = Asset (str "reader/reader") (char "/" :: c :: tail))
  /\ (forall send dirname,
        send (str "public") (str "/books") = NotFound ->
        (send (str "reader/reader") [] = Directory ->
         serve send dirname part_001 (str "/books") = Redirect (str "/books"))
        /\ (send (str "reader/reader") [] = NotFound ->
            serve send dirname part_001 (str "/books")
            = SendFile (dirname ++ str "reader/reader/reader.html"))).
Proof.
  split; [| split; [| split; [| split; [| split; [| split; [| split;
    [| split; [| split; [| split]]]]]]]]].
  - intros env [Henv | Henv]; cbn [port part_001]; rewrite Henv; reflexivity.
  - intros env c t Henv. cbn [port part_001]. rewrite Henv. reflexivity.
  - reflexivity.
  - reflexivity.
  - reflexivity.
  - reflexivity.
  - reflexivity.
  - intros s send dirname url Hs Hun.
    rewrite (dispatch_unanswered send dirname s url Hs Hun). split.
    + intros p f Hin Hm. exact (routes_answer send dirname s url p f Hs Hin Hm).
    + apply routes_pass.
  - intros send dirname url.
    assert (Hfirst : serve send dirname part_001 url
                     = match send (str "public") url with
                       | Stream => Asset (str "public") url
                       | Directory => Redirect url
                       | NotFound =>
                           dispatch send dirname
                             (tl (router part_001)) url
                       | Broken => ServerError
                       end).
    { unfold serve. cbn [router part_001 dispatch tl].
      change (under (str "/") url) with (Some url).
      unfold static. rewrite asked_same.
      destruct (send (str "public") url); reflexivity. }
    split; [| split].
    + intros H. rewrite Hfirst, H. reflexivity.
    + intros H. rewrite Hfirst, H. reflexivity.
    + intros relative Hpublic Hunder. rewrite Hfirst, Hpublic.
      cbn [router part_001 dispatch tl]. rewrite Hunder. unfold static.
      split; intros H; rewrite H; reflexivity.
  - intros send dirname c tail Hc Hpublic Hfile.
    assert (Hunder : under (str "/books") (str "/books/" ++ c :: tail)
                     = Some (char "/" :: c :: tail)).
    { unfold under. cbn.
      destruct c as [| q | q]; try reflexivity.
      do 6 (destruct q as [q | q |]; try reflexivity).
      destruct Hc. reflexivity. }
    unfold serve. cbn [router part_001 dispatch].
    change (under (str "/") ?u) with (Some u).
    unfold static at 1. rewrite asked_same, Hpublic, Hunder.
    unfold static, asked. change (jsstring_eqb (char "/" :: c :: tail) (str "/"))
      with false. cbn [andb]. rewrite Hfile. reflexivity.
  - intros send dirname Hpublic.
    assert (Hrun : serve send dirname part_001 (str "/books")
                   = match send (str "reader/reader") [] with
                     | Stream => Asset (str "reader/reader") []
                     | Directory => Redirect (str "/books")
                     | NotFound =>
                         SendFile (dirname ++ str "reader/reader/reader.html")
                     | Broken => ServerError
                     end).
    { unfold serve. cbn [router part_001 dispatch].
      change (under (str "/") ?u) with (Some u).
      unfold static at 1. rewrite asked_same, Hpublic.
      change (under (str "/books") (str "/books")) with (Some (str "/")).
      unfold static. change (asked (str "/") (str "/books")) with (@nil Z).
      destruct (send (str "reader/reader") []); reflexivity. }
    split; intros H; rewrite Hrun, H; reflexivity.
Qed.

(** C9, as stated, fails on src/server.js: with [PORT] set to 8080 it
    listens on 3000, and where no static file answers it has the page
    404 for /books and the reader page for /sleep. It also fails at the
    path /books itself in unnamed/part_001 once the directory
    [reader/reader] exists: the request is answered with the
    redirection to /books/, not with the reader page, which the request
    for /books/ then gets. *)
Lemma server_js_fixed_port_no_books :
  port server_js {[ str "PORT" := str "8080" ]} = Num (int 3000)
  /\ port server_js {[ str "PORT" := str "8080" ]}
     <> port part_001 {[ str "PORT" := str "8080" ]}
  /\ serve no_files (str "/srv/") server_js (str "/books")
     = SendFile (str "/srv/404.html")
  /\ serve no_files (str "/srv/") server_js (str "/sleep")
     = SendFile (str "/srv/reader/reader/reader.html")
  /\ serve reader_files (str "/srv/") part_001 (str "/books")
     = Redirect (str "/books")
  /\ serve reader_files (str "/srv/") part_001 (str "/books/")
     = SendFile (str "/srv/reader/reader/reader.html").
Proof.
  split; [reflexivity |]. split; [| repeat split; reflexivity].
  cbn [port part_001 server_js]. rewrite lookup_singleton_eq. discriminate.
Qed.

(** * Further properties of the code *)

(** ** The digest and the address *)

(** [sha256] returns, for every string, 64 characters that are digits or
    letters from a to f. *)
Theorem sha256_is_lower_hex (m : jsstring) :
  length (sha256 m) = 64%nat /\ forallb is_hex_lower (sha256 m) = true.
Proof.
  split; [apply hex_length |].
  apply forallb_forall. intros c Hc.
  pose proof (hex_hex (digest_state m)) as H.
  rewrite Forall_forall in H. apply H, list_elem_of_In, Hc.
Qed.

Lemma lor_below (n a b : Z) :
  0 <= n -> 0 <= a < 2 ^ n -> 0 <= b < 2 ^ n -> 0 <= Z.lor a b < 2 ^ n.
Proof.
  intros Hn Ha Hb.
  assert (Hnn : 0 <= Z.lor a b) by (apply Z.lor_nonneg; lia).
  split; [exact Hnn |].
  assert (H : Z.shiftr (Z.lor a b) n = 0).
  { rewrite Z.shiftr_lor, !Z.shiftr_div_pow2 by lia.
    rewrite !Z.div_small by lia. reflexivity. }
  apply Z.shiftr_eq_0_iff in H as [H0 | [Hpos Hlog]]; [lia |].
  apply Z.log2_lt_pow2 in Hlog; lia.
Qed.

Lemma land_63 (x : Z) : 0 <= Z.land x 63 < 64.
Proof.
  change 63 with (Z.ones 6). rewrite Z.land_ones by lia.
  apply Z.mod_pos_bound. lia.
Qed.

Lemma land_1023 (x : Z) : 0 <= Z.land 1023 x < 1024.
Proof.
  rewrite Z.land_comm. change 1023 with (Z.ones 10).
  rewrite Z.land_ones by lia. apply Z.mod_pos_bound. lia.
Qed.

Lemma shiftr_below (x a bound : Z) :
  0 <= a -> 0 < bound -> 0 <= x < bound * 2 ^ a -> 0 <= Z.shiftr x a < bound.
Proof.
  intros Ha Hb Hx. rewrite Z.shiftr_div_pow2 by lia. split.
  - apply Z.div_pos; lia.
  - apply Z.div_lt_upper_bound; lia.
Qed.

Lemma marked_byte (mark x : Z) :
  0 <= mark < 256 -> 0 <= x < 256 -> is_byte (Z.lor mark x).
Proof. intros Hm Hx. apply (lor_below 8); lia. Qed.

Lemma continuation_byte (x : Z) : is_byte (Z.lor 128 (Z.land x 63)).
Proof. apply marked_byte; [lia |]. pose proof (land_63 x). lia. Qed.

Lemma continuation_byte' (x : Z) : is_byte (Z.lor 128 (Z.land 63 x)).
Proof. rewrite (Z.land_comm 63). apply continuation_byte. Qed.

(** The bytes [update] writes for a string of code units are bytes: each
    is below 256, so that the shifts that pack four of them into a word
    of [blocks] do not overlap; and a string of characters below 128 is
    written as it is. *)
Theorem utf8_bytes (s : jsstring) :
  Forall is_code_unit s ->
  Forall is_byte (utf8 (length s) s)
  /\ (Forall (fun c => c < 128) s -> utf8 (length s) s = s).
Proof.
  intros Hs. split.
  - assert (H : forall fuel t, Forall is_code_unit t ->
                               Forall is_byte (utf8 fuel t)).
    { clear s Hs. induction fuel as [| fuel IH]; intros t Ht.
      - destruct t; constructor.
      - destruct t as [| c rest]; [constructor |].
        apply Forall_cons in Ht as [Hc Hrest]. unfold is_code_unit in Hc.
        simpl utf8.
        destruct (Z.ltb_spec c 128); [constructor; [unfold is_byte; lia | apply IH, Hrest] |].
        destruct (Z.ltb_spec c 2048).
        { constructor; [| constructor; [apply continuation_byte' | apply IH, Hrest]].
          apply marked_byte; [lia |].
          pose proof (shiftr_below c 6 32). lia. }
        destruct ((c <? 55296) || (57344 <=? c)).
        { constructor;
            [| constructor;
               [apply continuation_byte
               | constructor; [apply continuation_byte' | apply IH, Hrest]]].
          apply marked_byte; [lia |].
          pose proof (shiftr_below c 12 16). lia. }
        assert (Hcp : forall low, 0 <= low < 1024 ->
                  65536 <= 65536 + Z.lor (Z.shiftl (Z.land 1023 c) 10) low
                  < 65536 + 2 ^ 20).
        { intros low Hlow.
          pose proof (land_1023 c) as Hh.
          assert (0 <= Z.shiftl (Z.land 1023 c) 10 < 2 ^ 20).
          { rewrite Z.shiftl_mul_pow2 by lia. lia. }
          pose proof (lor_below 20 (Z.shiftl (Z.land 1023 c) 10) low).
          lia. }
        assert (Hlow : 0 <= match rest with
                            | [] => 0
                            | d :: _ => Z.land 1023 d
                            end < 1024).
        { destruct rest as [| d ?]; [lia | apply land_1023]. }
        specialize (Hcp _ Hlow).
        set (cp := 65536 + Z.lor (Z.shiftl (Z.land 1023 c) 10)
                             match rest with
                             | [] => 0
                             | d :: _ => Z.land 1023 d
                             end) in *.
        cbv zeta.
        constructor;
          [| constructor;
             [apply continuation_byte
             | constructor;
               [apply continuation_byte
               | constructor; [apply continuation_byte' |]]]].
        + apply marked_byte; [lia |].
          pose proof (shiftr_below cp 18 8). lia.
        + apply IH. destruct rest as [| ? ?]; [constructor |].
          apply Forall_cons in Hrest as [_ Hrest]. exact Hrest. }
    apply H, Hs.
  - intros Hascii. clear Hs.
    induction s as [| c rest IH]; [reflexivity |].
    apply Forall_cons in Hascii as [Hc Hrest].
    simpl. destruct (Z.ltb_spec c 128); [| lia].
    f_equal. apply IH, Hrest.
Qed.

Lemma utf8_bytes_witness :
  Forall is_byte (utf8 4 [233; 8364; 55357; 56832])
  /\ (Forall (fun c => c < 128) [233; 8364; 55357; 56832] ->
      utf8 4 [233; 8364; 55357; 56832] = [233; 8364; 55357; 56832]).
Proof.
  apply (utf8_bytes [233; 8364; 55357; 56832]).
  repeat constructor; unfold is_code_unit; lia.
Defined.

(** The characters of a digest, uppercased and remapped, still tell the
    sixteen digits apart. *)
Lemma remap_upper_inj (a b : Z) :
  is_hex_lower a = true -> is_hex_lower b = true ->
  remap_char (upper a) = remap_char (upper b) -> a = b.
Proof.
  unfold is_hex_lower. intros Ha Hb.
  assert (Hf : forall x,
             ((48 <=? x) && (x <=? 57)) || ((97 <=? x) && (x <=? 102)) = true ->
             remap_char (upper x)
             = if x <=? 56 then x + 23 else if x <=? 57 then 57 else x - 32).
  { intros x Hx.
    assert (Hcases : x = 48 \/ x = 49 \/ x = 50 \/ x = 51 \/ x = 52 \/ x = 53
                     \/ x = 54 \/ x = 55 \/ x = 56 \/ x = 57 \/ x = 97
                     \/ x = 98 \/ x = 99 \/ x = 100 \/ x = 101 \/ x = 102)
      by lia.
    repeat (destruct Hcases as [-> | Hcases]; [reflexivity |]).
    subst x. reflexivity. }
  rewrite (Hf a Ha), (Hf b Hb).
  destruct (Z.leb_spec a 56), (Z.leb_spec a 57), (Z.leb_spec b 56),
    (Z.leb_spec b 57); lia.
Qed.

Lemma remap_digest_inj (l1 l2 : jsstring) :
  Forall (fun c => is_hex_lower c = true) l1 ->
  Forall (fun c => is_hex_lower c = true) l2 ->
  remap_char <$> toUpperCase l1 = remap_char <$> toUpperCase l2 ->
  l1 = l2.
Proof.
  intros H1. revert l2. induction H1 as [| a l1 Ha _ IH]; intros l2 H2 E.
  - destruct l2; [reflexivity | discriminate E].
  - destruct H2 as [| b l2 Hb H2]; [discriminate E |].
    simpl in E. injection E as Eh Et.
    f_equal; [apply remap_upper_inj; assumption | apply IH; assumption].
Qed.

(** Two book paths get the same address exactly when they have the same
    digest: uppercasing, the remap and the fillers merge no two
    digests. *)
Theorem hashCreate_collides_with_digest (p q : jsstring) :
  hashCreate p = hashCreate q <-> sha256 p = sha256 q.
Proof.
  unfold hashCreate. rewrite !hashCreate_bound_fmap by lia. split.
  - intros E. apply app_inv_tail in E.
    apply remap_digest_inj; [apply hex_hex | apply hex_hex | exact E].
  - intros E. rewrite E. reflexivity.
Qed.

(** ** The tryte codec *)

Lemma tryte_is_tryte (k : Z) : 0 <= k < 27 -> is_tryte (tryte k) = true.
Proof.
  intros Hk.
  assert (Hcases : exists n, k = Z.of_nat n /\ (n < 27)%nat)
    by (exists (Z.to_nat k); lia).
  destruct Hcases as [n [-> Hn]].
  do 27 (destruct n as [| n]; [reflexivity |]). lia.
Qed.

Lemma indexOf_tryte (k : Z) : 0 <= k < 27 -> indexOf (tryte k) = k.
Proof.
  intros Hk.
  assert (Hcases : exists n, k = Z.of_nat n /\ (n < 27)%nat)
    by (exists (Z.to_nat k); lia).
  destruct Hcases as [n [-> Hn]].
  do 27 (destruct n as [| n]; [reflexivity |]). lia.
Qed.

Lemma tryte_nine (k : Z) : 0 <= k < 27 -> tryte k = char "9" -> k = 0.
Proof.
  intros Hk E.
  assert (Hcases : exists n, k = Z.of_nat n /\ (n < 27)%nat)
    by (exists (Z.to_nat k); lia).
  destruct Hcases as [n [-> Hn]].
  destruct n as [| n]; [reflexivity |].
  do 26 (destruct n as [| n]; [discriminate E |]). lia.
Qed.

Lemma latin1_digits (c : Z) :
  is_latin1 c -> 0 <= c mod 27 < 27 /\ 0 <= (c - c mod 27) / 27 < 27
                 /\ c mod 27 + 27 * ((c - c mod 27) / 27) = c.
Proof.
  unfold is_latin1. intros Hc.
  pose proof (Z.mod_pos_bound c 27 ltac:(lia)) as Hm.
  pose proof (Z.div_mod c 27 ltac:(lia)) as Hd.
  assert (E : (c - c mod 27) / 27 = c / 27).
  { replace (c - c mod 27) with (c / 27 * 27) by lia.
    apply Z.div_mul. lia. }
  rewrite E.
  assert (0 <= c / 27 < 27).
  { split; [apply Z.div_pos; lia | apply Z.div_lt_upper_bound; lia]. }
  lia.
Qed.

Lemma toTrytes_latin1 (s : jsstring) :
  Forall is_latin1 s ->
  exists t, toTrytes s = Some t
            /\ fromTrytes_pairs t = s
            /\ length t = (2 * length s)%nat
            /\ forallb is_tryte t = true.
Proof.
  induction 1 as [| c s Hc Hs [t [Et [Ef [El Ea]]]]].
  - exists []. repeat split.
  - pose proof (latin1_digits c Hc) as [Ho [Hq Hsum]].
    exists (tryte (c mod 27) :: tryte ((c - c mod 27) / 27) :: t).
    simpl toTrytes. unfold is_latin1 in Hc.
    destruct (Z.ltb_spec 255 c); [lia |]. rewrite Et.
    split; [reflexivity |]. split; [| split].
    + simpl fromTrytes_pairs. rewrite !indexOf_tryte, Hsum, Ef by lia.
      unfold fromCharCode. rewrite Z.mod_small by lia. reflexivity.
    + simpl length. lia.
    + simpl forallb. rewrite !tryte_is_tryte, Ea by lia. reflexivity.
Qed.

Lemma even_length_not_odd (t : jsstring) (n : nat) :
  length t = (2 * n)%nat -> Nat.odd (length t) = false.
Proof.
  intros E. rewrite E, <- Nat.negb_even, Nat.even_mul. reflexivity.
Qed.

(** Round trip of the codec: a string whose code units are at most 255
    goes to a string of trytes twice as long, from which [fromTrytes]
    gets the string back. *)
Theorem fromTrytes_toTrytes (s : jsstring) :
  Forall is_latin1 s ->
  exists t, toTrytes s = Some t
            /\ fromTrytes t = Some s
            /\ length t = (2 * length s)%nat
            /\ forallb is_tryte t = true.
Proof.
  intros Hs.
  destruct (toTrytes_latin1 s Hs) as [t [Et [Ef [El Ea]]]].
  exists t. repeat split; try assumption.
  unfold fromTrytes. rewrite (even_length_not_odd t _ El), Ef. reflexivity.
Qed.

Lemma fromTrytes_toTrytes_witness :
  exists t, toTrytes (str "rating: 5") = Some t
            /\ fromTrytes t = Some (str "rating: 5")
            /\ length t = (2 * length (str "rating: 5"))%nat
            /\ forallb is_tryte t = true.
Proof.
  apply (fromTrytes_toTrytes (str "rating: 5")).
  repeat constructor; unfold is_latin1; vm_compute; discriminate.
Defined.

(** [toTrytes] gives up ([null]) exactly on the strings that hold a code
    unit above 255. *)
Theorem toTrytes_null (s : jsstring) :
  toTrytes s = None <-> Exists (fun c => 255 < c) s.
Proof.
  induction s as [| c s IH]; simpl.
  - split; [discriminate | intros H; inversion H].
  - destruct (Z.ltb_spec 255 c) as [Hc | Hc].
    + split; [intros _; left; exact Hc | reflexivity].
    + destruct (toTrytes s) as [t |].
      * split; [discriminate |].
        intros H. apply Exists_cons in H as [H | H]; [lia |].
        apply IH in H. discriminate H.
      * split; [intros _; right; apply IH; reflexivity | reflexivity].
Qed.

(** ** Trimming *)

Lemma rtrim_nine_keep (t : jsstring) (c : Z) :
  c <> char "9" -> rtrim (str "9") (t ++ [c]) = Some (t ++ [c]).
Proof.
  intros Hc. unfold rtrim.
  replace (S (length (t ++ [c]))) with (S (S (length t)))
    by (rewrite length_app; simpl; lia).
  change (rtrim_rec (S (S (length t))) (str "9") (t ++ [c]))
    with (if jsstring_eqb
               (slice_from (t ++ [c]) (Z.of_nat (length (t ++ [c])) - 1))
               (str "9")
          then rtrim_rec (S (length t)) (str "9") (slice (t ++ [c]) 0 (0 - 1))
          else Some (t ++ [c])).
  rewrite slice_last. unfold jsstring_eqb.
  destruct (decide ([c] = str "9")) as [E | _]; [| reflexivity].
  exfalso. apply Hc. injection E as E. exact E.
Qed.

(** [rtrim('9', s)] returns for every string, and what it returns is the
    string without its trailing fillers: all that it cuts are '9', and
    what it leaves does not end in one. *)
Theorem rtrim_nine_strips (s : jsstring) :
  exists t k,
    rtrim (str "9") s = Some t
    /\ s = t ++ replicate k (char "9")
    /\ last t <> Some (char "9").
Proof.
  induction s as [| c s IH] using rev_ind.
  - exists [], 0%nat. repeat split. discriminate.
  - destruct (decide (c = char "9")) as [-> | Hc].
    + destruct IH as [t [k [Et [Es Hl]]]].
      exists t, (S k). rewrite rtrim_nine_snoc. split; [exact Et |].
      split; [| exact Hl].
      rewrite Es at 1. rewrite <- app_assoc. f_equal.
      change [char "9"] with (replicate 1 (char "9")).
      rewrite <- replicate_add. f_equal. lia.
    + exists (s ++ [c]), 0%nat. rewrite rtrim_nine_keep by exact Hc.
      split; [reflexivity |]. split; [simpl; rewrite app_nil_r; reflexivity |].
      rewrite last_snoc. intros E. apply Hc. injection E as E. exact E.
Qed.

Lemma toTrytes_snoc (t : jsstring) (c : Z) (m : jsstring) :
  c <= 255 -> toTrytes t = Some m ->
  toTrytes (t ++ [c])
  = Some (m ++ [tryte (c mod 27); tryte ((c - c mod 27) / 27)]).
Proof.
  intros Hc. revert m. induction t as [| a t IH]; intros m Em; simpl in *.
  - injection Em as <-. destruct (Z.ltb_spec 255 c); [lia | reflexivity].
  - destruct (255 <? a); [discriminate |].
    destruct (toTrytes t) as [r |]; [| discriminate].
    injection Em as <-. rewrite (IH r eq_refl). reflexivity.
Qed.

(** When the last character of a text has a code from 27 to 255, the
    fillers after its trytes are all that [rtrim] cuts, and the text
    comes back from what is left. *)
Theorem fromTrytes_rtrim_fillers (text : jsstring) (c : Z) (fillers : nat) :
  Forall is_latin1 (text ++ [c]) -> 27 <= c ->
  exists m,
    toTrytes (text ++ [c]) = Some m
    /\ rtrim (str "9") (m ++ replicate fillers (char "9")) = Some m
    /\ fromTrytes m = Some (text ++ [c]).
Proof.
  intros Hall Hc.
  destruct (toTrytes_latin1 (text ++ [c]) Hall) as [m [Em [Ef [El _]]]].
  exists m. split; [exact Em |]. split;
    [| unfold fromTrytes;
       rewrite (even_length_not_odd m _ El), Ef; reflexivity].
  clear Ef El.
  apply Forall_app in Hall as [Ht Hlast].
  apply Forall_cons in Hlast as [Hlc _].
  destruct (toTrytes_latin1 text Ht) as [mt [Emt _]].
  assert (Hle : c <= 255) by (unfold is_latin1 in Hlc; lia).
  rewrite (toTrytes_snoc text c mt Hle Emt) in Em.
  injection Em as <-.
  rewrite rtrim_nine_fillers.
  replace (mt ++ [tryte (c mod 27); tryte ((c - c mod 27) / 27)])
    with ((mt ++ [tryte (c mod 27)]) ++ [tryte ((c - c mod 27) / 27)])
    by (rewrite <- app_assoc; reflexivity).
  apply rtrim_nine_keep.
  pose proof (latin1_digits c Hlc) as [Ho [Hq Hsum]].
  intros E. apply tryte_nine in E; [| exact Hq]. lia.
Qed.

Lemma fromTrytes_rtrim_fillers_witness :
  exists m,
    toTrytes (str "{}" ++ [char "}"]) = Some m
    /\ rtrim (str "9") (m ++ replicate 7 (char "9")) = Some m
    /\ fromTrytes m = Some (str "{}" ++ [char "}"]).
Proof.
  apply (fromTrytes_rtrim_fillers (str "{}") (char "}") 7).
  - repeat constructor; unfold is_latin1; vm_compute; discriminate.
  - vm_compute. discriminate.
Defined.



(** ** From the vote handler to the summary *)

Ltac ballot_cases b :=
  match goal with
  | H : from_page b |- _ =>
      destruct b as [r |];
      [ simpl in H;
        assert (r = 1 \/ r = 2 \/ r = 3 \/ r = 4 \/ r = 5) as
          [-> | [-> | [-> | [-> | ->]]]] by lia
      | ];
      clear H
  end.

Lemma rtrim_ballot (b : option Z) (k : nat) :
  from_page b ->
  rtrim (str "9") (ballot_payload b ++ replicate k (char "9"))
  = Some (ballot_payload b).
Proof.
  intros Hb. rewrite rtrim_nine_fillers.
  ballot_cases b; vm_compute; reflexivity.
Qed.

Lemma parse_ballot (b : option Z) :
  from_page b ->
  JSON_parse (fromTrytes (ballot_payload b))
  = Returns (Obj [(str "rating", ballot_value b)]).
Proof. intros Hb. ballot_cases b; vm_compute; reflexivity. Qed.

Lemma ToString_ballot (b : option Z) :
  from_page b -> ToString (ballot_value b) = Returns (decimal (ballot_number b)).
Proof. intros Hb. ballot_cases b; vm_compute; reflexivity. Qed.

Lemma parseInt_ballot (b : option Z) :
  from_page b -> parseInt (ballot_value b) = Returns (int (ballot_number b)).
Proof. intros Hb. ballot_cases b; vm_compute; reflexivity. Qed.

(** [rating[key] += 1] for the key of a ballot. *)
Lemma increment_summary0 (b : option Z) (unset : bool) (c1 c2 c3 c4 c5 : Z)
    (total avg : number) :
  from_page b ->
  increment
    (summary0 unset (int c1) (int c2) (int c3) (int c4) (int c5) total avg)
    (decimal (ballot_number b))
  = Returns
      (summary0 (unset || is_unset b)
         (int (bump (ballot_number b) 1 c1)) (int (bump (ballot_number b) 2 c2))
         (int (bump (ballot_number b) 3 c3)) (int (bump (ballot_number b) 4 c4))
         (int (bump (ballot_number b) 5 c5)) total avg).
Proof.
  intros Hb. destruct b as [r |]; simpl in Hb.
  - (* a chosen value *)
    simpl ballot_number. simpl is_unset. rewrite orb_false_r.
    destruct unset; unfold summary0; [| apply increment_summary, Hb].
    pose proof (increment_summary r c1 c2 c3 c4 c5 total avg Hb) as Hinc.
    unfold increment in *.
    assert (Hkey : str "0" <> decimal r).
    { assert (r = 1 \/ r = 2 \/ r = 3 \/ r = 4 \/ r = 5) as
        [-> | [-> | [-> | [-> | ->]]]] by lia; distinct_keys. }
    rewrite lookup_insert_ne by exact Hkey.
    destruct (summary (int c1) (int c2) (int c3) (int c4) (int c5) total avg
                !! decimal r) as [n |] eqn:E.
    + apply (f_equal (fun o => match o with
                               | Returns m => m
                               | _ => ∅
                               end)) in Hinc.
      cbv beta iota in Hinc. rewrite <- Hinc.
      rewrite insert_insert_ne by (intros E'; apply Hkey; symmetry; exact E').
      reflexivity.
    + exfalso. revert E. unfold summary.
      assert (r = 1 \/ r = 2 \/ r = 3 \/ r = 4 \/ r = 5) as
        [-> | [-> | [-> | [-> | ->]]]] by lia;
        match goal with
        | |- context [decimal ?r] =>
            let k := eval vm_compute in (decimal r) in change (decimal r) with k
        end;
        repeat (rewrite lookup_insert_ne by distinct_keys);
        rewrite lookup_insert_eq; discriminate.
  - (* no value: the key is "0" *)
    simpl ballot_number. change (decimal 0) with (str "0").
    unfold bump. simpl Z.eqb. simpl is_unset. rewrite orb_true_r.
    unfold increment. destruct unset; unfold summary0.
    + rewrite lookup_insert_eq. simpl add. rewrite insert_insert_eq.
      reflexivity.
    + assert (Hnone : summary (int c1) (int c2) (int c3) (int c4) (int c5)
                        total avg !! str "0" = None).
      { unfold summary.
        repeat (rewrite lookup_insert_ne by distinct_keys).
        apply lookup_empty. }
      rewrite Hnone. reflexivity.
Qed.

Lemma for_each_ballots (ballots : list (option Z * nat)) :
  forall (unset : bool) (c1 c2 c3 c4 c5 sum : Z) (total avg : number) (w : world),
  Forall (fun b => from_page (fst b)) ballots ->
  for_each (cast <$> ballots) get_rating_step
    (summary0 unset (int c1) (int c2) (int c3) (int c4) (int c5) total avg,
     int sum) w
  = (Returns
       (summary0 (unset || existsb is_unset (fst <$> ballots))
          (int (c1 + tally 1 (ballot_number <$> (fst <$> ballots))))
          (int (c2 + tally 2 (ballot_number <$> (fst <$> ballots))))
          (int (c3 + tally 3 (ballot_number <$> (fst <$> ballots))))
          (int (c4 + tally 4 (ballot_number <$> (fst <$> ballots))))
          (int (c5 + tally 5 (ballot_number <$> (fst <$> ballots))))
          total avg,
        int (sum + sum_of (ballot_number <$> (fst <$> ballots)))),
     logging (ballot_log sum (fst <$> ballots)) w).
Proof.
  induction ballots as [| [b k] ballots IH];
    intros unset c1 c2 c3 c4 c5 sum total avg w Hv.
  - simpl. unfold mret, M_ret, tally. simpl.
    rewrite !Z.add_0_r, orb_false_r, logging_nil. reflexivity.
  - apply Forall_cons in Hv as [Hb Hv]. simpl in Hb.
    rewrite fmap_cons, for_each_cons.
    rewrite (get_rating_step_eval (cast (b, k)) _ _ _ (int (ballot_number b)) w
               (ballot_payload b) (decimal (ballot_number b))
               (Obj [(str "rating", ballot_value b)]) (ballot_value b)
               (rtrim_ballot b k Hb) (parse_ballot b Hb) eq_refl
               (ToString_ballot b Hb)
               (increment_summary0 b unset _ _ _ _ _ _ _ Hb)
               (parseInt_ballot b Hb)).
    rewrite add_int, IH by exact Hv.
    rewrite logging_logging, !fmap_cons, !tally_cons. simpl fst.
    unfold bump. simpl sum_of. simpl ballot_log. simpl existsb.
    set (n := ballot_number b).
    assert (Hb' : forall i c T,
               (if n =? i then c + 1 else c) + T
               = c + ((if n =? i then 0 + 1 else 0) + T))
      by (intros i c T; destruct (n =? i); lia).
    rewrite (Hb' 1 c1), (Hb' 2 c2), (Hb' 3 c3), (Hb' 4 c4), (Hb' 5 c5).
    rewrite <- (Z.add_assoc sum n), orb_assoc. reflexivity.
Qed.

(** From the handler to the summary: over the records of ballots cast
    from the page (a chosen value from 1 to 5, sent as a string, or none,
    sent as the number 0), [get_rating] hands its callback the counts of
    the five values, the total of all ballots and the sum divided by it;
    a ballot without value counts in the total and adds the member "0",
    whose value is [NaN]. *)
Theorem get_rating_ballots (iota : IOTA) (book_addr : jsstring)
    (callback : gmap jsstring number -> M unit) (w : world)
    (ballots : list (option Z * nat)) :
  Forall (fun b => from_page (fst b)) ballots ->
  findTransactionObjects_reply iota [book_addr] = Success (cast <$> ballots) ->
  get_rating iota book_addr callback w
  = settle
      (callback
         (summary0 (existsb is_unset (fst <$> ballots))
            (int (tally 1 (ballot_number <$> (fst <$> ballots))))
            (int (tally 2 (ballot_number <$> (fst <$> ballots))))
            (int (tally 3 (ballot_number <$> (fst <$> ballots))))
            (int (tally 4 (ballot_number <$> (fst <$> ballots))))
            (int (tally 5 (ballot_number <$> (fst <$> ballots))))
            (int (Z.of_nat (length ballots)))
            (div (int (sum_of (ballot_number <$> (fst <$> ballots))))
                 (int (Z.of_nat (length ballots)))))
         (logging (ballot_log 0 (fst <$> ballots))
            (requested (FindTransactionObjects [book_addr]) w))).
Proof.
  intros Hv Hreply. unfold get_rating, call. rewrite Hreply.
  unfold get_rating_callback. rewrite initial_rating_summary.
  unfold mbind at 1. unfold M_bind at 1.
  change (summary (int 0) (int 0) (int 0) (int 0) (int 0)
            (int (Z.of_nat (length (cast <$> ballots)))) (int 0))
    with (summary0 false (int 0) (int 0) (int 0) (int 0) (int 0)
            (int (Z.of_nat (length (cast <$> ballots)))) (int 0)).
  rewrite for_each_ballots by exact Hv.
  rewrite length_fmap, !Z.add_0_l. simpl orb.
  f_equal. f_equal. unfold summary0, summary.
  destruct (existsb is_unset (fst <$> ballots)).
  - rewrite insert_insert_ne by distinct_keys.
    rewrite insert_insert_eq. reflexivity.
  - rewrite insert_insert_eq. reflexivity.
Qed.

Lemma get_rating_ballots_witness :
  get_rating ledger_5_unset (str "BOOK") report quiet
  = settle
      (report
         (<[str "0" := NaN]>
            (summary (int 0) (int 0) (int 0) (int 0) (int 1) (int 2)
                     (Fin (5 # 2))))
         (logging (ballot_log 0 [Some 5; None])
            (requested (FindTransactionObjects [str "BOOK"]) quiet))).
Proof.
  apply (get_rating_ballots ledger_5_unset (str "BOOK") report quiet
           [(Some 5, 0%nat); (None, 4%nat)]).
  - repeat constructor; simpl; lia.
  - reflexivity.
Defined.





(** ** Records that are no votes *)

Lemma for_each_app {A S} (l1 l2 : list A) (body : A -> S -> M S)
    (s : S) (w : world) :
  for_each (l1 ++ l2) body s w
  = match for_each l1 body s w with
    | (Returns s', w') => for_each l2 body s' w'
    | (Throws e, w') => (Throws e, w')
    | (Unmodelled, w') => (Unmodelled, w')
    end.
Proof.
  revert s w. induction l1 as [| x l1 IH]; intros s w; [reflexivity |].
  simpl app. rewrite !for_each_cons.
  destruct (body x s w) as [[s' | e |] w']; [apply IH | reflexivity | reflexivity].
Qed.

(** A record with no message (a fragment of fillers only, as any
    transfer without message leaves at the address): [rtrim] leaves the
    empty string, [JSON.parse] of it throws, and the loop stops there. *)
Lemma get_rating_step_no_message (k : nat) (vars : gmap jsstring number * number)
    (w : world) :
  get_rating_step {| signatureMessageFragment := replicate k (char "9") |} vars w
  = (Throws SyntaxError, logging [[LogValue (Str [])]] w).
Proof.
  destruct vars as [rating sum].
  unfold get_rating_step, mbind, M_bind, eval, console_log.
  cbn [signatureMessageFragment].
  change (replicate k (char "9")) with ([] ++ replicate k (char "9")).
  rewrite rtrim_nine_fillers. reflexivity.
Qed.

(** One record without message among the records of an address is enough
    for [get_rating] never to run its callback: the exception of
    [JSON.parse] leaves the callback of the client uncaught, after the
    votes before that record were read, and no summary is made, whatever
    follows that record. *)
Theorem get_rating_record_without_message (iota : IOTA) (book_addr : jsstring)
    (callback : gmap jsstring number -> M unit) (w : world)
    (ballots : list (option Z * nat)) (k : nat) (others : list transaction) :
  Forall (fun b => from_page (fst b)) ballots ->
  findTransactionObjects_reply iota [book_addr]
  = Success ((cast <$> ballots)
               ++ {| signatureMessageFragment := replicate k (char "9") |}
               :: others) ->
  get_rating iota book_addr callback w
  = settle
      (Throws SyntaxError,
       logging (ballot_log 0 (fst <$> ballots) ++ [[LogValue (Str [])]])
         (requested (FindTransactionObjects [book_addr]) w)).
Proof.
  intros Hv Hreply. unfold get_rating, call. rewrite Hreply.
  unfold get_rating_callback. rewrite initial_rating_summary.
  unfold mbind at 1. unfold M_bind at 1.
  change (summary (int 0) (int 0) (int 0) (int 0) (int 0) ?t (int 0))
    with (summary0 false (int 0) (int 0) (int 0) (int 0) (int 0) t (int 0)).
  rewrite for_each_app, for_each_ballots by exact Hv.
  rewrite for_each_cons, get_rating_step_no_message, logging_logging.
  reflexivity.
Qed.

Lemma get_rating_record_without_message_witness :
  get_rating ledger_with_blank (str "BOOK") report quiet
  = settle
      (Throws SyntaxError,
       logging (ballot_log 0 [Some 5] ++ [[LogValue (Str [])]])
         (requested (FindTransactionObjects [str "BOOK"]) quiet)).
Proof.
  apply (get_rating_record_without_message ledger_with_blank (str "BOOK")
           report quiet [(Some 5, 0%nat)] 6 [cast (Some 4, 0%nat)]).
  - repeat constructor; simpl; lia.
  - reflexivity.
Defined.

(** The address [hashCreate] returns is one the validator of the client
    takes: 81 characters, each a tryte. *)
Theorem hashCreate_accepted (p : jsstring) :
  isAddress (hashCreate p) = true /\ isTrytes (hashCreate p) 81 = true.
Proof.
  assert (Hall : forallb is_tryte (hashCreate p) = true).
  { apply forallb_forall. intros c Hc.
    pose proof (hashCreate_trytes p) as H.
    rewrite Forall_forall in H. apply H, list_elem_of_In, Hc. }
  unfold isAddress, isTrytes. rewrite hashCreate_length, Hall.
  split; reflexivity.
Qed.

(** ** Properties of [getBookPath] *)

Lemma split_no_sep (sep : Z) (s : jsstring) :
  sep ∉ s -> split sep s = [s].
Proof.
  induction s as [| c s IH]; intros Hs; [reflexivity |].
  apply not_elem_of_cons in Hs as [Hc Hs]. simpl.
  destruct (Z.eqb_spec c sep) as [E | _]; [congruence |].
  rewrite (IH Hs). reflexivity.
Qed.

Lemma split_at_first (sep : Z) (a b : jsstring) :
  sep ∉ a -> split sep (a ++ sep :: b) = a :: split sep b.
Proof.
  induction a as [| c a IH]; intros Ha; simpl.
  - rewrite Z.eqb_refl. reflexivity.
  - apply not_elem_of_cons in Ha as [Hc Ha].
    destruct (Z.eqb_spec c sep) as [E | _]; [congruence |].
    rewrite (IH Ha). reflexivity.
Qed.

Lemma split_not_nil (sep : Z) (s : jsstring) : split sep s <> [].
Proof.
  destruct s as [| c s]; simpl; [discriminate |].
  destruct (c =? sep); [discriminate |].
  destruct (split sep s); discriminate.
Qed.

(** The first piece of a split ends before the first separator. *)
Lemma split_head (sep : Z) (a b : jsstring) :
  sep ∉ a -> split sep (a ++ sep :: b) !! 0%nat = Some a.
Proof. intros Ha. rewrite split_at_first by exact Ha. reflexivity. Qed.

(** For the address of a page whose query is the one parameter
    [bookPath], [getBookPath] returns its value up to the fragment:
    whatever follows a [#] is cut, and the value is written to the
    console. The base has no question mark; the path has none of the
    characters that cut a query. *)
Theorem getBookPath_value (base path rest : jsstring) (w : world) :
  char "?" ∉ base ->
  char "?" ∉ path -> char "&" ∉ path -> char "=" ∉ path -> char "#" ∉ path ->
  rest = []
  \/ (exists fragment,
        rest = char "#" :: fragment
        /\ (char "?" ∉ fragment) /\ (char "&" ∉ fragment)
        /\ (char "=" ∉ fragment)) ->
  getBookPath (base ++ str "?bookPath=" ++ path ++ rest) w
  = (Returns (Str path), logging [[LogValue (Str (path ++ rest))]] w).
Proof.
  intros Hbase Hq Ha He Hh Hrest.
  assert (Hrq : (char "?" ∉ rest) /\ (char "&" ∉ rest) /\ (char "=" ∉ rest)).
  { destruct Hrest as [-> | [f [-> [H1 [H2 H3]]]]].
    - repeat split; apply not_elem_of_nil.
    - repeat split; apply not_elem_of_cons;
        (split; [discriminate | assumption]). }
  destruct Hrq as [Hr1 [Hr2 Hr3]].
  assert (Hkey : forall c, c ∉ str "bookPath" -> c <> char "=" ->
                           c ∉ str "bookPath=").
  { intros c Hc Hne. change (str "bookPath=") with (str "bookPath" ++ [char "="]).
    rewrite not_elem_of_app. split; [exact Hc |].
    apply not_elem_of_cons. split; [exact Hne | apply not_elem_of_nil]. }
  assert (Hname : forall c, c = char "?" \/ c = char "&" \/ c = char "=" ->
                            c ∉ str "bookPath").
  { intros c Hc H. vm_compute in H.
    repeat (apply elem_of_cons in H as [H | H];
            [destruct Hc as [-> | [-> | ->]]; discriminate H |]).
    inversion H. }
  remember (str "bookPath=" ++ path ++ rest) as query eqn:Hqdef.
  assert (Hquery : split (char "?") (base ++ str "?bookPath=" ++ path ++ rest)
                   = [base; query]).
  { change (str "?bookPath=") with (char "?" :: str "bookPath=").
    rewrite <- app_comm_cons, <- Hqdef.
    rewrite split_at_first by exact Hbase.
    rewrite split_no_sep; [reflexivity |].
    rewrite Hqdef, !not_elem_of_app.
    split; [apply Hkey; [apply Hname; tauto | discriminate] |].
    split; assumption. }
  assert (Hparams : split (char "&") query = [query]).
  { apply split_no_sep. rewrite Hqdef, !not_elem_of_app.
    split; [apply Hkey; [apply Hname; tauto | discriminate] |].
    split; assumption. }
  assert (Hpair : split (char "=") query = [str "bookPath"; path ++ rest]).
  { rewrite Hqdef.
    change (str "bookPath=" ++ path ++ rest)
      with (str "bookPath" ++ char "=" :: (path ++ rest)).
    rewrite split_at_first by (apply Hname; tauto).
    rewrite split_no_sep; [reflexivity |].
    rewrite not_elem_of_app. split; assumption. }
  assert (Hres : split (char "#") (path ++ rest) !! 0%nat = Some path).
  { destruct Hrest as [-> | [f [-> _]]].
    - rewrite app_nil_r, split_no_sep by exact Hh. reflexivity.
    - apply split_head, Hh. }
  unfold getBookPath. rewrite Hquery. cbn [lookup list_lookup].
  destruct query as [| c q']; [discriminate Hqdef |].
  rewrite Hparams. unfold mbind, M_bind. simpl for_each.
  unfold getBookPath_step. rewrite Hpair. cbn [lookup list_lookup default id].
  unfold mbind, M_bind, console_log, mret, M_ret, assign.
  change (jsstring_eqb (str "bookPath") (str "__proto__")) with false.
  cbv beta iota. rewrite lookup_insert_eq, Hres. reflexivity.
Qed.

Lemma getBookPath_value_witness :
  getBookPath
    (str "http://localhost:3000/books/" ++ str "?bookPath="
       ++ str "moby-dick.epub" ++ str "#epubcfi(/6/4)") quiet
  = (Returns (Str (str "moby-dick.epub")),
     logging [[LogValue (Str (str "moby-dick.epub" ++ str "#epubcfi(/6/4)"))]]
       quiet).
Proof.
  apply (getBookPath_value (str "http://localhost:3000/books/")
           (str "moby-dick.epub") (str "#epubcfi(/6/4)") quiet);
    try (vm_compute; intros H;
         repeat (apply elem_of_cons in H as [H | H]; [discriminate H |]);
         inversion H).
  right. exists (str "epubcfi(/6/4)"). split; [reflexivity |].
  repeat split;
    (vm_compute; intros H;
     repeat (apply elem_of_cons in H as [H | H]; [discriminate H |]);
     inversion H).
Defined.

(** Without a query (no question mark in the address, or nothing after
    it) [getBookPath] returns the empty object, not a string, and writes
    nothing. *)
Theorem getBookPath_no_query (base : jsstring) (w : world) :
  char "?" ∉ base ->
  getBookPath base w = (Returns (Obj []), w)
  /\ getBookPath (base ++ str "?") w = (Returns (Obj []), w).
Proof.
  intros Hbase. unfold getBookPath. split.
  - rewrite split_no_sep by exact Hbase. reflexivity.
  - change (str "?") with (char "?" :: []).
    rewrite split_at_first by exact Hbase. reflexivity.
Qed.

Lemma getBookPath_no_query_witness :
  getBookPath (str "http://localhost:3000/books/") quiet
  = (Returns (Obj []), quiet)
  /\ getBookPath (str "http://localhost:3000/books/" ++ str "?") quiet
     = (Returns (Obj []), quiet).
Proof.
  apply (getBookPath_no_query (str "http://localhost:3000/books/") quiet).
  vm_compute. intros H.
  repeat (apply elem_of_cons in H as [H | H]; [discriminate H |]).
  inversion H.
Defined.

Lemma getBookPath_loop_no_bookPath (params : list jsstring) :
  forall (pairs : gmap jsstring (option jsstring)) (w : world),
  Forall (fun p => param_name p <> str "bookPath") params ->
  pairs !! str "bookPath" = None ->
  exists pairs' w',
    for_each params getBookPath_step pairs w = (Returns pairs', w')
    /\ pairs' !! str "bookPath" = None.
Proof.
  induction params as [| p params IH]; intros pairs w Hall Hnone.
  - exists pairs, w. split; [reflexivity | exact Hnone].
  - apply Forall_cons in Hall as [Hp Hall].
    rewrite for_each_cons.
    unfold getBookPath_step at 1.
    unfold mbind, M_bind, console_log, mret, M_ret. cbv beta iota.
    apply IH; [exact Hall |].
    unfold assign. fold (param_name p).
    destruct (jsstring_eqb (param_name p) (str "__proto__")); [exact Hnone |].
    rewrite lookup_insert_ne by exact Hp. exact Hnone.
Qed.

(** A query in which no parameter is named [bookPath] ends
    [getBookPath] with the [TypeError] of [undefined.split]: no book path
    comes back. *)
Theorem getBookPath_missing_parameter (base query : jsstring) (w : world) :
  char "?" ∉ base -> char "?" ∉ query -> query <> [] ->
  Forall (fun p => param_name p <> str "bookPath") (split (char "&") query) ->
  fst (getBookPath (base ++ char "?" :: query) w) = Throws TypeError.
Proof.
  intros Hbase Hquery Hne Hall.
  unfold getBookPath.
  rewrite split_at_first by exact Hbase.
  rewrite split_no_sep by exact Hquery. cbn [lookup list_lookup].
  destruct query as [| c q]; [congruence |].
  destruct (getBookPath_loop_no_bookPath _ ∅ w Hall (lookup_empty _))
    as [pairs' [w' [Hloop Hnone]]].
  unfold mbind, M_bind. rewrite Hloop, Hnone. reflexivity.
Qed.

Lemma getBookPath_missing_parameter_witness :
  fst (getBookPath (str "http://localhost:3000/books/"
                      ++ char "?" :: str "book=moby-dick.epub&page=3") quiet)
  = Throws TypeError.
Proof.
  apply (getBookPath_missing_parameter (str "http://localhost:3000/books/")
           (str "book=moby-dick.epub&page=3") quiet).
  - vm_compute. intros H.
    repeat (apply elem_of_cons in H as [H | H]; [discriminate H |]).
    inversion H.
  - vm_compute. intros H.
    repeat (apply elem_of_cons in H as [H | H]; [discriminate H |]).
    inversion H.
  - discriminate.
  - vm_compute. repeat constructor; discriminate.
Defined.

(** ** The vote handler *)





(** ** Properties of [folder] *)

Lemma last_from_snoc (c x : Z) (s : jsstring) :
  forall i found,
    Url.last_from c (s ++ [x]) i found
    = if x =? c then i + Z.of_nat (length s) else Url.last_from c s i found.
Proof.
  induction s as [| y s IH]; intros i found; simpl.
  - destruct (x =? c); [lia | reflexivity].
  - rewrite IH. destruct (x =? c); [lia | reflexivity].
Qed.

Lemma lastIndexOf_snoc (c x : Z) (s : jsstring) :
  Url.lastIndexOf c (s ++ [x])
  = if x =? c then Z.of_nat (length s) else Url.lastIndexOf c s.
Proof. unfold Url.lastIndexOf. rewrite last_from_snoc. reflexivity. Qed.

Lemma lastIndexOf_range (c : Z) (s : jsstring) :
  -1 <= Url.lastIndexOf c s < Z.of_nat (length s) \/ (s = [] /\ Url.lastIndexOf c s = -1).
Proof.
  induction s as [| x s IH] using rev_ind; [right; split; reflexivity |].
  left. rewrite lastIndexOf_snoc, length_app. simpl length.
  destruct (x =? c); [lia |]. destruct IH as [IH | [-> IH]]; [lia |].
  rewrite IH. simpl. lia.
Qed.

Lemma slice_take (s : jsstring) (b : Z) :
  0 <= b <= Z.of_nat (length s) -> slice s 0 b = take (Z.to_nat b) s.
Proof.
  intros Hb. unfold slice, slice_index. change (0 <? 0) with false.
  destruct (Z.ltb_spec b 0); [lia |].
  rewrite Z.min_l, Z.min_l by lia. rewrite Z.sub_0_r. reflexivity.
Qed.

Lemma folder_take (url : jsstring) :
  Url.folder url = take (Z.to_nat (Url.lastIndexOf (char "/") url + 1)) url.
Proof.
  unfold Url.folder. apply slice_take.
  destruct (lastIndexOf_range (char "/") url) as [H | [-> H]]; [lia |].
  rewrite H. simpl. lia.
Qed.

Lemma folder_snoc (s : jsstring) (x : Z) :
  Url.folder (s ++ [x])
  = if x =? char "/" then s ++ [x] else Url.folder s.
Proof.
  rewrite !folder_take, lastIndexOf_snoc.
  destruct (x =? char "/").
  - replace (Z.to_nat (Z.of_nat (length s) + 1)) with (length (s ++ [x]))
      by (rewrite length_app; simpl; lia).
    apply firstn_all.
  - apply take_app_le.
    destruct (lastIndexOf_range (char "/") s) as [H | [-> H]]; [lia |].
    rewrite H. simpl. lia.
Qed.

Lemma folder_cuts_at_last_slash_aux (url : jsstring) :
  exists name,
    url = Url.folder url ++ name
    /\ (char "/" ∉ name)
    /\ (Url.folder url = [] \/ exists d, Url.folder url = d ++ [char "/"]).
Proof.
  induction url as [| x s [name [Hs [Hn He]]]] using rev_ind.
  - exists []. repeat split; [apply not_elem_of_nil | left; reflexivity].
  - rewrite folder_snoc. destruct (Z.eqb_spec x (char "/")) as [-> | Hx].
    + exists []. rewrite app_nil_r. split; [reflexivity |].
      split; [apply not_elem_of_nil |]. right. exists s. reflexivity.
    + exists (name ++ [x]). split; [rewrite app_assoc, <- Hs; reflexivity |].
      split; [| assumption].
      rewrite not_elem_of_app. split; [exact Hn |].
      apply not_elem_of_cons. split; [congruence | apply not_elem_of_nil].
Qed.

(** [folder] cuts an address after its last slash: the address is the
    folder followed by a name without slash, the folder is empty or ends
    in a slash, and the folder of a folder is the folder itself. *)
Theorem folder_cuts_at_last_slash (url : jsstring) :
  exists name,
    url = Url.folder url ++ name
    /\ (char "/" ∉ name)
    /\ (Url.folder url = [] \/ last (Url.folder url) = Some (char "/"))
    /\ Url.folder (Url.folder url) = Url.folder url.
Proof.
  destruct (folder_cuts_at_last_slash_aux url) as [name [Hs [Hn He]]].
  exists name. split; [exact Hs |]. split; [exact Hn |].
  destruct He as [He | [d He]]; rewrite He.
  - split; [left; reflexivity | reflexivity].
  - split; [right; apply last_snoc |].
    rewrite folder_snoc. reflexivity.
Qed.

(** ** Properties of [uri] and [resolveUrl] *)

Lemma split_snoc (sep : Z) (a name : jsstring) :
  sep ∉ name -> split sep (a ++ sep :: name) = split sep a ++ [name].
Proof.
  intros Hn. induction a as [| c a IH]; simpl.
  - rewrite Z.eqb_refl, (split_no_sep _ _ Hn). reflexivity.
  - rewrite IH. destruct (c =? sep); [reflexivity |].
    destruct (split sep a) as [| h t] eqn:E; [| reflexivity].
    destruct (split_not_nil _ _ E).
Qed.

Lemma join_split (sep : Z) (s : jsstring) : join [sep] (split sep s) = s.
Proof.
  induction s as [| c s IH]; [reflexivity |]. simpl split.
  destruct (c =? sep) eqn:E.
  - apply Z.eqb_eq in E as ->.
    destruct (split sep s) as [| h t] eqn:Es; [destruct (split_not_nil _ _ Es) |].
    change (join [sep] ([] :: h :: t)) with ([sep] ++ join [sep] (h :: t)).
    rewrite IH. reflexivity.
  - destruct (split sep s) as [| h t] eqn:Es; [destruct (split_not_nil _ _ Es) |].
    rewrite <- IH. destruct t; reflexivity.
Qed.

Lemma join_app (sep : jsstring) (l1 l2 : list jsstring) :
  l1 <> [] -> l2 <> [] ->
  join sep (l1 ++ l2) = join sep l1 ++ sep ++ join sep l2.
Proof.
  intros H1 H2. induction l1 as [| x l1 IH]; [congruence |].
  destruct l1 as [| y l1].
  - destruct l2; [congruence | reflexivity].
  - change (join sep ((x :: y :: l1) ++ l2))
      with (x ++ sep ++ join sep ((y :: l1) ++ l2)).
    rewrite IH by discriminate.
    change (join sep (x :: y :: l1)) with (x ++ sep ++ join sep (y :: l1)).
    rewrite <- !app_assoc. reflexivity.
Qed.

Lemma resolve_pieces_plain (paths folders segments : list jsstring) :
  Forall (fun p => p <> str "..") paths ->
  Url.resolve_pieces paths folders segments = (folders, segments ++ paths).
Proof.
  intros H. revert segments.
  induction H as [| p paths Hp _ IH]; intros segments; simpl.
  - rewrite app_nil_r. reflexivity.
  - unfold jsstring_eqb. destruct (decide (p = str "..")); [contradiction |].
    rewrite IH, <- app_assoc. reflexivity.
Qed.

(** The folders of a base address, after [folders.pop()], joined again:
    the folder of the base without its last slash; none when the base has
    no slash. *)
Lemma folders_of_base (b : jsstring) :
  (Url.folder b = [] /\ removelast (split (char "/") b) = [])
  \/ (exists d, Url.folder b = d ++ [char "/"]
             /\ removelast (split (char "/") b) = split (char "/") d).
Proof.
  destruct (folder_cuts_at_last_slash_aux b) as [name [Hb [Hn He]]].
  destruct He as [He | [d He]].
  - left. split; [exact He |]. rewrite He in Hb. simpl in Hb. subst name.
    rewrite (split_no_sep _ _ Hn). reflexivity.
  - right. exists d. split; [exact He |].
    rewrite Hb at 1. rewrite He, <- app_assoc. simpl.
    rewrite (split_snoc _ _ _ Hn). apply removelast_last.
Qed.

Lemma starts_with_app (pat s : jsstring) : Url.starts_with pat (pat ++ s) = true.
Proof.
  induction pat as [| p pat IH]; [reflexivity |].
  simpl. rewrite Z.eqb_refl. exact IH.
Qed.

Lemma index_of_from_absent (c : Z) (pat s : jsstring) (i : Z) :
  c ∉ s -> Url.index_of_from (c :: pat) s i = -1.
Proof.
  revert i. induction s as [| x s IH]; intros i Hs; [reflexivity |].
  apply not_elem_of_cons in Hs as [Hc Hs].
  change (Url.index_of_from (c :: pat) (x :: s) i)
    with (if (c =? x) && Url.starts_with pat s then i
          else Url.index_of_from (c :: pat) s (i + 1)).
  destruct (Z.eqb_spec c x) as [E | _]; [congruence |]. apply IH, Hs.
Qed.

Lemma index_of_from_first (c : Z) (pat a b : jsstring) (i : Z) :
  c ∉ a ->
  Url.index_of_from (c :: pat) (a ++ (c :: pat) ++ b) i = i + Z.of_nat (length a).
Proof.
  revert i. induction a as [| x a IH]; intros i Ha.
  - change ([] ++ (c :: pat) ++ b) with ((c :: pat) ++ b).
    destruct b as [| y b]; simpl; rewrite ?app_nil_r, Z.eqb_refl;
      [ change pat with ([] ++ pat) at 2; rewrite app_nil_l;
        rewrite <- (app_nil_r pat) at 2; rewrite starts_with_app
      | rewrite starts_with_app ]; simpl; lia.
  - apply not_elem_of_cons in Ha as [Hc Ha].
    change (Url.index_of_from (c :: pat) ((x :: a) ++ (c :: pat) ++ b) i)
      with (if (c =? x) && Url.starts_with pat (a ++ (c :: pat) ++ b) then i
            else Url.index_of_from (c :: pat) (a ++ (c :: pat) ++ b) (i + 1)).
    destruct (Z.eqb_spec c x) as [E | _]; [congruence |].
    simpl andb. cbv iota. rewrite (IH _ Ha). simpl length. lia.
Qed.

Lemma index_of_from_range (pat s : jsstring) (i : Z) :
  Url.index_of_from pat s i = -1 \/ i <= Url.index_of_from pat s i.
Proof.
  revert i. induction s as [| x s IH]; intros i; simpl.
  - destruct (Url.starts_with pat []); [right; lia | left; reflexivity].
  - destruct (Url.starts_with pat (x :: s)); [right; lia |].
    destruct (IH (i + 1)) as [H | H]; [left; exact H | right; lia].
Qed.

Lemma index_of_from_none (pat s : jsstring) (i j : Z) :
  0 <= i -> Url.index_of_from pat s i = -1 -> Url.index_of_from pat s j = -1.
Proof.
  revert i j. induction s as [| x s IH]; intros i j Hi; simpl.
  - destruct (Url.starts_with pat []); [lia | reflexivity].
  - destruct (Url.starts_with pat (x :: s)); [lia |].
    apply IH. lia.
Qed.

(** An address in which [://] does not occur has no host. *)
Lemma uri_relative_host (url : jsstring) :
  Url.indexOf (str "://") url = -1 -> Url.host (Url.uri url) = [].
Proof.
  intros H. unfold Url.uri. rewrite H.
  destruct (_ =? 0); reflexivity.
Qed.

(** A path without protocol and without a piece [..] is put after the
    folder of the base. *)
Theorem resolveUrl_relative (base path : jsstring) :
  Url.indexOf (str "://") path = -1 ->
  Forall (fun p => p <> str "..") (split (char "/") path) ->
  Url.resolveUrl base path = Url.folder base ++ path.
Proof.
  intros Hrel Hp. unfold Url.resolveUrl.
  rewrite (uri_relative_host _ Hrel), (resolve_pieces_plain _ _ _ Hp).
  rewrite app_nil_l.
  destruct (folders_of_base base) as [[-> ->] | [d [-> ->]]].
  - apply (join_split (char "/")).
  - change (str "/") with [char "/"].
    rewrite join_app by apply split_not_nil.
    rewrite !join_split, <- app_assoc. reflexivity.
Qed.

Lemma resolveUrl_relative_witness :
  Url.resolveUrl (str "/books/alice/OPS/package.opf") (str "text/chapter1.xhtml")
  = str "/books/alice/OPS/text/chapter1.xhtml".
Proof.
  refine (eq_trans
    (resolveUrl_relative (str "/books/alice/OPS/package.opf")
       (str "text/chapter1.xhtml") _ _) _).
  - reflexivity.
  - repeat constructor; discriminate.
  - reflexivity.
Defined.

(** A path that begins with [../] is put after the folder one level
    above the folder of the base; when the base is in no folder, there is
    nothing to leave and the path is kept as it is. *)
Theorem resolveUrl_parent (base path : jsstring) :
  Url.indexOf (str "://") path = -1 ->
  Forall (fun p => p <> str "..") (split (char "/") path) ->
  (forall d, Url.folder base = d ++ [char "/"] ->
     Url.resolveUrl base (str "../" ++ path) = Url.folder d ++ path)
  /\ (Url.folder base = [] ->
        Url.resolveUrl base (str "../" ++ path) = path).
Proof.
  intros Hrel Hp.
  assert (Hrel' : Url.indexOf (str "://") (str "../" ++ path) = -1).
  { change (Url.indexOf (str "://") (str "../" ++ path))
      with (Url.index_of_from (str "://") path 3).
    apply (index_of_from_none _ _ 0); [lia | exact Hrel]. }
  assert (Hsplit : split (char "/") (str "../" ++ path)
                   = str ".." :: split (char "/") path).
  { apply (split_at_first (char "/") (str "..")).
    intros H. repeat (apply elem_of_cons in H as [H | H]; [discriminate |]).
    apply elem_of_nil in H. exact H. }
  assert (Hrun : forall folders,
            (let '(f, s) := Url.resolve_pieces
                              (split (char "/") (str "../" ++ path)) folders [] in
             join (str "/") (f ++ s))
            = join (str "/") (removelast folders ++ split (char "/") path)).
  { intros folders. rewrite Hsplit.
    change (Url.resolve_pieces (str ".." :: ?p) folders [])
      with (Url.resolve_pieces (split (char "/") path) (removelast folders) []).
    rewrite (resolve_pieces_plain _ _ _ Hp). reflexivity. }
  unfold Url.resolveUrl. rewrite (uri_relative_host _ Hrel'), Hrun.
  change (str "/") with [char "/"].
  split.
  - intros d Hd.
    destruct (folders_of_base base) as [[E _] | [d' [E ->]]];
      rewrite Hd in E; [destruct d; discriminate |].
    apply app_inj_tail in E as [<- _].
    destruct (folders_of_base d) as [[-> ->] | [e [-> ->]]].
    + apply join_split.
    + rewrite join_app by apply split_not_nil.
      rewrite !join_split, <- app_assoc. reflexivity.
  - intros Hd.
    destruct (folders_of_base base) as [[_ ->] | [d' [E _]]];
      [| rewrite Hd in E; destruct d'; discriminate].
    apply join_split.
Qed.

Lemma resolveUrl_parent_witness :
  Url.resolveUrl (str "/books/alice/OPS/package.opf") (str "../images/cover.jpg")
  = str "/books/alice/images/cover.jpg".
Proof.
  refine (eq_trans
    (proj1 (resolveUrl_parent (str "/books/alice/OPS/package.opf")
              (str "images/cover.jpg") _ _) (str "/books/alice/OPS") _) _).
  - reflexivity.
  - repeat constructor; discriminate.
  - reflexivity.
  - reflexivity.
Defined.

Lemma slice_app_left (a b : jsstring) : slice (a ++ b) 0 (Z.of_nat (length a)) = a.
Proof.
  rewrite slice_take by (rewrite length_app; lia).
  rewrite Nat2Z.id. apply take_app_length.
Qed.

Lemma slice_from_app_right (a b : jsstring) :
  slice_from (a ++ b) (Z.of_nat (length a)) = b.
Proof.
  unfold slice_from, slice, slice_index. rewrite length_app.
  destruct (Z.ltb_spec (Z.of_nat (length a)) 0); [lia |].
  destruct (Z.ltb_spec (Z.of_nat (length a + length b)) 0); [lia |].
  rewrite Z.min_l, Z.min_l by lia. rewrite Nat2Z.id, drop_app_length.
  apply firstn_all2. lia.
Qed.

Lemma remove_first_eq (pat s : jsstring) :
  Url.remove_first pat s
  = if Url.starts_with pat s then skipn (length pat) s
    else match s with
         | [] => []
         | x :: rest => x :: Url.remove_first pat rest
         end.
Proof. destruct s; reflexivity. Qed.

Lemma remove_first_prefix (pat s : jsstring) : Url.remove_first pat (pat ++ s) = s.
Proof. rewrite remove_first_eq, starts_with_app. apply drop_app_length. Qed.

Lemma starts_with_until (c : Z) (p a r : jsstring) :
  c ∉ p -> c ∉ a -> Url.starts_with (p ++ [c]) (a ++ c :: r) = true -> a = p.
Proof.
  revert a. induction p as [| y p IH]; intros a Hp Ha E.
  - destruct a as [| x a]; [reflexivity |]. simpl in E.
    apply andb_prop in E as [E _]. apply Z.eqb_eq in E. subst x.
    destruct Ha. apply elem_of_cons. left. reflexivity.
  - apply not_elem_of_cons in Hp as [Hy Hp].
    destruct a as [| x a]; simpl in E; apply andb_prop in E as [E1 E2];
      apply Z.eqb_eq in E1.
    + congruence.
    + apply not_elem_of_cons in Ha as [_ Ha]. subst x.
      f_equal. apply IH; assumption.
Qed.

(** An address that begins with a protocol other than [blob] followed by
    [://] is not taken for a [blob:] address. *)
Lemma indexOf_blob (proto rest : jsstring) :
  char ":" ∉ proto -> proto <> str "blob" ->
  (Url.indexOf (str "blob:") (proto ++ str "://" ++ rest) =? 0) = false.
Proof.
  intros Hc Hb. unfold Url.indexOf.
  destruct (Url.starts_with (str "blob:") (proto ++ str "://" ++ rest)) eqn:E.
  - exfalso. apply Hb.
    apply (starts_with_until (char ":") (str "blob") proto (str "//" ++ rest));
      [| exact Hc | exact E].
    intros H. repeat (apply elem_of_cons in H as [H | H]; [discriminate |]).
    apply elem_of_nil in H. exact H.
  - destruct (proto ++ str "://" ++ rest) as [| x s] eqn:Es.
    + destruct proto; discriminate.
    + change (Url.index_of_from (str "blob:") (x :: s) 0)
        with (if Url.starts_with (str "blob:") (x :: s) then 0
              else Url.index_of_from (str "blob:") s (0 + 1)).
      rewrite E.
      destruct (index_of_from_range (str "blob:") s (0 + 1)) as [-> | H];
        [reflexivity | apply Z.eqb_neq; lia].
Qed.

(** What [uri] computes for an address with a protocol and without
    question mark and hash: the text after [://] is cut at its first
    slash. *)
Lemma uri_absolute_eq (proto rest : jsstring) :
  char ":" ∉ proto -> proto <> str "blob" ->
  char "?" ∉ proto ++ str "://" ++ rest ->
  char "#" ∉ proto ++ str "://" ++ rest ->
  Url.uri (proto ++ str "://" ++ rest)
  = let url := proto ++ str "://" ++ rest in
    let firstSlash := Url.indexOf (str "/") rest in
    let host := if firstSlash =? -1 then [] else slice rest 0 firstSlash in
    let path := if firstSlash =? -1 then [] else slice_from rest firstSlash in
    let origin := proto ++ str "://" ++ host in
    let directory := Url.folder path in
    let base := origin ++ directory in
    let filename := Url.remove_first base url in
    let dot := Url.lastIndexOf (char ".") filename in
    {| Url.protocol := proto; Url.host := host; Url.path := path;
       Url.origin := origin; Url.directory := directory;
       Url.base := Str base; Url.filename := filename;
       Url.extension := if dot =? -1 then [] else slice_from filename (dot + 1);
       Url.fragment := []; Url.href := url; Url.search := None |}.
Proof.
  intros Hc Hb Hq Hh. unfold Url.uri.
  rewrite (indexOf_blob _ _ Hc Hb).
  replace (Url.indexOf (str "?") (proto ++ str "://" ++ rest)) with (-1)
    by (symmetry; exact (index_of_from_absent (char "?") [] _ 0 Hq)).
  replace (Url.indexOf (str "#") (proto ++ str "://" ++ rest)) with (-1)
    by (symmetry; exact (index_of_from_absent (char "#") [] _ 0 Hh)).
  replace (Url.indexOf (str "://") (proto ++ str "://" ++ rest))
    with (Z.of_nat (length proto))
    by (symmetry;
        exact (index_of_from_first (char ":") (str "//") proto rest 0 Hc)).
  change (-1 =? -1) with true. cbv iota.
  destruct (Z.eqb_spec (Z.of_nat (length proto)) (-1)) as [E | _]; [lia |].
  rewrite slice_app_left.
  replace (slice_from (proto ++ str "://" ++ rest) (Z.of_nat (length proto) + 3))
    with rest; [reflexivity |].
  rewrite (app_assoc proto (str "://") rest).
  replace (Z.of_nat (length proto) + 3)
    with (Z.of_nat (length (proto ++ str "://")))
    by (rewrite length_app; simpl; lia).
  symmetry. apply slice_from_app_right.
Qed.

Lemma not_in_chars (c : Z) (s : jsstring) :
  forallb (fun x => negb (x =? c)) s = true -> c ∉ s.
Proof.
  induction s as [| x s IH]; simpl; intros H; [apply not_elem_of_nil |].
  apply andb_prop in H as [Hx Hs]. apply not_elem_of_cons.
  split; [| exact (IH Hs)].
  intros ->. rewrite Z.eqb_refl in Hx. discriminate.
Qed.

Lemma uri_with_path_eq (proto h rest : jsstring) :
  char ":" ∉ proto -> proto <> str "blob" -> char "/" ∉ h ->
  char "?" ∉ proto ++ str "://" ++ h ++ char "/" :: rest ->
  char "#" ∉ proto ++ str "://" ++ h ++ char "/" :: rest ->
  exists name,
    char "/" :: rest = Url.folder (char "/" :: rest) ++ name
    /\ (char "/" ∉ name)
    /\ Url.uri (proto ++ str "://" ++ h ++ char "/" :: rest)
       = let dot := Url.lastIndexOf (char ".") name in
         {| Url.protocol := proto; Url.host := h;
            Url.path := char "/" :: rest;
            Url.origin := proto ++ str "://" ++ h;
            Url.directory := Url.folder (char "/" :: rest);
            Url.base := Str ((proto ++ str "://" ++ h)
                             ++ Url.folder (char "/" :: rest));
            Url.filename := name;
            Url.extension := if dot =? -1 then [] else slice_from name (dot + 1);
            Url.fragment := [];
            Url.href := proto ++ str "://" ++ h ++ char "/" :: rest;
            Url.search := None |}.
Proof.
  intros Hc Hb Hs Hq Hh.
  destruct (folder_cuts_at_last_slash_aux (char "/" :: rest)) as [name [Hp [Hn _]]].
  exists name. split; [exact Hp |]. split; [exact Hn |].
  rewrite (uri_absolute_eq proto (h ++ char "/" :: rest) Hc Hb Hq Hh).
  cbv zeta.
  replace (Url.indexOf (str "/") (h ++ char "/" :: rest))
    with (Z.of_nat (length h))
    by (symmetry; exact (index_of_from_first (char "/") [] h rest 0 Hs)).
  destruct (Z.eqb_spec (Z.of_nat (length h)) (-1)) as [E | _]; [lia |].
  rewrite slice_app_left, slice_from_app_right.
  replace (Url.remove_first
             ((proto ++ str "://" ++ h) ++ Url.folder (char "/" :: rest))
             (proto ++ str "://" ++ h ++ char "/" :: rest))
    with name; [reflexivity |].
  rewrite Hp at 2.
  replace (proto ++ str "://" ++ h ++ Url.folder (char "/" :: rest) ++ name)
    with (((proto ++ str "://" ++ h) ++ Url.folder (char "/" :: rest)) ++ name)
    by (rewrite <- !app_assoc; reflexivity).
  symmetry. apply remove_first_prefix.
Qed.

Lemma uri_without_path_eq (proto h : jsstring) :
  char ":" ∉ proto -> proto <> str "blob" -> char "/" ∉ h ->
  char "?" ∉ proto ++ str "://" ++ h ->
  char "#" ∉ proto ++ str "://" ++ h ->
  Url.uri (proto ++ str "://" ++ h)
  = let dot := Url.lastIndexOf (char ".") h in
    {| Url.protocol := proto; Url.host := []; Url.path := [];
       Url.origin := proto ++ str "://"; Url.directory := [];
       Url.base := Str (proto ++ str "://"); Url.filename := h;
       Url.extension := if dot =? -1 then [] else slice_from h (dot + 1);
       Url.fragment := []; Url.href := proto ++ str "://" ++ h;
       Url.search := None |}.
Proof.
  intros Hc Hb Hs Hq Hh.
  rewrite (uri_absolute_eq proto h Hc Hb Hq Hh). cbv zeta.
  replace (Url.indexOf (str "/") h) with (-1)
    by (symmetry; exact (index_of_from_absent (char "/") [] h 0 Hs)).
  change (-1 =? -1) with true. cbv iota.
  change (Url.folder []) with (@nil Z). rewrite !app_nil_r.
  replace (Url.remove_first (proto ++ str "://") (proto ++ str "://" ++ h))
    with h; [reflexivity |].
  rewrite (app_assoc proto). symmetry. apply remove_first_prefix.
Qed.



(** An address with a protocol and a host but no path is read as having
    no host: the host is taken from the member [path], which is still
    empty, and the text after [://] becomes the file name. *)
Theorem uri_absolute_without_path (proto h : jsstring) :
  char ":" ∉ proto -> proto <> str "blob" -> char "/" ∉ h ->
  char "?" ∉ proto ++ str "://" ++ h ->
  char "#" ∉ proto ++ str "://" ++ h ->
  let u := Url.uri (proto ++ str "://" ++ h) in
  Url.protocol u = proto
  /\ Url.host u = []
  /\ Url.path u = []
  /\ Url.origin u = proto ++ str "://"
  /\ Url.base u = Str (proto ++ str "://")
  /\ Url.filename u = h.
Proof.
  intros Hc Hb Hs Hq Hh u. subst u.
  rewrite (uri_without_path_eq proto h Hc Hb Hs Hq Hh). cbn.
  repeat split; reflexivity.
Qed.

Lemma uri_absolute_without_path_witness :
  Url.host (Url.uri (str "http://example.org")) = []
  /\ Url.filename (Url.uri (str "http://example.org")) = str "example.org".
Proof.
  refine (let H := uri_absolute_without_path (str "http") (str "example.org")
                     _ _ _ _ _ in
          conj (proj1 (proj2 H))
               (proj2 (proj2 (proj2 (proj2 (proj2 H))))));
    [apply not_in_chars; reflexivity | discriminate
    | apply not_in_chars; reflexivity | apply not_in_chars; reflexivity
    | apply not_in_chars; reflexivity].
Defined.

(** [resolveUrl] returns an absolute address as it is, whatever the
    base: an address made of a protocol without colon and other than
    [blob], of [://], of a host that is not empty and has no slash, and
    of a path that begins with a slash, with no question mark and no
    hash anywhere. *)
Theorem resolveUrl_absolute (base proto h rest : jsstring) :
  char ":" ∉ proto -> proto <> str "blob" -> char "/" ∉ h -> h <> [] ->
  char "?" ∉ proto ++ str "://" ++ h ++ char "/" :: rest ->
  char "#" ∉ proto ++ str "://" ++ h ++ char "/" :: rest ->
  Url.resolveUrl base (proto ++ str "://" ++ h ++ char "/" :: rest)
  = proto ++ str "://" ++ h ++ char "/" :: rest.
Proof.
  intros Hc Hb Hs Hne Hq Hh. unfold Url.resolveUrl.
  destruct (uri_with_path_eq proto h rest Hc Hb Hs Hq Hh) as [name [_ [_ ->]]].
  cbn. destruct h; [congruence | reflexivity].
Qed.

Lemma resolveUrl_absolute_witness :
  Url.resolveUrl (str "/books/alice/OPS/package.opf")
    (str "http://example.org/fonts/serif.woff")
  = str "http://example.org/fonts/serif.woff".
Proof.
  apply (resolveUrl_absolute (str "/books/alice/OPS/package.opf")
           (str "http") (str "example.org") (str "fonts/serif.woff"));
    [apply not_in_chars; reflexivity | discriminate
    | apply not_in_chars; reflexivity | discriminate
    | apply not_in_chars; reflexivity | apply not_in_chars; reflexivity].
Defined.

(** An address with protocol and host but no path is not recognised as
    absolute: [resolveUrl] puts it after the folder of the base. The
    address is made of a protocol without colon and without slash, other
    than [blob], of [://] and of a host without slash that is not [..],
    with no question mark and no hash anywhere. *)
Theorem resolveUrl_host_without_path (base proto h : jsstring) :
  char ":" ∉ proto -> char "/" ∉ proto -> proto <> str "blob" ->
  char "/" ∉ h -> h <> str ".." ->
  char "?" ∉ proto ++ str "://" ++ h ->
  char "#" ∉ proto ++ str "://" ++ h ->
  Url.resolveUrl base (proto ++ str "://" ++ h)
  = Url.folder base ++ proto ++ str "://" ++ h.
Proof.
  intros Hc Hp Hb Hs Hne Hq Hh. unfold Url.resolveUrl.
  rewrite (uri_without_path_eq proto h Hc Hb Hs Hq Hh). cbn.
  assert (Hsplit : split (char "/") (proto ++ str "://" ++ h)
                   = [proto ++ [char ":"]; []; h]).
  { replace (proto ++ str "://" ++ h)
      with ((proto ++ [char ":"]) ++ char "/" :: char "/" :: h)
      by (rewrite <- app_assoc; reflexivity).
    rewrite split_at_first.
    - pose proof (split_at_first (char "/") [] h (not_elem_of_nil _)) as E.
      cbn [app] in E. rewrite E, (split_no_sep _ _ Hs). reflexivity.
    - rewrite not_elem_of_app. split; [exact Hp |].
      apply not_elem_of_cons. split; [discriminate | apply not_elem_of_nil]. }
  assert (Hplain : Forall (fun p => p <> str "..")
                     (split (char "/") (proto ++ str "://" ++ h))).
  { rewrite Hsplit. repeat constructor; [| discriminate | exact Hne].
    intros E. apply Hc. 
    destruct proto as [| a [| b p]]; [discriminate | |].
    - injection E as _ E. discriminate.
    - destruct p; discriminate. }
  rewrite (resolve_pieces_plain _ _ _ Hplain), app_nil_l.
  change (str "/") with [char "/"].
  destruct (folders_of_base base) as [[-> ->] | [d [-> ->]]].
  - apply join_split.
  - rewrite join_app by apply split_not_nil.
    rewrite !join_split, <- app_assoc. reflexivity.
Qed.

Lemma resolveUrl_host_without_path_witness :
  Url.resolveUrl (str "/books/alice/OPS/package.opf") (str "http://example.org")
  = str "/books/alice/OPS/http://example.org".
Proof.
  apply (resolveUrl_host_without_path (str "/books/alice/OPS/package.opf")
           (str "http") (str "example.org"));
    [apply not_in_chars; reflexivity | apply not_in_chars; reflexivity
    | discriminate | apply not_in_chars; reflexivity | discriminate
    | apply not_in_chars; reflexivity | apply not_in_chars; reflexivity].
Defined.

(** ** Properties of the search in a sorted array *)

Lemma pivot_between (s e : Z) :
  0 <= s -> s < e ->
  let p := Z.quot (s + e) 2 in
  s <= p < e /\ (e - s = 1 -> p = s) /\ (2 <= e - s -> s < p).
Proof.
  intros Hs He p. subst p. rewrite Z.quot_div_nonneg by lia.
  pose proof (Z.div_mod (s + e) 2 ltac:(lia)) as Hd.
  pose proof (Z.mod_pos_bound (s + e) 2 ltac:(lia)) as Hm.
  lia.
Qed.

Lemma or_else_pos (v d : Z) : 0 < v -> Core.or_else (Some v) d = v.
Proof.
  intros Hv. unfold Core.or_else.
  destruct (Z.eqb_spec v 0); [lia | reflexivity].
Qed.

Lemma or_else_start (v : Z) : Core.or_else (Some v) 0 = v.
Proof. unfold Core.or_else. destruct (Z.eqb_spec v 0); congruence. Qed.

Lemma element_lookup (array : list Z) (p : Z) :
  0 <= p < Z.of_nat (length array) ->
  exists v, Core.element array p = Some v /\ array !! Z.to_nat p = Some v.
Proof.
  intros Hp. unfold Core.element. destruct (Z.ltb_spec p 0); [lia |].
  destruct (lookup_lt_is_Some_2 array (Z.to_nat p)) as [v Hv]; [lia |].
  exists v. split; exact Hv.
Qed.

Lemma sorted_lookup (l : list Z) (i j : nat) (x y : Z) :
  StronglySorted Z.le l ->
  l !! i = Some x -> l !! j = Some y -> (i <= j)%nat -> x <= y.
Proof.
  intros Hl Hi Hj Hij.
  destruct (decide (i = j)) as [-> | Hne]; [rewrite Hi in Hj; injection Hj; lia |].
  rewrite <- (take_drop j l) in Hl. apply StronglySorted_app in Hl as [Hl _].
  apply Hl.
  - apply elem_of_take. exists i. split; [exact Hi | lia].
  - rewrite (drop_S _ _ _ Hj). apply elem_of_cons. left. reflexivity.
Qed.

(** The three outcomes of the default comparison of numbers. *)
Lemma compare_default_cases (v item : Z) :
  (v > item /\ Core.compare_default (Some v) item = Some 1)
  \/ (v < item /\ Core.compare_default (Some v) item = Some (-1))
  \/ (v = item /\ item <> 0 /\ Core.compare_default (Some v) item = Some 0)
  \/ (v = item /\ item = 0 /\ Core.compare_default (Some v) item = None).
Proof.
  unfold Core.compare_default.
  destruct (Z.gtb_spec v item); [left; split; [lia | reflexivity] |].
  destruct (Z.ltb_spec v item); [right; left; split; [lia | reflexivity] |].
  destruct (Z.eqb_spec item 0).
  - right; right; right. repeat split; lia.
  - right; right; left. repeat split; lia.
Qed.

Lemma locationOf_rec_spec (item : Z) (array : list Z) :
  StronglySorted Z.le array ->
  forall fuel cf st en s e,
    default Core.compare_default cf = Core.compare_default ->
    Core.or_else st 0 = s ->
    Core.or_else en (Z.of_nat (length array)) = e ->
    0 <= s <= e -> e <= Z.of_nat (length array) ->
    (Z.to_nat (e - s) < fuel)%nat ->
    (forall i x, array !! i = Some x -> Z.of_nat i < s -> x <= item) ->
    (forall i x, array !! i = Some x -> e <= Z.of_nat i -> item <= x) ->
    exists r,
      Core.locationOf_rec fuel item array cf st en = Some r
      /\ s <= r <= e
      /\ (forall i x, array !! i = Some x -> Z.of_nat i < r -> x <= item)
      /\ (forall i x, array !! i = Some x -> r <= Z.of_nat i -> item <= x).
Proof.
  intros Hsorted. induction fuel as [| fuel IH];
    intros cf st en s e Hcf Hs He Hse Hlen Hfuel Hlow Hhigh; [lia |].
  cbn [Core.locationOf_rec]. rewrite Hs, He, Hcf. clear Hs He Hcf. cbv zeta.
  destruct (Z.leb_spec (e - s) 0) as [Hz | Hpos].
  - assert (e = s) by lia. subst e.
    replace (Z.quot (s + s) 2) with s
      by (rewrite Z.quot_div_nonneg by lia;
          replace (s + s) with (s * 2) by lia; rewrite Z.div_mul; lia).
    exists s. repeat split; try reflexivity; try lia; assumption.
  - destruct (pivot_between s e) as [Hp [Hone Htwo]]; [lia | lia |].
    set (p := Z.quot (s + e) 2) in *.
    destruct (element_lookup array p) as [v [-> Hv]]; [lia |].
    assert (Hbefore : forall i x, array !! i = Some x -> Z.of_nat i <= p -> x <= v).
    { intros i x Hi Hip. apply (sorted_lookup array i (Z.to_nat p)); auto; lia. }
    assert (Hafter : forall i x, array !! i = Some x -> p <= Z.of_nat i -> v <= x).
    { intros i x Hi Hip. apply (sorted_lookup array (Z.to_nat p) i); auto; lia. }
    destruct (Z.eqb_spec (e - s) 1) as [H1 | H1].
    + rewrite (Hone H1) in *.
      destruct (compare_default_cases v item)
        as [[Hc ->] | [[Hc ->] | [[Hc [_ ->]] | [Hc [_ ->]]]]]; cbn.
      * exists s. repeat split; try reflexivity; try lia; [exact Hlow |].
        intros i x Hi Hix. pose proof (Hafter i x Hi Hix). lia.
      * exists (s + 1). repeat split; try reflexivity; try lia.
        -- intros i x Hi Hix. pose proof (Hbefore i x Hi ltac:(lia)). lia.
        -- intros i x Hi Hix. apply (Hhigh i x Hi). lia.
      * exists (s + 1). repeat split; try reflexivity; try lia.
        -- intros i x Hi Hix. pose proof (Hbefore i x Hi ltac:(lia)). lia.
        -- intros i x Hi Hix. apply (Hhigh i x Hi). lia.
      * exists (s + 1). repeat split; try reflexivity; try lia.
        -- intros i x Hi Hix. pose proof (Hbefore i x Hi ltac:(lia)). lia.
        -- intros i x Hi Hix. apply (Hhigh i x Hi). lia.
    + specialize (Htwo ltac:(lia)).
      destruct (compare_default_cases v item)
        as [[Hc ->] | [[Hc ->] | [[Hc [_ ->]] | [Hc [_ ->]]]]]; cbn.
      * destruct (IH (Some Core.compare_default) (Some s) (Some p) s p)
          as [r [Hr [Hb [Hl Hh]]]];
          [reflexivity | apply or_else_start | apply or_else_pos; lia
          | lia | lia | lia | exact Hlow | |].
        { intros i x Hi Hix. pose proof (Hafter i x Hi Hix). lia. }
        exists r. repeat split; try reflexivity; try lia; assumption.
      * destruct (IH (Some Core.compare_default) (Some p) (Some e) p e)
          as [r [Hr [Hb [Hl Hh]]]];
          [reflexivity | apply or_else_start | apply or_else_pos; lia
          | lia | lia | lia | | exact Hhigh |].
        { intros i x Hi Hix. pose proof (Hbefore i x Hi ltac:(lia)). lia. }
        exists r. repeat split; try reflexivity; try lia; assumption.
      * exists p. repeat split; try reflexivity; try lia.
        -- intros i x Hi Hix. pose proof (Hbefore i x Hi ltac:(lia)). lia.
        -- intros i x Hi Hix. pose proof (Hafter i x Hi Hix). lia.
      * destruct (IH (Some Core.compare_default) (Some s) (Some p) s p)
          as [r [Hr [Hb [Hl Hh]]]];
          [reflexivity | apply or_else_start | apply or_else_pos; lia
          | lia | lia | lia | exact Hlow | |].
        { intros i x Hi Hix. pose proof (Hafter i x Hi Hix). lia. }
        exists r. repeat split; try reflexivity; try lia; assumption.
Qed.

Lemma indexOfSorted_rec_spec (item : Z) (array : list Z) :
  forall fuel cf st en s e,
    default Core.compare_default cf = Core.compare_default ->
    Core.or_else st 0 = s ->
    Core.or_else en (Z.of_nat (length array)) = e ->
    0 <= s <= e -> e <= Z.of_nat (length array) ->
    (Z.to_nat (e - s) < fuel)%nat ->
    exists r,
      Core.indexOfSorted_rec fuel item array cf st en = Some r
      /\ (r = -1
          \/ (s <= r < e /\ array !! Z.to_nat r = Some item /\ item <> 0))
      /\ (StronglySorted Z.le array -> item <> 0 ->
          (exists i, s <= Z.of_nat i < e /\ array !! i = Some item) ->
          r <> -1).
Proof.
  induction fuel as [| fuel IH];
    intros cf st en s e Hcf Hs He Hse Hlen Hfuel; [lia |].
  cbn [Core.indexOfSorted_rec]. rewrite Hs, He, Hcf. clear Hs He Hcf. cbv zeta.
  destruct (Z.leb_spec (e - s) 0) as [Hz | Hpos].
  - exists (-1). split; [reflexivity |]. split; [left; reflexivity |].
    intros _ _ [i [Hi _]]. lia.
  - destruct (pivot_between s e) as [Hp [Hone Htwo]]; [lia | lia |].
    set (p := Z.quot (s + e) 2) in *.
    destruct (element_lookup array p) as [v [-> Hv]]; [lia |].
    destruct (Z.eqb_spec (e - s) 1) as [H1 | H1].
    + assert (Hps : p = s) by exact (Hone H1).
      destruct (compare_default_cases v item)
        as [[Hc ->] | [[Hc ->] | [[Hc [Hnz ->]] | [Hc [Hnz ->]]]]]; cbn.
      * exists (-1). split; [reflexivity |]. split; [left; reflexivity |].
        intros _ _ [i [Hi Hx]].
        replace i with (Z.to_nat p) in Hx by lia. rewrite Hv in Hx.
        injection Hx. lia.
      * exists (-1). split; [reflexivity |]. split; [left; reflexivity |].
        intros _ _ [i [Hi Hx]].
        replace i with (Z.to_nat p) in Hx by lia. rewrite Hv in Hx.
        injection Hx. lia.
      * exists p. split; [reflexivity |]. subst v.
        split; [right; repeat split; (lia || assumption) | lia].
      * exists (-1). split; [reflexivity |]. split; [left; reflexivity |].
        intros _ Hne _. contradiction.
    + specialize (Htwo ltac:(lia)).
      destruct (compare_default_cases v item)
        as [[Hc ->] | [[Hc ->] | [[Hc [Hnz ->]] | [Hc [Hnz ->]]]]]; cbn.
      * destruct (IH (Some Core.compare_default) (Some s) (Some p) s p)
          as [r [Hr [Hfound Hall]]];
          [reflexivity | apply or_else_start | apply or_else_pos; lia
          | lia | lia | lia |].
        exists r. split; [exact Hr |]. split.
        -- destruct Hfound as [-> | [Hb Hx]]; [left; reflexivity |].
           right. split; [lia | exact Hx].
        -- intros Hsorted Hne [i [Hi Hx]]. apply (Hall Hsorted Hne).
           exists i. split; [| exact Hx].
           destruct (Z.lt_ge_cases (Z.of_nat i) p) as [Hlt | Hge]; [lia |].
           pose proof (sorted_lookup array (Z.to_nat p) i v item Hsorted Hv Hx
                         ltac:(lia)). lia.
      * destruct (IH (Some Core.compare_default) (Some p) (Some e) p e)
          as [r [Hr [Hfound Hall]]];
          [reflexivity | apply or_else_start | apply or_else_pos; lia
          | lia | lia | lia |].
        exists r. split; [exact Hr |]. split.
        -- destruct Hfound as [-> | [Hb Hx]]; [left; reflexivity |].
           right. split; [lia | exact Hx].
        -- intros Hsorted Hne [i [Hi Hx]]. apply (Hall Hsorted Hne).
           exists i. split; [| exact Hx].
           destruct (Z.lt_ge_cases (Z.of_nat i) p) as [Hlt | Hge]; [| lia].
           pose proof (sorted_lookup array i (Z.to_nat p) item v Hsorted Hx Hv
                         ltac:(lia)). lia.
      * exists p. split; [reflexivity |]. subst v.
        split; [right; repeat split; (lia || assumption) | lia].
      * destruct (IH (Some Core.compare_default) (Some s) (Some p) s p)
          as [r [Hr [Hfound Hall]]];
          [reflexivity | apply or_else_start | apply or_else_pos; lia
          | lia | lia | lia |].
        exists r. split; [exact Hr |]. split.
        -- destruct Hfound as [-> | [Hb Hx]]; [left; reflexivity |].
           right. split; [lia | exact Hx].
        -- intros _ Hne _. contradiction.
Qed.

(** On an array in ascending order, [insert] with the default comparison
    returns a location inside the array and puts the item there; the
    array is then still in ascending order and holds the item and the
    elements it held before. *)
Theorem insert_keeps_sorted (item : Z) (array : list Z) :
  StronglySorted Z.le array ->
  exists location array',
    Core.insert item array None = Some (location, array')
    /\ 0 <= location <= Z.of_nat (length array)
    /\ array' = take (Z.to_nat location) array
                ++ item :: drop (Z.to_nat location) array
    /\ StronglySorted Z.le array'
    /\ array' ≡ₚ item :: array.
Proof.
  intros Hsorted.
  destruct (locationOf_rec_spec item array Hsorted (S (length array))
              None None None 0 (Z.of_nat (length array)))
    as [r [Hr [Hb [Hl Hh]]]];
    [reflexivity | reflexivity | reflexivity | lia | lia | lia
    | intros; lia | | ].
  { intros i x Hi Hix. apply lookup_lt_Some in Hi. lia. }
  exists r, (take (Z.to_nat r) array ++ item :: drop (Z.to_nat r) array).
  assert (Hloc : Core.locationOf item array None = Some r) by exact Hr.
  unfold Core.insert. rewrite Hloc.
  split.
  { unfold Core.splice. destruct (Z.ltb_spec r 0); [lia |].
    rewrite Z.min_l by lia. reflexivity. }
  split; [exact Hb |]. split; [reflexivity |]. split.
  - apply StronglySorted_app. split; [| split].
    + intros x1 x2 H1 H2.
      apply elem_of_take in H1 as [i [Hi Hlt]].
      assert (x1 <= item) by (apply (Hl i x1 Hi); lia).
      apply elem_of_cons in H2 as [-> | H2]; [assumption |].
      apply list_elem_of_lookup in H2 as [k Hk]. rewrite lookup_drop in Hk.
      pose proof (Hh _ _ Hk ltac:(lia)). lia.
    + rewrite <- (take_drop (Z.to_nat r) array) in Hsorted.
      exact (StronglySorted_app_1_l _ _ _ Hsorted).
    + apply StronglySorted_cons. split.
      * apply Forall_forall. intros x Hx.
        apply list_elem_of_lookup in Hx as [k Hk]. rewrite lookup_drop in Hk.
        apply (Hh _ _ Hk). lia.
      * rewrite <- (take_drop (Z.to_nat r) array) in Hsorted.
        exact (StronglySorted_app_1_r _ _ _ Hsorted).
  - rewrite <- Permutation_middle, take_drop. reflexivity.
Qed.

Lemma insert_keeps_sorted_witness :
  exists location array',
    Core.insert 4 [1; 3; 5; 8] None = Some (location, array')
    /\ 0 <= location <= 4
    /\ array' = take (Z.to_nat location) [1; 3; 5; 8]
                ++ 4 :: drop (Z.to_nat location) [1; 3; 5; 8]
    /\ StronglySorted Z.le array'
    /\ array' ≡ₚ 4 :: [1; 3; 5; 8].
Proof.
  apply (insert_keeps_sorted 4 [1; 3; 5; 8]).
  repeat constructor; lia.
Defined.

(** [indexOfSorted] with the default comparison always returns: either
    -1 or a place of the array at which the item stands. *)
Theorem indexOfSorted_sound (item : Z) (array : list Z) :
  exists r,
    Core.indexOfSorted item array None = Some r
    /\ (r = -1
        \/ (0 <= r < Z.of_nat (length array)
            /\ array !! Z.to_nat r = Some item)).
Proof.
  destruct (indexOfSorted_rec_spec item array (S (length array))
              None None None 0 (Z.of_nat (length array)))
    as [r [Hr [Hfound _]]];
    [reflexivity | reflexivity | reflexivity | lia | lia | lia |].
  exists r. split; [exact Hr |].
  destruct Hfound as [-> | [Hb [Hx _]]]; [left; reflexivity |].
  right. split; assumption.
Qed.

(** In an array in ascending order, [indexOfSorted] with the default
    comparison finds every item other than 0 that the array holds. *)
Theorem indexOfSorted_finds (item : Z) (array : list Z) :
  StronglySorted Z.le array -> item <> 0 -> item ∈ array ->
  exists r,
    Core.indexOfSorted item array None = Some r
    /\ 0 <= r < Z.of_nat (length array)
    /\ array !! Z.to_nat r = Some item.
Proof.
  intros Hsorted Hne Hin.
  destruct (indexOfSorted_rec_spec item array (S (length array))
              None None None 0 (Z.of_nat (length array)))
    as [r [Hr [Hfound Hall]]];
    [reflexivity | reflexivity | reflexivity | lia | lia | lia |].
  exists r. split; [exact Hr |].
  destruct Hfound as [-> | [Hb [Hx _]]]; [| split; assumption].
  exfalso. apply (Hall Hsorted Hne); [| reflexivity].
  apply list_elem_of_lookup in Hin as [i Hi]. exists i.
  split; [| exact Hi]. apply lookup_lt_Some in Hi. lia.
Qed.

Lemma indexOfSorted_finds_witness :
  exists r,
    Core.indexOfSorted 5 [1; 3; 5; 8] None = Some r
    /\ 0 <= r < 4
    /\ [1; 3; 5; 8] !! Z.to_nat r = Some 5.
Proof.
  apply (indexOfSorted_finds 5 [1; 3; 5; 8]).
  - repeat constructor; lia.
  - lia.
  - apply elem_of_cons. right. apply elem_of_cons. right.
    apply elem_of_cons. left. reflexivity.
Defined.

(** The number 0 is never found by [indexOfSorted] with the default
    comparison, whatever the array holds: the comparison of 0 with 0
    yields [undefined] and not 0. *)
Theorem indexOfSorted_zero (array : list Z) :
  Core.indexOfSorted 0 array None = Some (-1).
Proof.
  destruct (indexOfSorted_rec_spec 0 array (S (length array))
              None None None 0 (Z.of_nat (length array)))
    as [r [Hr [Hfound _]]];
    [reflexivity | reflexivity | reflexivity | lia | lia | lia |].
  assert (Hidx : Core.indexOfSorted 0 array None = Some r) by exact Hr.
  rewrite Hidx. destruct Hfound as [-> | [_ [_ Hne]]]; [reflexivity | congruence].
Qed.

(** ** Properties of the bookmarks and the notes *)

Lemma index_from_absent_item {A} `{EqDecision A} (x : A)
    (array : list (option A)) (i : Z) :
  Some x ∉ array -> Bookmarks.index_from x array i = -1.
Proof.
  revert i. induction array as [| y rest IH]; intros i Hx; [reflexivity |].
  apply not_elem_of_cons in Hx as [Hy Hrest]. simpl.
  destruct (decide (y = Some x)); [congruence | apply IH, Hrest].
Qed.

Lemma index_from_first_item {A} `{EqDecision A} (x : A)
    (a b : list (option A)) (i : Z) :
  Some x ∉ a ->
  Bookmarks.index_from x (a ++ Some x :: b) i = i + Z.of_nat (length a).
Proof.
  revert i. induction a as [| y a IH]; intros i Hx; simpl.
  - destruct (decide (Some x = Some x)); [lia | congruence].
  - apply not_elem_of_cons in Hx as [Hy Ha].
    destruct (decide (y = Some x)); [congruence |].
    rewrite (IH _ Ha). lia.
Qed.

(** An array splits at the first place of an element it holds. *)
Lemma split_at_first_item {A} `{EqDecision A} (x : A) (l : list A) :
  x ∈ l -> exists a b, l = a ++ x :: b /\ x ∉ a.
Proof.
  induction l as [| y l IH]; intros Hx; [apply elem_of_nil in Hx; contradiction |].
  destruct (decide (y = x)) as [-> | Hne].
  - exists [], l. split; [reflexivity | apply not_elem_of_nil].
  - apply elem_of_cons in Hx as [-> | Hx]; [congruence |].
    destruct (IH Hx) as [a [b [-> Ha]]].
    exists (y :: a), b. split; [reflexivity |].
    apply not_elem_of_cons. split; [congruence | exact Ha].
Qed.

Lemma delete_middle {A} (a b : list A) (x : A) :
  delete (length a) (a ++ x :: b) = a ++ b.
Proof. induction a as [| y a IH]; [reflexivity |]. simpl. f_equal. exact IH. Qed.

Lemma Some_not_in {A} (x : A) (l : list A) : x ∉ l -> Some x ∉ (Some <$> l).
Proof.
  intros Hx Hin. apply list_elem_of_fmap in Hin as [y [E Hy]].
  injection E as ->. contradiction.
Qed.

Lemma not_in_jsstrings (x : jsstring) (l : list jsstring) :
  forallb (fun y => negb (jsstring_eqb y x)) l = true -> x ∉ l.
Proof.
  induction l as [| y l IH]; simpl; intros H; [apply not_elem_of_nil |].
  apply andb_prop in H as [Hy Hl]. apply not_elem_of_cons.
  split; [| exact (IH Hl)].
  intros ->. unfold jsstring_eqb in Hy.
  destruct (decide (y = y)); [discriminate | congruence].
Qed.

Lemma isBookmarked_absent (r : Bookmarks.reader) (cfi : jsstring) :
  cfi ∉ Bookmarks.bookmarks r -> Bookmarks.isBookmarked r cfi = -1.
Proof.
  intros Hx. apply index_from_absent_item, Some_not_in, Hx.
Qed.

Lemma isBookmarked_first (r : Bookmarks.reader) (cfi : jsstring)
    (a b : list jsstring) :
  Bookmarks.bookmarks r = a ++ cfi :: b -> cfi ∉ a ->
  Bookmarks.isBookmarked r cfi = Z.of_nat (length a).
Proof.
  intros E Ha. unfold Bookmarks.isBookmarked, Bookmarks.indexOf.
  rewrite E, fmap_app, fmap_cons.
  rewrite (index_from_first_item cfi _ _ 0 (Some_not_in _ _ Ha)).
  rewrite length_fmap. lia.
Qed.

(** [isBookmarked] returns -1 exactly for a string that is not among the
    bookmarks, and otherwise the first index at which it stands. *)
Theorem isBookmarked_index (r : Bookmarks.reader) (cfi : jsstring) :
  (Bookmarks.isBookmarked r cfi = -1 <-> cfi ∉ Bookmarks.bookmarks r)
  /\ (Bookmarks.isBookmarked r cfi <> -1 ->
      0 <= Bookmarks.isBookmarked r cfi
      /\ Bookmarks.bookmarks r !! Z.to_nat (Bookmarks.isBookmarked r cfi)
         = Some cfi
      /\ cfi ∉ take (Z.to_nat (Bookmarks.isBookmarked r cfi))
                 (Bookmarks.bookmarks r)).
Proof.
  destruct (decide (cfi ∈ Bookmarks.bookmarks r)) as [Hin | Hout].
  - destruct (split_at_first_item _ _ Hin) as [a [b [E Ha]]].
    rewrite (isBookmarked_first r cfi a b E Ha), E, Nat2Z.id.
    split.
    + split; [lia |]. intros H. destruct H.
      apply elem_of_app. right. apply elem_of_cons. left. reflexivity.
    + intros _. split; [lia |]. split.
      * rewrite lookup_app_r by lia. rewrite Nat.sub_diag. reflexivity.
      * rewrite take_app_length. exact Ha.
  - rewrite (isBookmarked_absent r cfi Hout).
    split; [split; auto | congruence].
Qed.

(** [addBookmark] keeps the bookmarks free of repetitions: afterwards
    the string is bookmarked, what was bookmarked still is, and the
    event is triggered only when the string was not bookmarked before. *)
Theorem addBookmark_bookmarked (r : Bookmarks.reader) (cfi : jsstring) :
  NoDup (Bookmarks.bookmarks r) ->
  NoDup (Bookmarks.bookmarks (Bookmarks.addBookmark cfi r))
  /\ Bookmarks.isBookmarked (Bookmarks.addBookmark cfi r) cfi <> -1
  /\ (forall c, c ∈ Bookmarks.bookmarks (Bookmarks.addBookmark cfi r)
                <-> c = cfi \/ c ∈ Bookmarks.bookmarks r)
  /\ Bookmarks.triggered (Bookmarks.addBookmark cfi r)
     = Bookmarks.triggered r
       ++ (if decide (cfi ∈ Bookmarks.bookmarks r) then []
           else [Bookmarks.Bookmarked cfi]).
Proof.
  intros Hnd. unfold Bookmarks.addBookmark.
  destruct (decide (cfi ∈ Bookmarks.bookmarks r)) as [Hin | Hout].
  - destruct (split_at_first_item _ _ Hin) as [a [b [E Ha]]].
    rewrite (isBookmarked_first r cfi a b E Ha).
    destruct (Z.gtb_spec (Z.of_nat (length a)) (-1)); [| lia].
    rewrite (isBookmarked_first r cfi a b E Ha).
    split; [exact Hnd |]. split; [lia |]. split; [| rewrite app_nil_r; reflexivity].
    intros c. split; [auto |]. intros [-> | Hc]; assumption.
  - rewrite (isBookmarked_absent r cfi Hout). change (-1 >? -1) with false.
    cbn [Bookmarks.trigger Bookmarks.bookmarks Bookmarks.triggered].
    split; [| split; [| split; [| reflexivity]]].
    + apply NoDup_app. split; [exact Hnd |]. split; [| apply NoDup_singleton].
      intros x Hx Hx'. apply list_elem_of_singleton in Hx'. subst x. contradiction.
    + rewrite (isBookmarked_first _ cfi (Bookmarks.bookmarks r) []);
        [lia | reflexivity | exact Hout].
    + intros c. rewrite elem_of_app, list_elem_of_singleton. tauto.
Qed.

Lemma addBookmark_bookmarked_witness :
  Bookmarks.bookmarks (Bookmarks.addBookmark (str "epubcfi(/6/8!/4/10)") shelf)
  = [str "epubcfi(/6/4!/4/2)"; str "epubcfi(/6/8!/4/10)"]
  /\ NoDup (Bookmarks.bookmarks
              (Bookmarks.addBookmark (str "epubcfi(/6/8!/4/10)") shelf)).
Proof.
  split; [reflexivity |].
  apply (addBookmark_bookmarked shelf (str "epubcfi(/6/8!/4/10)")).
  repeat constructor. apply not_elem_of_nil.
Defined.

Lemma delete_first_item (cfi : jsstring) (a b : list jsstring) :
  NoDup (a ++ cfi :: b) -> NoDup (a ++ b) /\ (cfi ∉ a ++ b).
Proof.
  intros Hnd. apply NoDup_app in Hnd as [Ha [Hab Hb]].
  apply NoDup_cons in Hb as [Hcb Hb].
  split.
  - apply NoDup_app. split; [exact Ha |]. split; [| exact Hb].
    intros x Hx Hx'. apply (Hab x Hx). apply elem_of_cons. right. exact Hx'.
  - rewrite not_elem_of_app. split; [| exact Hcb].
    intros Hx. apply (Hab cfi Hx). apply elem_of_cons. left. reflexivity.
Qed.

(** When no bookmark is repeated, [removeBookmark] leaves the string not
    bookmarked and every other bookmark in place; the event carries the
    index the string had, and nothing is triggered when it was not
    bookmarked. *)
Theorem removeBookmark_removes (r : Bookmarks.reader) (cfi : jsstring) :
  NoDup (Bookmarks.bookmarks r) ->
  NoDup (Bookmarks.bookmarks (Bookmarks.removeBookmark cfi r))
  /\ Bookmarks.isBookmarked (Bookmarks.removeBookmark cfi r) cfi = -1
  /\ (forall c, c ∈ Bookmarks.bookmarks (Bookmarks.removeBookmark cfi r)
                <-> c <> cfi /\ c ∈ Bookmarks.bookmarks r)
  /\ Bookmarks.triggered (Bookmarks.removeBookmark cfi r)
     = Bookmarks.triggered r
       ++ (if decide (cfi ∈ Bookmarks.bookmarks r)
           then [Bookmarks.Unbookmarked (Bookmarks.isBookmarked r cfi)]
           else []).
Proof.
  intros Hnd. unfold Bookmarks.removeBookmark.
  destruct (decide (cfi ∈ Bookmarks.bookmarks r)) as [Hin | Hout].
  - destruct (split_at_first_item _ _ Hin) as [a [b [E Ha]]].
    rewrite (isBookmarked_first r cfi a b E Ha).
    destruct (Z.eqb_spec (Z.of_nat (length a)) (-1)); [lia |].
    rewrite Nat2Z.id, E, delete_middle.
    rewrite E in Hnd. destruct (delete_first_item _ _ _ Hnd) as [Hnd' Hout].
    cbn [Bookmarks.trigger Bookmarks.bookmarks Bookmarks.triggered].
    split; [exact Hnd' |]. split; [| split; [| reflexivity]].
    + apply isBookmarked_absent. exact Hout.
    + intros c. rewrite !elem_of_app, elem_of_cons.
      rewrite not_elem_of_app in Hout. destruct Hout as [Hoa Hob].
      split.
      * intros [Hc | Hc]; (split; [intros ->; contradiction | tauto]).
      * intros [Hne [Hc | [Hc | Hc]]]; [left | contradiction | right]; exact Hc.
  - rewrite (isBookmarked_absent r cfi Hout). change (-1 =? -1) with true.
    cbv iota. rewrite (isBookmarked_absent r cfi Hout), app_nil_r.
    split; [exact Hnd |]. split; [reflexivity |]. split; [| reflexivity].
    intros c. split; [| tauto]. intros Hc. split; [| exact Hc].
    intros ->. contradiction.
Qed.

Lemma removeBookmark_removes_witness :
  Bookmarks.bookmarks (Bookmarks.removeBookmark (str "epubcfi(/6/4!/4/2)") shelf)
  = []
  /\ Bookmarks.isBookmarked
       (Bookmarks.removeBookmark (str "epubcfi(/6/4!/4/2)") shelf)
       (str "epubcfi(/6/4!/4/2)") = -1.
Proof.
  split; [reflexivity |].
  apply (removeBookmark_removes shelf (str "epubcfi(/6/4!/4/2)")).
  repeat constructor. apply not_elem_of_nil.
Defined.

(** Adding a string that is not bookmarked and removing it again gives
    the bookmarks back; the two events are triggered, the second with
    the index at the end of the array. *)
Theorem removeBookmark_addBookmark (r : Bookmarks.reader) (cfi : jsstring) :
  cfi ∉ Bookmarks.bookmarks r ->
  Bookmarks.bookmarks (Bookmarks.removeBookmark cfi (Bookmarks.addBookmark cfi r))
  = Bookmarks.bookmarks r
  /\ Bookmarks.triggered
       (Bookmarks.removeBookmark cfi (Bookmarks.addBookmark cfi r))
     = Bookmarks.triggered r
       ++ [Bookmarks.Bookmarked cfi;
           Bookmarks.Unbookmarked (Z.of_nat (length (Bookmarks.bookmarks r)))].
Proof.
  intros Hout. unfold Bookmarks.addBookmark.
  rewrite (isBookmarked_absent r cfi Hout). change (-1 >? -1) with false.
  cbv iota. set (r' := Bookmarks.trigger _ _).
  assert (Hidx : Bookmarks.isBookmarked r' cfi
                 = Z.of_nat (length (Bookmarks.bookmarks r)))
    by (apply (isBookmarked_first r' cfi (Bookmarks.bookmarks r) []);
        [reflexivity | exact Hout]).
  unfold Bookmarks.removeBookmark. rewrite Hidx. subst r'.
  destruct (Z.eqb_spec (Z.of_nat (length (Bookmarks.bookmarks r))) (-1)); [lia |].
  cbn [Bookmarks.trigger Bookmarks.bookmarks Bookmarks.triggered].
  rewrite Nat2Z.id, delete_middle, app_nil_r, <- app_assoc.
  split; reflexivity.
Qed.

Lemma removeBookmark_addBookmark_witness :
  Bookmarks.bookmarks
    (Bookmarks.removeBookmark (str "epubcfi(/6/8!/4/10)")
       (Bookmarks.addBookmark (str "epubcfi(/6/8!/4/10)") shelf))
  = Bookmarks.bookmarks shelf.
Proof.
  apply (removeBookmark_addBookmark shelf (str "epubcfi(/6/8!/4/10)")).
  apply not_in_jsstrings. reflexivity.
Defined.

Lemma insert_middle {A} (a b : list A) (x y : A) :
  <[length a := y]> (a ++ x :: b) = a ++ y :: b.
Proof. induction a as [| z a IH]; [reflexivity |]. simpl. f_equal. exact IH. Qed.

Lemma index_from_other {A} `{EqDecision A} (x : A) (a b : list (option A))
    (y y' : option A) (i : Z) :
  y <> Some x -> y' <> Some x ->
  Bookmarks.index_from x (a ++ y :: b) i = Bookmarks.index_from x (a ++ y' :: b) i.
Proof.
  intros Hy Hy'. revert i. induction a as [| z a IH]; intros i; simpl.
  - destruct (decide (y = Some x)), (decide (y' = Some x)); congruence.
  - destruct (decide (z = Some x)); [reflexivity | apply IH].
Qed.

(** [removeNote] does not shorten the array of notes: the note leaves a
    hole, and every other note keeps its index. A note that is not in
    the array changes nothing. *)
Theorem removeNote_leaves_hole (r : Bookmarks.reader) (note : nat) :
  length (Bookmarks.annotations (Bookmarks.removeNote note r))
  = length (Bookmarks.annotations r)
  /\ (forall other, other <> note ->
        Bookmarks.indexOf other (Bookmarks.annotations (Bookmarks.removeNote note r))
        = Bookmarks.indexOf other (Bookmarks.annotations r))
  /\ (Some note ∉ Bookmarks.annotations r -> Bookmarks.removeNote note r = r)
  /\ (Some note ∈ Bookmarks.annotations r ->
        Bookmarks.annotations (Bookmarks.removeNote note r)
        !! Z.to_nat (Bookmarks.indexOf note (Bookmarks.annotations r))
        = Some None).
Proof.
  unfold Bookmarks.removeNote, Bookmarks.indexOf.
  destruct (decide (Some note ∈ Bookmarks.annotations r)) as [Hin | Hout].
  - destruct (split_at_first_item _ _ Hin) as [a [b [E Ha]]].
    rewrite E, (index_from_first_item note a b 0 Ha).
    destruct (Z.eqb_spec (0 + Z.of_nat (length a)) (-1)); [lia |].
    cbn [Bookmarks.annotations].
    replace (Z.to_nat (0 + Z.of_nat (length a))) with (length a) by lia.
    rewrite insert_middle.
    split; [rewrite !length_app; reflexivity |]. split; [| split].
    + intros other Hne. apply index_from_other; congruence.
    + intros Hout. destruct Hout.
      apply elem_of_app. right. apply elem_of_cons. left. reflexivity.
    + intros _. rewrite lookup_app_r by lia. rewrite Nat.sub_diag. reflexivity.
  - rewrite (index_from_absent_item note _ 0 Hout). change (-1 =? -1) with true.
    cbv iota. repeat split; auto. contradiction.
Qed.

(** ** The marks of the [relocated] handler over a run of relocations *)

Lemma addClass_keeps (sel name s c : jsstring) (w : world) :
  c ∈ class_set w s -> c ∈ class_set (snd (addClass sel name w)) s.
Proof.
  intros Hc. destruct (decide (sel = s)) as [-> | Hne].
  - rewrite class_set_addClass. apply elem_of_union_l, Hc.
  - rewrite (class_set_addClass_ne _ _ _ _ Hne). exact Hc.
Qed.

Lemma addClass_then (sel name : jsstring) (k : M unit) (w : world) :
  (addClass sel name;; k) w = k (snd (addClass sel name w)).
Proof. reflexivity. Qed.

Lemma relocated_returns (location : location) (w : world) :
  relocated location w = (Returns tt, snd (relocated location w)).
Proof.
  rewrite relocated_eq.
  destruct (atStart location), (atEnd location); reflexivity.
Qed.

Lemma relocated_keeps (location : location) (w : world) (s c : jsstring) :
  c ∈ class_set w s -> c ∈ class_set (snd (relocated location w)) s.
Proof.
  intros Hc. rewrite relocated_eq.
  set (w1 := if page (end_displayed location) =? total (end_displayed location) - 1
             then _ else w).
  assert (H1 : c ∈ class_set w1 s).
  { subst w1. destruct (_ =? _); [| exact Hc]. apply addClass_keeps. exact Hc. }
  clearbody w1.
  destruct (atStart location), (atEnd location);
    rewrite ?addClass_then; try (exact H1);
    repeat apply addClass_keeps; exact H1.
Qed.

Lemma addClass_has (sel name : jsstring) (w : world) :
  name ∈ class_set (snd (addClass sel name w)) sel.
Proof.
  rewrite class_set_addClass. apply elem_of_union_r, elem_of_singleton.
  reflexivity.
Qed.

Lemma relocated_marks (location : location) (w : world) :
  (atStart location = true ->
   str "disabled" ∈ class_set (snd (relocated location w)) prev)
  /\ (atEnd location = true ->
      str "disabled" ∈ class_set (snd (relocated location w)) next).
Proof.
  rewrite relocated_eq.
  set (w1 := if page (end_displayed location) =? total (end_displayed location) - 1
             then _ else w).
  clearbody w1.
  destruct (atStart location), (atEnd location);
    split; intros H; try discriminate H.
  - apply (addClass_keeps next (str "disabled") prev (str "disabled")
             (snd (addClass prev (str "disabled") w1))).
    apply addClass_has.
  - apply (addClass_has next (str "disabled")
             (snd (addClass prev (str "disabled") w1))).
  - apply (addClass_has prev (str "disabled") w1).
  - apply (addClass_has next (str "disabled") w1).
Qed.

(** Over any run of relocations the handler only adds classes: a class
    an element has is never taken away, so a button marked [disabled] at
    the start or at the end of the book keeps the mark when the reader
    moves on. *)
Theorem relocated_never_enables (locations : list location) (w : world) :
  fst (for_each locations (fun location _ => relocated location) tt w)
  = Returns tt
  /\ (forall selector name,
        hasClass w selector name ->
        hasClass
          (snd (for_each locations (fun location _ => relocated location) tt w))
          selector name)
  /\ ((exists location, location ∈ locations /\ atStart location = true) ->
      hasClass
        (snd (for_each locations (fun location _ => relocated location) tt w))
        prev (str "disabled"))
  /\ ((exists location, location ∈ locations /\ atEnd location = true) ->
      hasClass
        (snd (for_each locations (fun location _ => relocated location) tt w))
        next (str "disabled")).
Proof.
  unfold hasClass. revert w.
  induction locations as [| l rest IH]; intros w.
  - split; [reflexivity |]. split; [auto |].
    split; intros [x [Hx _]]; apply elem_of_nil in Hx; contradiction.
  - rewrite for_each_cons, relocated_returns.
    destruct (IH (snd (relocated l w))) as [Hr [Hk [Hs He]]].
    split; [exact Hr |]. split; [| split].
    + intros s c Hc. apply Hk, relocated_keeps, Hc.
    + intros [x [Hx Hat]]. apply elem_of_cons in Hx as [-> | Hx].
      * apply Hk. apply (relocated_marks l w). exact Hat.
      * apply Hs. exists x. split; assumption.
    + intros [x [Hx Hat]]. apply elem_of_cons in Hx as [-> | Hx].
      * apply Hk. apply (relocated_marks l w). exact Hat.
      * apply He. exists x. split; assumption.
Qed.
